(** * radard: radar/vision lead fusion (selfdrive/controls/radard.py)

    A shallow embedding of the track management, the two association
    strategies, lead and side-lead selection and the per-cycle orchestration
    of [radard.py], followed by the properties its specification states.

    Numbers.  Python floats are read as exact rationals ([Q]); a comparison
    [a < b] of the source is the boolean [Qltb a b], and float equality is
    [Qeq_bool].  Rounding is outside this model.

    Dictionaries.  A Python dict iterates in insertion order and [max]/[min]
    keep the first extremal element, so a dict is an association list in
    insertion order ([dict_set] overwrites in place or appends).

    Exceptions.  A function that can raise on well-typed input returns a
    [result]. *)

From Stdlib Require Import QArith Qabs Qminmax Lqa List Bool ZArith Lia Sorted Permutation
  SetoidList.
Import ListNotations.
Open Scope Q_scope.

(** ** Python values *)

Definition Qltb (a b : Q) : bool := negb (Qle_bool b a).

Inductive exn : Set := AssertionError | ValueError | IndexError.

Inductive result (A : Type) : Type :=
| Ok (a : A)
| Raise (e : exn).
Arguments Ok {A} a.
Arguments Raise {A} e.

Definition bind {A B : Type} (m : result A) (k : A -> result B) : result B :=
  match m with
  | Ok a => k a
  | Raise e => Raise e
  end.

Notation "x <- m ;; k" := (bind m (fun x => k))
  (at level 61, m at next level, right associativity).
Notation "' p <- m ;; k" := (bind m (fun x => match x with p => k end))
  (at level 61, p pattern, m at next level, right associativity).

Section Dict.
Context {K V : Type} (eqb : K -> K -> bool).

(** [d.get(k)] *)
Fixpoint dict_get (k : K) (d : list (K * V)) : option V :=
  match d with
  | [] => None
  | (k', v) :: d' => if eqb k k' then Some v else dict_get k d'
  end.

(** [k in d] *)
Definition dict_mem (k : K) (d : list (K * V)) : bool :=
  existsb (fun kv => eqb k (fst kv)) d.

(** [d[k] = v]: an existing key keeps its place, a new one goes last. *)
Fixpoint dict_set (k : K) (v : V) (d : list (K * V)) : list (K * V) :=
  match d with
  | [] => [(k, v)]
  | (k', v') :: d' => if eqb k k' then (k', v) :: d' else (k', v') :: dict_set k v d'
  end.

(** [d.pop(k, None)] *)
Definition dict_pop (k : K) (d : list (K * V)) : list (K * V) :=
  filter (fun kv => negb (eqb k (fst kv))) d.
End Dict.

Definition keys {K V : Type} (d : list (K * V)) : list K := map fst d.
Definition values {K V : Type} (d : list (K * V)) : list V := map snd d.

Section Extremum.
Context {A : Type} (key : A -> Q).

(** [min(x :: xs, key=key)]: the first element whose key is least. *)
Fixpoint min_from (best : A) (xs : list A) : A :=
  match xs with
  | [] => best
  | x :: xs' => min_from (if Qltb (key x) (key best) then x else best) xs'
  end.

(** [max(x :: xs, key=key)]: the first element whose key is greatest. *)
Fixpoint max_from (best : A) (xs : list A) : A :=
  match xs with
  | [] => best
  | x :: xs' => max_from (if Qltb (key best) (key x) then x else best) xs'
  end.

(** [min(xs, key=key, default=None)] *)
Definition min_by (xs : list A) : option A :=
  match xs with
  | [] => None
  | x :: xs' => Some (min_from x xs')
  end.

(** [max(xs, key=key, default=None)] *)
Definition max_by (xs : list A) : option A :=
  match xs with
  | [] => None
  | x :: xs' => Some (max_from x xs')
  end.
End Extremum.

(** ** Collaborators outside [radard.py] *)

(** Modelled from the spec: [interp] of [openpilot.common.numpy_fast] is not
    among the sources.  It is the linear interpolation over a table of
    samples [(xp, fp)] that the specification describes ("1.5m at 0m, full
    lane width at 10m, 0.6 x lane width beyond 100m"): the first value at or
    below the first sample, the last value beyond the last sample, and the
    chord between the two neighbouring samples in between. *)
Fixpoint interp_from (x x0 f0 : Q) (xp fp : list Q) : Q :=
  match xp, fp with
  | x1 :: xp', f1 :: fp' =>
      if Qle_bool x x1
      then (x - x0) * (f1 - f0) / (x1 - x0) + f0
      else interp_from x x1 f1 xp' fp'
  | _, _ => f0
  end.

Definition interp (x : Q) (xp fp : list Q) : Q :=
  match xp, fp with
  | x0 :: xp', f0 :: fp' => if Qle_bool x x0 then f0 else interp_from x x0 f0 xp' fp'
  | _, _ => 0
  end.

(** Modelled from the spec: class [KF1D] of [openpilot.common.simple_kalman]
    is not among the sources.  It is the "recursive linear estimator
    combining a prior prediction with a new measurement weighted by a fixed
    gain" of the glossary, for a two-component state: one correction step is
    [x := (A - K C) x + K meas]. *)
Module KF1D.
Record t : Set := mk {
  x0_0 : Q; x1_0 : Q;
  A_K_0 : Q; A_K_1 : Q; A_K_2 : Q; A_K_3 : Q;
  K0_0 : Q; K1_0 : Q
}.

(** [KF1D([[x0], [x1]], A, C, K)] *)
Definition init (x0 x1 : Q) (A : (Q * Q) * (Q * Q)) (C : Q * Q) (K : Q * Q) : t :=
  let '((a00, a01), (a10, a11)) := A in
  let '(c0, c1) := C in
  let '(k0, k1) := K in
  {| x0_0 := x0; x1_0 := x1;
     A_K_0 := a00 - k0 * c0; A_K_1 := a01 - k0 * c1;
     A_K_2 := a10 - k1 * c0; A_K_3 := a11 - k1 * c1;
     K0_0 := k0; K1_0 := k1 |}.

Definition update (kf : t) (meas : Q) : t :=
  {| x0_0 := A_K_0 kf * x0_0 kf + A_K_1 kf * x1_0 kf + K0_0 kf * meas;
     x1_0 := A_K_2 kf * x0_0 kf + A_K_3 kf * x1_0 kf + K1_0 kf * meas;
     A_K_0 := A_K_0 kf; A_K_1 := A_K_1 kf; A_K_2 := A_K_2 kf; A_K_3 := A_K_3 kf;
     K0_0 := K0_0 kf; K1_0 := K1_0 kf |}.
End KF1D.

(** ** Constants of [radard.py] *)

Definition _LEAD_ACCEL_TAU : Q := 1.5.
Definition V_EGO_STATIONARY : Q := 4.
Definition RADAR_TO_CAMERA : Q := 1.52.

(** ** [KalmanParams] *)

Module KalmanParams.
Record t : Set := mk {
  A : (Q * Q) * (Q * Q);
  C : Q * Q;
  K : Q * Q
}.

Definition dts : list Q := map (fun i => inject_Z i * 0.01) [1; 2; 3; 4; 5; 6; 7; 8; 9; 10;
  11; 12; 13; 14; 15; 16; 17; 18; 19; 20]%Z.

Definition K0 : list Q :=
  [0.12287673; 0.14556536; 0.16522756; 0.18281627; 0.1988689; 0.21372394;
   0.22761098; 0.24069424; 0.253096; 0.26491023; 0.27621103; 0.28705801;
   0.29750003; 0.30757767; 0.31732515; 0.32677158; 0.33594201; 0.34485814;
   0.35353899; 0.36200124].

Definition K1 : list Q :=
  [0.29666309; 0.29330885; 0.29042818; 0.28787125; 0.28555364; 0.28342219;
   0.28144091; 0.27958406; 0.27783249; 0.27617149; 0.27458948; 0.27307714;
   0.27162685; 0.27023228; 0.26888809; 0.26758976; 0.26633338; 0.26511557;
   0.26393339; 0.26278425].

(** [KalmanParams(dt)]; the [assert] on [dt] raises. *)
Definition init (dt : Q) : result t :=
  if Qltb 0.01 dt && Qltb dt 0.2
  then Ok {| A := ((1, dt), (0, 1)); C := (1, 0);
             K := (interp dt dts K0, interp dt dts K1) |}
  else Raise AssertionError.
End KalmanParams.

(** ** Messages read by the core *)

(** One vision lead candidate ([modelV2.leadsV3[i]]).  The model fills every
    trajectory list; the core reads element 0 only, which is what each field
    holds. *)
Module LeadMsg.
Record t : Set := mk {
  x : Q; y : Q; v : Q; a : Q;
  xStd : Q; yStd : Q; vStd : Q;
  prob : Q
}.
End LeadMsg.

(** [modelV2]: the planned path and the lead candidates. *)
Module ModelV2.
Record t : Set := mk {
  position_x : list Q;
  position_y : list Q;
  leadsV3 : list LeadMsg.t;
  temporalPose_trans : list Q
}.
End ModelV2.

(** One radar point of [RadarData.points]. *)
Module RadarPoint.
Record t : Set := mk {
  trackId : Z;
  dRel : Q; yRel : Q; vRel : Q; aRel : Q;
  measured : bool
}.
End RadarPoint.

(** ** Lead Record

    The dicts built by [get_RadarState], [get_RadarState2] and
    [get_RadarState_from_vision], and [{'status': False}].  They are stored
    into [RadarState.LeadData] structs, where a key that a dict does not set
    reads as zero or false; the record holds them that way. *)
Module Lead.
Record t : Set := mk {
  dRel : Q; yRel : Q; vRel : Q;
  vLead : Q; vLeadK : Q; aLeadK : Q; aLeadTau : Q;
  status : bool; fcw : bool; modelProb : Q;
  radar : bool; radarTrackId : Z;
  aRel : Q; vLat : Q
}.

(** [{'status': False}] *)
Definition none : t :=
  {| dRel := 0; yRel := 0; vRel := 0; vLead := 0; vLeadK := 0; aLeadK := 0;
     aLeadTau := 0; status := false; fcw := false; modelProb := 0;
     radar := false; radarTrackId := 0; aRel := 0; vLat := 0 |}.
End Lead.

(** ** [Track] *)

Module Track.
(** The attributes [yRel], [aRel], [vLead], [measured], [vLeadK] and
    [aLeadK] do not exist before the first [update]; [init] holds zero in
    them, and [RadarD.update] never reads a Track before updating it.  The
    attribute [vision_prob] is only ever written (its one reader,
    [get_leads], is never called) and is left out. *)
Record t : Set := mk {
  identifier : Z;
  cnt : nat;
  aLeadTau : Q;
  K_A : (Q * Q) * (Q * Q);
  K_C : Q * Q;
  K_K : Q * Q;
  kf : KF1D.t;
  kf_y : KF1D.t;
  dRel : Q; yRel : Q; vRel : Q; aRel : Q;
  vLead : Q;
  measured : bool;
  vLat : Q;
  vLeadK : Q; aLeadK : Q;
  radar_ts : Q
}.

(** [Track(identifier, v_lead, y_rel, kalman_params, radar_ts)] *)
Definition init (identifier : Z) (v_lead y_rel : Q) (kalman_params : KalmanParams.t)
    (radar_ts : Q) : t :=
  let A := KalmanParams.A kalman_params in
  let C := KalmanParams.C kalman_params in
  let K := KalmanParams.K kalman_params in
  {| identifier := identifier; cnt := 0; aLeadTau := _LEAD_ACCEL_TAU;
     K_A := A; K_C := C; K_K := K;
     kf := KF1D.init v_lead 0 A C K;
     kf_y := KF1D.init y_rel 0 A C K;
     dRel := 0; yRel := 0; vRel := 0; aRel := 0; vLead := 0; measured := false;
     vLat := 0; vLeadK := 0; aLeadK := 0;
     radar_ts := radar_ts |}.

(** The test that opens [update]: the radar changed target. *)
Definition discontinuity (self : t) (d_rel v_rel : Q) : bool :=
  Qltb 3.0 (Qabs (dRel self - d_rel))
  || Qltb (20.0 * radar_ts self) (Qabs (vRel self - v_rel)).

(** Lines 74-77: on a discontinuity, [cnt = 0] and both filters are built
    anew from the measurement. *)
Definition reseed (self : t) (d_rel y_rel v_rel v_lead : Q) : t :=
  if discontinuity self d_rel v_rel then
    {| identifier := identifier self; cnt := 0; aLeadTau := aLeadTau self;
       K_A := K_A self; K_C := K_C self; K_K := K_K self;
       kf := KF1D.init v_lead 0 (K_A self) (K_C self) (K_K self);
       kf_y := KF1D.init y_rel 0 (K_A self) (K_C self) (K_K self);
       dRel := dRel self; yRel := yRel self; vRel := vRel self; aRel := aRel self;
       vLead := vLead self; measured := measured self;
       vLat := vLat self; vLeadK := vLeadK self; aLeadK := aLeadK self;
       radar_ts := radar_ts self |}
  else self.

(** Lines 79-89: the raw fields are copied, then each filter takes one
    correction step unless [cnt] is 0. *)
Definition measure (self : t) (d_rel y_rel v_rel v_lead : Q) (measured' : bool)
    (a_rel : Q) : t :=
  let corrected := (0 <? cnt self)%nat in
  {| identifier := identifier self; cnt := cnt self; aLeadTau := aLeadTau self;
     K_A := K_A self; K_C := K_C self; K_K := K_K self;
     kf := if corrected then KF1D.update (kf self) v_lead else kf self;
     kf_y := if corrected then KF1D.update (kf_y self) y_rel else kf_y self;
     dRel := d_rel; yRel := y_rel; vRel := v_rel; aRel := a_rel;
     vLead := v_lead; measured := measured';
     vLat := vLat self; vLeadK := vLeadK self; aLeadK := aLeadK self;
     radar_ts := radar_ts self |}.

(** Lines 91-112: the filtered values are read back, [aLeadTau] adapts and
    [cnt] is incremented. *)
Definition derive (self : t) (aLeadTau' aLeadTauStart : Q) : t :=
  let aLeadK' := KF1D.x1_0 (kf self) in
  {| identifier := identifier self; cnt := S (cnt self);
     aLeadTau := if Qltb (Qabs aLeadK') aLeadTauStart then aLeadTau'
                 else aLeadTau self * 0.9;
     K_A := K_A self; K_C := K_C self; K_K := K_K self;
     kf := kf self; kf_y := kf_y self;
     dRel := dRel self; yRel := yRel self; vRel := vRel self; aRel := aRel self;
     vLead := vLead self; measured := measured self;
     vLat := KF1D.x1_0 (kf_y self);
     vLeadK := KF1D.x0_0 (kf self); aLeadK := aLeadK';
     radar_ts := radar_ts self |}.

(** [self.update(d_rel, y_rel, v_rel, v_lead, measured, a_rel, aLeadTau,
    aLeadTauStart, a_ego)] *)
Definition update (self : t) (d_rel y_rel v_rel v_lead : Q) (measured' : bool)
    (a_rel aLeadTau' aLeadTauStart a_ego : Q) : t :=
  derive (measure (reseed self d_rel y_rel v_rel v_lead)
                  d_rel y_rel v_rel v_lead measured' a_rel)
         aLeadTau' aLeadTauStart.

Definition get_key_for_cluster (self : t) : list Q :=
  [dRel self; yRel self * 2; vRel self].

Definition is_potential_fcw (self : t) (model_prob : Q) : bool :=
  Qltb 0.9 model_prob.

Definition get_RadarState (self : t) (model_prob : Q) : Lead.t :=
  {| Lead.dRel := dRel self;
     Lead.yRel := yRel self;
     Lead.vRel := vRel self;
     Lead.vLead := vLead self;
     Lead.vLeadK := vLeadK self;
     Lead.aLeadK := aLeadK self;
     Lead.aLeadTau := aLeadTau self;
     Lead.status := true;
     Lead.fcw := is_potential_fcw self model_prob;
     Lead.modelProb := model_prob;
     Lead.radar := true;
     Lead.radarTrackId := identifier self;
     Lead.aRel := aRel self;
     Lead.vLat := vLat self |}.

Definition get_RadarState2 (self : t) (model_prob : Q) (lead_msg : LeadMsg.t) : Lead.t :=
  {| Lead.dRel := dRel self;
     Lead.yRel := if negb (Qeq_bool (yRel self) 0) then yRel self
                  else - LeadMsg.y lead_msg;
     Lead.vRel := vRel self;
     Lead.vLead := vLead self;
     Lead.vLeadK := vLeadK self;
     Lead.aLeadK := aLeadK self;
     Lead.aLeadTau := aLeadTau self;
     Lead.status := true;
     Lead.fcw := is_potential_fcw self model_prob;
     Lead.modelProb := model_prob;
     Lead.radar := true;
     Lead.radarTrackId := identifier self;
     Lead.aRel := aRel self;
     Lead.vLat := vLat self |}.

Inductive lane_position : Set := left | right | front.

Definition get_lane_position (self : t) : lane_position :=
  if Qltb 0 (yRel self) && Qltb 5.0 (vRel self) then left
  else if Qltb (yRel self) 0 && Qltb 5.0 (vRel self) then right
  else front.

Definition potential_low_speed_lead (self : t) (v_ego : Q) : bool :=
  Qltb (Qabs (yRel self)) 1.0 && Qltb v_ego V_EGO_STATIONARY
  && (Qltb 0.75 (dRel self) && Qltb (dRel self) 25).
End Track.

Definition Tracks : Set := list (Z * Track.t).

(** ** Association and lead selection

    Two names of other modules are parameters of everything below:
    [math.exp], which rationals cannot compute, and [TRAJECTORY_SIZE] of
    [selfdrive.controls.lib.lateral_planner].

    The module-level [global_vision_aLeadTau] is threaded explicitly: a
    function that declares it [global] takes its value as last argument and
    returns the new value beside its result. *)

(** Line 227: the value the module starts with. *)
Definition global_vision_aLeadTau_init : Q := 1.5.

Section Core.
Variable exp : Q -> Q.
Variable TRAJECTORY_SIZE : nat.

Definition laplacian_pdf (x mu b : Q) : Q :=
  let b := Qmax b 0.0001 in
  exp (- Qabs (x - mu) / b).

(** The key function [prob] of [match_vision_to_track]. *)
Definition vision_score (v_ego : Q) (lead : LeadMsg.t) (c : Track.t) : Q :=
  let offset_vision_dist := LeadMsg.x lead - RADAR_TO_CAMERA in
  let prob_d := laplacian_pdf (Track.dRel c) offset_vision_dist (LeadMsg.xStd lead) in
  let prob_y := laplacian_pdf (Track.yRel c + Track.vLat c * 2.0) (- LeadMsg.y lead)
                              (LeadMsg.yStd lead) in
  let prob_v := laplacian_pdf (Track.vRel c + v_ego) (LeadMsg.v lead) (LeadMsg.vStd lead) in
  let weight_v := interp (Track.vRel c + v_ego) [0; 10] [0.3; 1] in
  prob_d * prob_y * prob_v * weight_v.

(** The three tests on the best-scoring Track (lines 217-221). *)
Definition dist_sane (lead : LeadMsg.t) (track : Track.t) : bool :=
  let offset_vision_dist := LeadMsg.x lead - RADAR_TO_CAMERA in
  Qltb (Qabs (Track.dRel track - offset_vision_dist)) (Qmax (offset_vision_dist * 0.35) 5.0).

Definition vel_sane (v_ego : Q) (lead : LeadMsg.t) (track : Track.t) : bool :=
  let vel_tolerance := if Qltb 0.85 (LeadMsg.prob lead) then 20.0 else 10 in
  Qltb (Qabs (Track.vRel track + v_ego - LeadMsg.v lead)) vel_tolerance
  || Qltb 3 (v_ego + Track.vRel track).

Definition y_sane (lead : LeadMsg.t) (track : Track.t) : bool :=
  Qltb (Qabs (- LeadMsg.y lead - Track.yRel track)) (3.2 / 2).

(** [max] over an empty dict raises [ValueError]. *)
Definition match_vision_to_track (v_ego : Q) (lead : LeadMsg.t) (tracks : Tracks)
    : result (option Track.t) :=
  match max_by (fun item => vision_score v_ego lead (snd item)) tracks with
  | None => Raise ValueError
  | Some (track_key, track) =>
      if dist_sane lead track && vel_sane v_ego lead track && y_sane lead track
      then Ok (Some track)
      else Ok None
  end.

(** Lines 231-232: [if global_vision_aLeadTau > 0.3: global_vision_aLeadTau *= 0.9]. *)
Definition decay (g : Q) : Q := if Qltb 0.3 g then g * 0.9 else g.

Definition get_RadarState_from_vision (lead_msg : LeadMsg.t) (v_ego model_v_ego : Q)
    (global_vision_aLeadTau : Q) : Lead.t * Q :=
  let global_vision_aLeadTau := decay global_vision_aLeadTau in
  let lead_v_rel_pred := LeadMsg.v lead_msg - model_v_ego in
  ({| Lead.dRel := LeadMsg.x lead_msg - RADAR_TO_CAMERA;
      Lead.yRel := - LeadMsg.y lead_msg;
      Lead.vRel := lead_v_rel_pred;
      Lead.vLead := v_ego + lead_v_rel_pred;
      Lead.vLeadK := v_ego + lead_v_rel_pred;
      Lead.aLeadK := LeadMsg.a lead_msg;
      Lead.aLeadTau := global_vision_aLeadTau;
      Lead.fcw := false;
      Lead.modelProb := LeadMsg.prob lead_msg;
      Lead.status := true;
      Lead.radar := false;
      Lead.radarTrackId := (-1)%Z;
      Lead.aRel := 0; Lead.vLat := 0 |},
   global_vision_aLeadTau).

(** Lines 268-273 of [get_lead]: the SCC Track (id 0) stands in when the
    match found none, unless vision sees a lead more than 5 m closer. *)
Definition scc_fallback (lead_msg : LeadMsg.t) (track_scc track : option Track.t)
    : option Track.t :=
  match track_scc, track with
  | Some scc, None =>
      if Qltb 0.5 (LeadMsg.prob lead_msg)
         && Qltb (LeadMsg.x lead_msg - RADAR_TO_CAMERA) (Track.dRel scc - 5.0)
      then None
      else Some scc
  | _, _ => track
  end.

(** Lines 282-289 of [get_lead]. *)
Definition low_speed_lead (v_ego : Q) (tracks : Tracks) (lead_msg : LeadMsg.t)
    (lead_dict : Lead.t) : Lead.t :=
  let low_speed_tracks :=
    filter (fun c => Track.potential_low_speed_lead c v_ego) (values tracks) in
  match min_by Track.dRel low_speed_tracks with
  | None => lead_dict
  | Some closest_track =>
      if negb (Lead.status lead_dict) || Qltb (Track.dRel closest_track) (Lead.dRel lead_dict)
      then Track.get_RadarState2 closest_track (LeadMsg.prob lead_msg) lead_msg
      else lead_dict
  end.

(** Lines 255-273 of [get_lead]: the Track the lead is projected from. *)
Definition get_lead_track (v_ego : Q) (ready : bool) (tracks : Tracks) (lead_msg : LeadMsg.t)
    : result (option Track.t) :=
  let track_scc := dict_get Z.eqb 0%Z tracks in
  track <- (if (0 <? length tracks)%nat && ready && Qltb 0.5 (LeadMsg.prob lead_msg)
            then match_vision_to_track v_ego lead_msg tracks
            else Ok None) ;;
  Ok (scc_fallback lead_msg track_scc track).

Definition get_lead (v_ego : Q) (ready : bool) (tracks : Tracks) (lead_msg : LeadMsg.t)
    (model_v_ego : Q) (low_speed_override : bool) (global_vision_aLeadTau : Q)
    : result (Lead.t * Q) :=
  track <- get_lead_track v_ego ready tracks lead_msg ;;
  let '(lead_dict, global_vision_aLeadTau) :=
    match track with
    | Some track =>
        (Track.get_RadarState2 track (LeadMsg.prob lead_msg) lead_msg, _LEAD_ACCEL_TAU)
    | None =>
        if ready && Qltb 0.5 (LeadMsg.prob lead_msg)
        then get_RadarState_from_vision lead_msg v_ego model_v_ego global_vision_aLeadTau
        else (Lead.none, global_vision_aLeadTau)
    end in
  let lead_dict :=
    if low_speed_override then low_speed_lead v_ego tracks lead_msg lead_dict
    else lead_dict in
  Ok (lead_dict, global_vision_aLeadTau).

(** *** [get_lead_side] *)

Inductive side : Set := Center | Left | Right | Outside.

(** The [if]/[elif] chain of lines 326-334 on [d_y]. *)
Definition side_of (lane_width d_y : Q) : side :=
  let next_lane_y := lane_width / 2 + lane_width * 0.8 in
  if Qltb (Qabs d_y) (lane_width / 2) then Center
  else if Qltb (- next_lane_y) d_y && Qltb d_y 0 then Left
  else if Qltb 0 d_y && Qltb d_y next_lane_y then Right
  else Outside.

Definition side_d_y (md : ModelV2.t) (c : Track.t) : Q :=
  - Track.yRel c - interp (Track.dRel c) (ModelV2.position_x md) (ModelV2.position_y md).

Definition LeadsByDist : Set := list (Q * Lead.t).

(** One turn of the loop over [tracks.values()]; the three dicts are keyed by
    [dRel]. *)
Definition side_step (md : ModelV2.t) (lane_width : Q) (lead_msg : LeadMsg.t)
    (acc : LeadsByDist * LeadsByDist * LeadsByDist) (c : Track.t)
    : LeadsByDist * LeadsByDist * LeadsByDist :=
  let '(leads_center, leads_left, leads_right) := acc in
  match side_of lane_width (side_d_y md c) with
  | Center =>
      (dict_set Qeq_bool (Track.dRel c)
         (Track.get_RadarState2 c (LeadMsg.prob lead_msg) lead_msg) leads_center,
       leads_left, leads_right)
  | Left =>
      (leads_center,
       dict_set Qeq_bool (Track.dRel c) (Track.get_RadarState c 0.0) leads_left,
       leads_right)
  | Right =>
      (leads_center, leads_left,
       dict_set Qeq_bool (Track.dRel c) (Track.get_RadarState c 0.0) leads_right)
  | Outside => acc
  end.

(** [min((lead for dRel, lead in leads.items() if lead['dRel'] > 5.0),
         key=lambda x: x['dRel'], default={'status': False})] *)
Definition nearest_beyond_5 (leads : LeadsByDist) : Lead.t :=
  match min_by Lead.dRel (filter (fun lead => Qltb 5.0 (Lead.dRel lead)) (values leads)) with
  | Some lead => lead
  | None => Lead.none
  end.

Record SideLeads : Set := mkSideLeads {
  ll : list Lead.t;
  lc : list Lead.t;
  lr : list Lead.t;
  leadLeft : Lead.t;
  leadRight : Lead.t
}.

(** [md.leadsV3[0]] raises [IndexError] on an empty list. *)
Definition get_lead_side (v_ego : Q) (tracks : Tracks) (md : ModelV2.t)
    (lane_width model_v_ego : Q) (global_vision_aLeadTau : Q) : result (SideLeads * Q) :=
  match ModelV2.leadsV3 md with
  | [] => Raise IndexError
  | lead_msg :: _ =>
      if (length (ModelV2.position_x md) =? TRAJECTORY_SIZE)%nat then
        let '(leads_center, leads_left, leads_right) :=
          fold_left (side_step md lane_width lead_msg) (values tracks) ([], [], []) in
        let '(leads_center, global_vision_aLeadTau) :=
          if Qltb 0.5 (LeadMsg.prob lead_msg) then
            let '(ld, g) := get_RadarState_from_vision lead_msg v_ego model_v_ego
                                                       global_vision_aLeadTau in
            (dict_set Qeq_bool (Lead.dRel ld) ld leads_center, g)
          else (leads_center, global_vision_aLeadTau) in
        let lc :=
          match min_by (fun k => k) (keys leads_center) with
          | Some dRel_min =>
              match dict_get Qeq_bool dRel_min leads_center with
              | Some ld => [ld]
              | None => []
              end
          | None => []
          end in
        Ok ({| ll := values leads_left; lc := lc; lr := values leads_right;
               leadLeft := nearest_beyond_5 leads_left;
               leadRight := nearest_beyond_5 leads_right |},
            global_vision_aLeadTau)
      else
        Ok ({| ll := []; lc := []; lr := [];
               leadLeft := Lead.none; leadRight := Lead.none |},
            global_vision_aLeadTau)
  end.

(** *** The corridor strategy *)

(** [d_y] and [lw] of the bucketing loop (lines 385-387). *)
Definition corridor_d_y (md : ModelV2.t) (c : Track.t) : Q :=
  let lp_y := interp (Track.dRel c + Track.vLat c)
                     (ModelV2.position_x md) (ModelV2.position_y md) in
  - Track.yRel c - lp_y.

Definition corridor_lw (lane_width : Q) (c : Track.t) : Q :=
  interp (Track.dRel c) [0; 10; 100] [1.5; lane_width; lane_width * 0.6].

(** The [if]/[elif]/[else] of lines 388-393. *)
Definition corridor_of (md : ModelV2.t) (lane_width : Q) (c : Track.t) : side :=
  let d_y := corridor_d_y md c in
  let lw := corridor_lw lane_width c in
  if Qltb (Qabs d_y) (lw / 2) then Center
  else if Qltb d_y 0 then Left
  else Right.

Definition is_side (s : side) (md : ModelV2.t) (lane_width : Q) (item : Z * Track.t) : bool :=
  match corridor_of md lane_width (snd item), s with
  | Center, Center | Left, Left | Right, Right => true
  | _, _ => false
  end.

(** The keys of [tracks] are distinct, so each of the three dicts filled by
    the loop is the sub-dict of [tracks] with the items of its bucket, in
    order. *)
Definition tracks_center (md : ModelV2.t) (lane_width : Q) (tracks : Tracks) : Tracks :=
  filter (is_side Center md lane_width) tracks.
Definition tracks_left (md : ModelV2.t) (lane_width : Q) (tracks : Tracks) : Tracks :=
  filter (is_side Left md lane_width) tracks.
Definition tracks_right (md : ModelV2.t) (lane_width : Q) (tracks : Tracks) : Tracks :=
  filter (is_side Right md lane_width) tracks.

(** [tracks[min(tracks, key=lambda id: tracks[id].dRel)]] and its [max]
    counterpart on [vRel], [None] standing for an empty (falsy) dict. *)
Definition nearest (tracks : Tracks) : option Track.t :=
  option_map snd (min_by (fun item => Track.dRel (snd item)) tracks).
Definition fastest (tracks : Tracks) : option Track.t :=
  option_map snd (max_by (fun item => Track.vRel (snd item)) tracks).

Definition match_vision_track_apilot (v_ego : Q) (lead_msg : LeadMsg.t) (tracks : Tracks)
    (md : ModelV2.t) (lane_width : Q) : option Track.t :=
  let offset_vision_dist := LeadMsg.x lead_msg - RADAR_TO_CAMERA in
  let track_scc := dict_get Z.eqb 0%Z tracks in
  if (0 <? length tracks)%nat then
    if (length (ModelV2.position_x md) =? TRAJECTORY_SIZE)%nat then
      let tracks_center := tracks_center md lane_width tracks in
      if Qltb 0.5 (LeadMsg.prob lead_msg) then
        let tracks_match :=
          filter (fun item => dist_sane lead_msg (snd item)
                    && Qltb (Qabs (Track.vRel (snd item) + v_ego - LeadMsg.v lead_msg)) 10)
                 tracks_center in
        match nearest tracks_match with
        | Some track => Some track
        | None =>
            let tracks_match :=
              filter (fun item => dist_sane lead_msg (snd item)
                        && Qltb (-0.5) (Track.vRel (snd item) + v_ego))
                     tracks_center in
            match fastest tracks_match with
            | Some track => Some track
            | None =>
                match track_scc with
                | Some scc =>
                    if Qltb (Track.dRel scc - 5.0) offset_vision_dist then None
                    else Some scc
                | None => None
                end
            end
        end
      else
        let tracks_fast :=
          filter (fun item => Qltb 3.0 (Track.vRel (snd item) + v_ego)) tracks_center in
        match nearest tracks_fast with
        | Some track => Some track
        | None => track_scc
        end
    else track_scc
  else track_scc.

Definition get_lead_apilot (v_ego : Q) (ready : bool) (tracks : Tracks)
    (lead_msg : LeadMsg.t) (model_v_ego : Q) (md : ModelV2.t) (lane_width : Q)
    (global_vision_aLeadTau : Q) : Lead.t * Q :=
  let track :=
    if (0 <? length tracks)%nat && ready
    then match_vision_track_apilot v_ego lead_msg tracks md lane_width
    else None in
  match track with
  | Some track =>
      (Track.get_RadarState2 track (LeadMsg.prob lead_msg) lead_msg, _LEAD_ACCEL_TAU)
  | None =>
      if Qltb 0.5 (LeadMsg.prob lead_msg)
      then get_RadarState_from_vision lead_msg v_ego model_v_ego global_vision_aLeadTau
      else (Lead.none, global_vision_aLeadTau)
  end.

End Core.

(** ** [RadarD] *)

(** What one cycle reads from outside: the live tunables ([Params]), the
    subscribed messages ([sm]) and the radar interface's result ([rr]). *)
Record Params : Set := mkParams {
  MixRadarInfo : Z;
  ALeadTau : Z;
  ALeadTauStart : Z
}.

Record SubMaster : Set := mkSubMaster {
  updated_carState : bool;
  updated_modelV2 : bool;
  carState_vEgo : Q;
  carState_aEgo : Q;
  modelV2 : ModelV2.t;
  lateralPlan_laneWidth : Q;
  logMonoTime_modelV2 : Z;
  logMonoTime_carState : Z;
  logMonoTime_lateralPlan : Z;
  all_checks : bool
}.

Record RadarData : Set := mkRadarData {
  points : list RadarPoint.t;
  errors : list Z
}.

(** [log.RadarState]; [new_message ()] holds the defaults. *)
Module RadarState.
Record t : Set := mk {
  mdMonoTime : Z;
  radarErrors : list Z;
  carStateMonoTime : Z;
  leadOne : Lead.t;
  leadTwo : Lead.t;
  leadLeft : Lead.t;
  leadRight : Lead.t;
  leadsLeft : list Lead.t;
  leadsCenter : list Lead.t;
  leadsRight : list Lead.t
}.

Definition new_message : t :=
  {| mdMonoTime := 0; radarErrors := []; carStateMonoTime := 0;
     leadOne := Lead.none; leadTwo := Lead.none;
     leadLeft := Lead.none; leadRight := Lead.none;
     leadsLeft := []; leadsCenter := []; leadsRight := [] |}.
End RadarState.

Module RadarD.
(** [v_ego_hist] is a [deque] of at most [maxlen] values, oldest first. *)
Record t : Set := mk {
  current_time : Q;
  tracks : Tracks;
  kalman_params : KalmanParams.t;
  v_ego : Q;
  v_ego_hist : list Q;
  maxlen : nat;
  radar_state : option RadarState.t;
  radar_state_valid : bool;
  ready : bool;
  mixRadarInfo : Z;
  aLeadTau : Q;
  aLeadTauStart : Q;
  a_ego : Q;
  radar_ts : Q
}.

Definition deque_append (maxlen : nat) (hist : list Q) (x : Q) : list Q :=
  let hist := hist ++ [x] in
  skipn (length hist - maxlen) hist.

(** [RadarD(radar_ts, delay)] *)
Definition init (radar_ts : Q) (delay : nat) : result t :=
  kalman_params <- KalmanParams.init radar_ts ;;
  Ok {| current_time := 0; tracks := []; kalman_params := kalman_params;
        v_ego := 0; v_ego_hist := [0]; maxlen := delay + 1;
        radar_state := None; radar_state_valid := false;
        ready := false; mixRadarInfo := 0%Z;
        aLeadTau := 1.5; aLeadTauStart := 0.5; a_ego := 0;
        radar_ts := radar_ts |}.

(** Lines 489-491: [ar_pts], keyed by [trackId]; a later point of the same id
    replaces the earlier one. *)
Definition ar_pts_of (radar_points : list RadarPoint.t) : list (Z * RadarPoint.t) :=
  fold_left (fun ar_pts pt => dict_set Z.eqb (RadarPoint.trackId pt) pt ar_pts)
            radar_points [].

(** Lines 494-496: Tracks whose id is not in [ar_pts] are removed. *)
Definition remove_missing (ar_pts : list (Z * RadarPoint.t)) (tracks : Tracks) : Tracks :=
  fold_left (fun tracks ids => if dict_mem Z.eqb ids ar_pts then tracks
                               else dict_pop Z.eqb ids tracks)
            (keys tracks) tracks.

(** Lines 500-508, one turn: the Track of [ids] is created when absent, then
    updated in place. *)
Definition compute_track (self : t) (tracks : Tracks) (item : Z * RadarPoint.t) : Tracks :=
  let '(ids, rpt) := item in
  let v_lead := RadarPoint.vRel rpt + hd 0 (v_ego_hist self) in
  let track :=
    match dict_get Z.eqb ids tracks with
    | Some track => track
    | None => Track.init ids v_lead (RadarPoint.yRel rpt) (kalman_params self) (radar_ts self)
    end in
  dict_set Z.eqb ids
    (Track.update track (RadarPoint.dRel rpt) (RadarPoint.yRel rpt) (RadarPoint.vRel rpt)
                  v_lead (RadarPoint.measured rpt) (RadarPoint.aRel rpt)
                  (aLeadTau self) (aLeadTauStart self) (a_ego self))
    tracks.

(** Lines 476-480: [rr is None] reads as no point. *)
Definition radar_points (rr : option RadarData) : list RadarPoint.t :=
  match rr with Some rr => points rr | None => [] end.

(** Lines 489-508: the Track set is refreshed from this cycle's radar points. *)
Definition update_tracks (self : t) (rr : option RadarData) : Tracks :=
  let ar_pts := ar_pts_of (radar_points rr) in
  fold_left (compute_track self) ar_pts (remove_missing ar_pts (tracks self)).

(** Lines 517-534: primary, secondary and side leads. *)
Definition select_leads (exp : Q -> Q) (TRAJECTORY_SIZE : nat)
    (self : t) (sm : SubMaster) (rs : RadarState.t)
    (global_vision_aLeadTau : Q) : result (RadarState.t * Q) :=
  let md := modelV2 sm in
  let model_v_ego :=
    match ModelV2.temporalPose_trans md with
    | trans0 :: _ => trans0
    | [] => v_ego self
    end in
  match ModelV2.leadsV3 md with
  | lead0 :: lead1 :: _ =>
      '(one, g) <-
        (if (mixRadarInfo self =? 2)%Z
         then Ok (get_lead_apilot TRAJECTORY_SIZE
                                  (v_ego self) (ready self) (tracks self) lead0 model_v_ego
                                  md (lateralPlan_laneWidth sm) global_vision_aLeadTau)
         else get_lead exp (v_ego self) (ready self) (tracks self) lead0 model_v_ego false
                       global_vision_aLeadTau) ;;
      '(two, g) <-
        (if (mixRadarInfo self =? 2)%Z
         then Ok (get_lead_apilot TRAJECTORY_SIZE
                                  (v_ego self) (ready self) (tracks self) lead1 model_v_ego
                                  md (lateralPlan_laneWidth sm) g)
         else get_lead exp (v_ego self) (ready self) (tracks self) lead1 model_v_ego false g) ;;
      '(sides, g) <-
        get_lead_side TRAJECTORY_SIZE
                      (v_ego self) (tracks self) md (lateralPlan_laneWidth sm) model_v_ego g ;;
      Ok ({| RadarState.mdMonoTime := RadarState.mdMonoTime rs;
             RadarState.radarErrors := RadarState.radarErrors rs;
             RadarState.carStateMonoTime := RadarState.carStateMonoTime rs;
             RadarState.leadOne := one; RadarState.leadTwo := two;
             RadarState.leadLeft := leadLeft sides; RadarState.leadRight := leadRight sides;
             RadarState.leadsLeft := ll sides; RadarState.leadsCenter := lc sides;
             RadarState.leadsRight := lr sides |}, g)
  | _ => Ok (rs, global_vision_aLeadTau)
  end.

(** [self.update(sm, rr)] *)
Definition update (exp : Q -> Q) (TRAJECTORY_SIZE : nat)
    (self : t) (params : Params) (sm : SubMaster) (rr : option RadarData)
    (global_vision_aLeadTau : Q) : result (t * Q) :=
  let radar_errors := match rr with Some rr => errors rr | None => [] end in
  let carState := updated_carState sm in
  let self :=
    {| current_time :=
         (1 / 1000000000)
         * inject_Z (Z.max (logMonoTime_modelV2 sm)
                           (Z.max (logMonoTime_carState sm) (logMonoTime_lateralPlan sm)));
       tracks := tracks self;
       kalman_params := kalman_params self;
       v_ego := if carState then carState_vEgo sm else v_ego self;
       v_ego_hist := if carState then deque_append (maxlen self) (v_ego_hist self)
                                                   (carState_vEgo sm)
                     else v_ego_hist self;
       maxlen := maxlen self;
       radar_state := radar_state self;
       radar_state_valid := radar_state_valid self;
       ready := if updated_modelV2 sm then true else ready self;
       mixRadarInfo := MixRadarInfo params;
       aLeadTau := inject_Z (ALeadTau params) / 100;
       aLeadTauStart := inject_Z (ALeadTauStart params) / 100;
       a_ego := if carState then carState_aEgo sm else a_ego self;
       radar_ts := radar_ts self |} in
  let tracks' := update_tracks self rr in
  let self :=
    {| current_time := current_time self; tracks := tracks';
       kalman_params := kalman_params self; v_ego := v_ego self;
       v_ego_hist := v_ego_hist self; maxlen := maxlen self;
       radar_state := radar_state self;
       radar_state_valid := all_checks sm && (length radar_errors =? 0)%nat;
       ready := ready self; mixRadarInfo := mixRadarInfo self;
       aLeadTau := aLeadTau self; aLeadTauStart := aLeadTauStart self;
       a_ego := a_ego self; radar_ts := radar_ts self |} in
  let rs :=
    {| RadarState.mdMonoTime := logMonoTime_modelV2 sm;
       RadarState.radarErrors := radar_errors;
       RadarState.carStateMonoTime := logMonoTime_carState sm;
       RadarState.leadOne := RadarState.leadOne RadarState.new_message;
       RadarState.leadTwo := RadarState.leadTwo RadarState.new_message;
       RadarState.leadLeft := RadarState.leadLeft RadarState.new_message;
       RadarState.leadRight := RadarState.leadRight RadarState.new_message;
       RadarState.leadsLeft := []; RadarState.leadsCenter := [];
       RadarState.leadsRight := [] |} in
  '(rs, g) <- select_leads exp TRAJECTORY_SIZE self sm rs global_vision_aLeadTau ;;
  Ok ({| current_time := current_time self; tracks := tracks self;
         kalman_params := kalman_params self; v_ego := v_ego self;
         v_ego_hist := v_ego_hist self; maxlen := maxlen self;
         radar_state := Some rs;
         radar_state_valid := radar_state_valid self;
         ready := ready self; mixRadarInfo := mixRadarInfo self;
         aLeadTau := aLeadTau self; aLeadTauStart := aLeadTauStart self;
         a_ego := a_ego self; radar_ts := radar_ts self |}, g).
End RadarD.

(** ** [RadarD.publish] and the loop of [radard_thread] *)

(** One entry of the [liveTracks] message. *)
Module LiveTrack.
Record t : Set := mk {
  trackId : Z;
  dRel : Q; yRel : Q; vRel : Q; aRel : Q; vLat : Q
}.
End LiveTrack.

(** [sorted(keys)] on integers: the ascending list of the same elements. *)
Fixpoint insert_sorted (k : Z) (l : list Z) : list Z :=
  match l with
  | [] => [k]
  | x :: l' => if (k <? x)%Z then k :: l else x :: insert_sorted k l'
  end.

Definition sorted (l : list Z) : list Z := fold_right insert_sorted [] l.

(** The two messages [publish] sends.  [cumLagMs] is a field of the
    [radarState] struct that only [publish] sets; it stands beside it. *)
Record RadarStateMsg : Set := mkRadarStateMsg {
  radarState_valid : bool;
  radarState : RadarState.t;
  cumLagMs : Q
}.

Record LiveTracksMsg : Set := mkLiveTracksMsg {
  liveTracks_valid : bool;
  liveTracks : list LiveTrack.t
}.

(** [self.tracks[tid]] for a [tid] taken from [self.tracks.keys()]: such a
    key always has its Track. *)
Definition live_track (tracks : Tracks) (tid : Z) : list LiveTrack.t :=
  match dict_get Z.eqb tid tracks with
  | Some c =>
      [{| LiveTrack.trackId := tid;
          LiveTrack.dRel := Track.dRel c; LiveTrack.yRel := Track.yRel c;
          LiveTrack.vRel := Track.vRel c; LiveTrack.aRel := Track.aRel c;
          LiveTrack.vLat := Track.vLat c |}]
  | None => []
  end.

(** [self.publish(pm, lag_ms)]: the messages handed to [pm.send]; the
    [assert] raises when no cycle has run yet. *)
Definition publish (self : RadarD.t) (lag_ms : Q) : result (RadarStateMsg * LiveTracksMsg) :=
  match RadarD.radar_state self with
  | None => Raise AssertionError
  | Some radar_state =>
      Ok ({| radarState_valid := RadarD.radar_state_valid self;
             radarState := radar_state;
             cumLagMs := lag_ms |},
          {| liveTracks_valid := RadarD.radar_state_valid self;
             liveTracks := flat_map (live_track (RadarD.tracks self))
                                    (sorted (keys (RadarD.tracks self))) |})
  end.

(** One turn of the [while] loop of [radard_thread] (lines 587-599), given
    what its collaborators return in that turn: [rr] from the radar
    interface, the tunables, the messages after [sm.update(0)] and the rate
    keeper's [remaining].  A turn without radar data is skipped. *)
Definition radard_turn (exp : Q -> Q) (TRAJECTORY_SIZE : nat)
    (RD : RadarD.t) (global_vision_aLeadTau : Q)
    (rr : option RadarData) (params : Params) (sm : SubMaster) (remaining : Q)
    : result (RadarD.t * Q * option (RadarStateMsg * LiveTracksMsg)) :=
  match rr with
  | None => Ok (RD, global_vision_aLeadTau, None)
  | Some _ =>
      '(RD, g) <- RadarD.update exp TRAJECTORY_SIZE RD params sm rr
                                global_vision_aLeadTau ;;
      msgs <- publish RD (- remaining * 1000.0) ;;
      Ok (RD, g, Some msgs)
  end.

(** ** Sample inputs

    A radar at 20 Hz, a straight planned path of 33 points 5 m apart (33 is
    upstream's [TRAJECTORY_SIZE]), and Tracks as [RadarD.update] leaves them
    after the first radar point of their id. *)

Definition sample_kalman_params : KalmanParams.t :=
  {| KalmanParams.A := ((1, 0.05), (0, 1)); KalmanParams.C := (1, 0);
     KalmanParams.K := (0.1988689, 0.28555364) |}.

Definition sample_track (ids : Z) (d_rel y_rel v_rel v_ego : Q) : Track.t :=
  Track.update (Track.init ids (v_rel + v_ego) y_rel sample_kalman_params 0.05)
               d_rel y_rel v_rel (v_rel + v_ego) true 0 1.5 0.5 0.

(** A rational stand-in for [math.exp] where a closed term needs one:
    positive and increasing on the non-positive arguments that
    [laplacian_pdf] passes.  Every property below holds for any function in
    its place. *)
Definition sample_exp (x : Q) : Q := 1 / (1 - x).

Definition straight_path_x : list Q := map (fun i => inject_Z (Z.of_nat i) * 5) (seq 0 33).
Definition straight_path_y : list Q := repeat 0 33.

Definition sample_lead (x y v prob : Q) : LeadMsg.t :=
  {| LeadMsg.x := x; LeadMsg.y := y; LeadMsg.v := v; LeadMsg.a := 0;
     LeadMsg.xStd := 1; LeadMsg.yStd := 1; LeadMsg.vStd := 1; LeadMsg.prob := prob |}.

Definition sample_md (lead0 lead1 : LeadMsg.t) : ModelV2.t :=
  {| ModelV2.position_x := straight_path_x; ModelV2.position_y := straight_path_y;
     ModelV2.leadsV3 := [lead0; lead1]; ModelV2.temporalPose_trans := [] |}.

(** [RadarD] as [RadarD(0.05, 0)] builds it, the tunables at their defaults
    (in hundredths, as [Params] stores them), and a cycle's messages with
    fresh [carState] and [modelV2]. *)
Definition sample_radard : RadarD.t :=
  {| RadarD.current_time := 0; RadarD.tracks := [];
     RadarD.kalman_params := sample_kalman_params;
     RadarD.v_ego := 0; RadarD.v_ego_hist := [0]; RadarD.maxlen := 1;
     RadarD.radar_state := None; RadarD.radar_state_valid := false;
     RadarD.ready := false; RadarD.mixRadarInfo := 0%Z;
     RadarD.aLeadTau := 1.5; RadarD.aLeadTauStart := 0.5; RadarD.a_ego := 0;
     RadarD.radar_ts := 0.05 |}.

Definition sample_params (mix : Z) : Params :=
  {| MixRadarInfo := mix; ALeadTau := 150; ALeadTauStart := 50 |}.

Definition sample_sm (lead0 lead1 : LeadMsg.t) (v_ego : Q) : SubMaster :=
  {| updated_carState := true; updated_modelV2 := true;
     carState_vEgo := v_ego; carState_aEgo := 0;
     modelV2 := sample_md lead0 lead1; lateralPlan_laneWidth := 3.2;
     logMonoTime_modelV2 := 0; logMonoTime_carState := 0; logMonoTime_lateralPlan := 0;
     all_checks := true |}.

Definition sample_point (ids : Z) (d_rel y_rel v_rel : Q) : RadarPoint.t :=
  {| RadarPoint.trackId := ids; RadarPoint.dRel := d_rel; RadarPoint.yRel := y_rel;
     RadarPoint.vRel := v_rel; RadarPoint.aRel := 0; RadarPoint.measured := true |}.

(** ** Vocabulary of the properties *)

(** The sanity gate of [match_vision_to_track] on the best-scoring Track. *)
Definition gate (v_ego : Q) (lead : LeadMsg.t) (track : Track.t) : Prop :=
  let offset_vision_dist := LeadMsg.x lead - RADAR_TO_CAMERA in
  Qabs (Track.dRel track - offset_vision_dist) < Qmax (offset_vision_dist * 0.35) 5.0
  /\ (Qabs (Track.vRel track + v_ego - LeadMsg.v lead)
        < (if Qltb 0.85 (LeadMsg.prob lead) then 20.0 else 10)
      \/ 3 < v_ego + Track.vRel track)
  /\ Qabs (- LeadMsg.y lead - Track.yRel track) < 1.6.

(** One access of a lead-selection call to [global_vision_aLeadTau]: it is
    left alone, set to [_LEAD_ACCEL_TAU], or decayed once. *)
Inductive write : Set := Unchanged | ToBase | Decayed.

Definition written (w : write) (g : Q) : Q :=
  match w with
  | Unchanged => g
  | ToBase => _LEAD_ACCEL_TAU
  | Decayed => decay g
  end.

(** The write that goes with the lead a selection call publishes: a radar
    Track resets the state, a vision-only record decays it, no lead leaves
    it alone. *)
Definition write_of (ld : Lead.t) : write :=
  if Lead.radar ld then ToBase
  else if Lead.status ld then Decayed
  else Unchanged.

(** The test of [Track.potential_low_speed_lead]. *)
Definition low_speed_candidate (v_ego : Q) (c : Track.t) : Prop :=
  Qabs (Track.yRel c) < 1.0 /\ v_ego < 4 /\ 0.75 < Track.dRel c /\ Track.dRel c < 25.

(** A Track is a side candidate when its deviation [d_y] from the path is at
    least half a lane and less than [lane_width / 2 + lane_width * 0.8]
    (1.3 lanes) in size; negative deviations are on the left. *)
Definition side_candidate (lane_width d_y : Q) : Prop :=
  lane_width / 2 <= Qabs d_y /\ Qabs d_y < lane_width / 2 + lane_width * 0.8.

Definition left_candidate (md : ModelV2.t) (lane_width : Q) (c : Track.t) : Prop :=
  side_candidate lane_width (side_d_y md c) /\ side_d_y md c < 0.

Definition right_candidate (md : ModelV2.t) (lane_width : Q) (c : Track.t) : Prop :=
  side_candidate lane_width (side_d_y md c) /\ 0 < side_d_y md c.

(** [r] is the nearest record of [l] beyond 5 m, or no lead when [l] has
    none beyond 5 m. *)
Definition nearest_beyond (l : list Lead.t) (r : Lead.t) : Prop :=
  ((forall ld, In ld l -> ~ 5.0 < Lead.dRel ld) -> r = Lead.none)
  /\ (forall ld0, In ld0 l -> 5.0 < Lead.dRel ld0 ->
        In r l /\ 5.0 < Lead.dRel r
        /\ forall ld, In ld l -> 5.0 < Lead.dRel ld -> Lead.dRel r <= Lead.dRel ld).

(** What the three dicts of [get_lead_side] hold once the Tracks [done] have
    been through the loop. *)
Definition side_inv (md : ModelV2.t) (lane_width : Q) (lead_msg : LeadMsg.t)
    (done : list Track.t) (acc : LeadsByDist * LeadsByDist * LeadsByDist) : Prop :=
  let '(cen, lft, rgt) := acc in
  (forall k ld, In (k, ld) cen ->
     exists c, In c done
               /\ ld = Track.get_RadarState2 c (LeadMsg.prob lead_msg) lead_msg)
  /\ (forall k ld, In (k, ld) lft ->
        exists c, In c done /\ left_candidate md lane_width c
                  /\ k == Track.dRel c /\ ld = Track.get_RadarState c 0.0)
  /\ (forall k ld, In (k, ld) rgt ->
        exists c, In c done /\ right_candidate md lane_width c
                  /\ k == Track.dRel c /\ ld = Track.get_RadarState c 0.0)
  /\ (forall c, In c done -> left_candidate md lane_width c ->
        exists k, In k (keys lft) /\ k == Track.dRel c)
  /\ (forall c, In c done -> right_candidate md lane_width c ->
        exists k, In k (keys rgt) /\ k == Track.dRel c).

(** [c] is the last Track of [cs] with property [P] at its distance: no
    Track after it in [cs] has [P] and the same [dRel]. *)
Definition last_at_dRel (P : Track.t -> Prop) (cs : list Track.t) (c : Track.t) : Prop :=
  P c
  /\ exists pre post,
       cs = pre ++ c :: post
       /\ forall c', In c' post -> P c' -> ~ Track.dRel c' == Track.dRel c.

Definition same_dRel (a b : Lead.t) : Prop := Lead.dRel a == Lead.dRel b.

(** What a side dict of [get_lead_side] holds once the Tracks [done] have
    been through the loop, [P] being the test of that side: its keys are
    pairwise different distances, and each value is the record of the last
    Track of the side at the distance of its key. *)
Definition side_list_inv (P : Track.t -> Prop) (done : list Track.t) (d : LeadsByDist)
    : Prop :=
  NoDupA Qeq (keys d)
  /\ forall k ld, In (k, ld) d ->
       exists c, last_at_dRel P done c
                 /\ k == Track.dRel c /\ ld = Track.get_RadarState c 0.0.

(** The Track that a cycle leaves for the id of a radar point [rpt]: the
    previous Track of that id, or a new one, updated once by the point (the
    value [RadarD.compute_track] stores). *)
Definition cycle_track (self : RadarD.t) (tracks : Tracks) (ids : Z) (rpt : RadarPoint.t)
    : Track.t :=
  let v_lead := RadarPoint.vRel rpt + hd 0 (RadarD.v_ego_hist self) in
  Track.update
    match dict_get Z.eqb ids tracks with
    | Some track => track
    | None => Track.init ids v_lead (RadarPoint.yRel rpt) (RadarD.kalman_params self)
                         (RadarD.radar_ts self)
    end
    (RadarPoint.dRel rpt) (RadarPoint.yRel rpt) (RadarPoint.vRel rpt) v_lead
    (RadarPoint.measured rpt) (RadarPoint.aRel rpt)
    (RadarD.aLeadTau self) (RadarD.aLeadTauStart self) (RadarD.a_ego self).

(** The flags of a record returned for a vision lead of confidence [prob]:
    a forward-collision warning needs a radar Track and a confidence above
    0.9, a lead carries the confidence it was selected under, a vision-only
    lead has track id -1, and without a lead the record is the empty one. *)
Definition lead_flags (prob : Q) (ld : Lead.t) : Prop :=
  (Lead.fcw ld = true <-> Lead.radar ld = true /\ 0.9 < prob)
  /\ (Lead.status ld = true -> Lead.modelProb ld = prob)
  /\ (Lead.radar ld = true -> Lead.status ld = true)
  /\ (Lead.status ld = true -> Lead.radar ld = false -> Lead.radarTrackId ld = (-1)%Z)
  /\ (Lead.status ld = false -> ld = Lead.none).

(** The distance test shared by both strategies, and the three ways a center
    Track qualifies in the corridor strategy. *)
Definition dist_gate (lead : LeadMsg.t) (c : Track.t) : Prop :=
  let offset_vision_dist := LeadMsg.x lead - RADAR_TO_CAMERA in
  Qabs (Track.dRel c - offset_vision_dist) < Qmax (offset_vision_dist * 0.35) 5.0.

Definition speed_match (v_ego : Q) (lead : LeadMsg.t) (c : Track.t) : Prop :=
  dist_gate lead c /\ Qabs (Track.vRel c + v_ego - LeadMsg.v lead) < 10.

Definition not_receding (v_ego : Q) (lead : LeadMsg.t) (c : Track.t) : Prop :=
  dist_gate lead c /\ -0.5 < Track.vRel c + v_ego.

Definition moving (v_ego : Q) (c : Track.t) : Prop := 3.0 < Track.vRel c + v_ego.

(** What the center dict of [get_lead_side] holds once the Tracks [done] have
    been through the loop: every record sits under its own distance, and
    every center Track has its distance among the keys. *)
Definition center_inv (md : ModelV2.t) (lane_width : Q) (done : list Track.t)
    (cen : LeadsByDist) : Prop :=
  (forall k ld, In (k, ld) cen -> k == Lead.dRel ld)
  /\ (forall c, In c done -> Qabs (side_d_y md c) < lane_width / 2 ->
        exists k, In k (keys cen) /\ k == Track.dRel c).

(** * Properties *)

(** ** Comparisons *)

Lemma Qltb_lt (a b : Q) : Qltb a b = true <-> a < b.
Proof.
  unfold Qltb. rewrite negb_true_iff, <- not_true_iff_false, Qle_bool_iff.
  split; [apply Qnot_le_lt | apply Qlt_not_le].
Qed.

Lemma Qltb_ge (a b : Q) : Qltb a b = false <-> b <= a.
Proof.
  unfold Qltb. rewrite negb_false_iff. apply Qle_bool_iff.
Qed.

(** ** First extremal element of a list *)

Section ExtremumFacts.
Context {A : Type} (key : A -> Q).

Lemma min_from_In (xs : list A) : forall best, In (min_from key best xs) (best :: xs).
Proof.
  induction xs as [|x xs IH]; intro best; simpl.
  - now left.
  - destruct (IH (if Qltb (key x) (key best) then x else best)) as [H|H].
    + destruct (Qltb (key x) (key best)); [right; left | left]; exact H.
    + right; right; exact H.
Qed.

Lemma min_from_le_best (xs : list A) :
  forall best, key (min_from key best xs) <= key best.
Proof.
  induction xs as [|x xs IH]; intro best; simpl.
  - apply Qle_refl.
  - destruct (Qltb (key x) (key best)) eqn:E.
    + apply Qltb_lt in E. eapply Qle_trans; [apply IH | apply Qlt_le_weak, E].
    + apply IH.
Qed.

Lemma min_from_least (xs : list A) :
  forall best x, In x (best :: xs) -> key (min_from key best xs) <= key x.
Proof.
  induction xs as [|y xs IH]; intros best x Hin; simpl.
  - destruct Hin as [<-|[]]. apply Qle_refl.
  - destruct Hin as [<-|[<-|Hin]].
    + destruct (Qltb (key y) (key best)) eqn:E.
      * apply Qltb_lt in E.
        eapply Qle_trans; [apply min_from_le_best | apply Qlt_le_weak, E].
      * apply min_from_le_best.
    + destruct (Qltb (key y) (key best)) eqn:E.
      * apply min_from_le_best.
      * apply Qltb_ge in E. eapply Qle_trans; [apply min_from_le_best | exact E].
    + apply IH. now right.
Qed.

Lemma max_from_In (xs : list A) : forall best, In (max_from key best xs) (best :: xs).
Proof.
  induction xs as [|x xs IH]; intro best; simpl.
  - now left.
  - destruct (IH (if Qltb (key best) (key x) then x else best)) as [H|H].
    + destruct (Qltb (key best) (key x)); [right; left | left]; exact H.
    + right; right; exact H.
Qed.

Lemma max_from_ge_best (xs : list A) :
  forall best, key best <= key (max_from key best xs).
Proof.
  induction xs as [|x xs IH]; intro best; simpl.
  - apply Qle_refl.
  - destruct (Qltb (key best) (key x)) eqn:E.
    + apply Qltb_lt in E. eapply Qle_trans; [apply Qlt_le_weak, E | apply IH].
    + apply IH.
Qed.

Lemma max_from_greatest (xs : list A) :
  forall best x, In x (best :: xs) -> key x <= key (max_from key best xs).
Proof.
  induction xs as [|y xs IH]; intros best x Hin; simpl.
  - destruct Hin as [<-|[]]. apply Qle_refl.
  - destruct Hin as [<-|[<-|Hin]].
    + destruct (Qltb (key best) (key y)) eqn:E.
      * apply Qltb_lt in E.
        eapply Qle_trans; [apply Qlt_le_weak, E | apply max_from_ge_best].
      * apply max_from_ge_best.
    + destruct (Qltb (key best) (key y)) eqn:E.
      * apply max_from_ge_best.
      * apply Qltb_ge in E. eapply Qle_trans; [exact E | apply max_from_ge_best].
    + apply IH. now right.
Qed.

Lemma min_by_Some (xs : list A) (m : A) :
  min_by key xs = Some m -> In m xs /\ forall x, In x xs -> key m <= key x.
Proof.
  destruct xs as [|x xs]; simpl; [discriminate|].
  intros [= <-]. split; [apply min_from_In | apply min_from_least].
Qed.

Lemma min_by_None (xs : list A) : min_by key xs = None <-> xs = [].
Proof. destruct xs; simpl; split; congruence. Qed.

Lemma max_by_Some (xs : list A) (m : A) :
  max_by key xs = Some m -> In m xs /\ forall x, In x xs -> key x <= key m.
Proof.
  destruct xs as [|x xs]; simpl; [discriminate|].
  intros [= <-]. split; [apply max_from_In | apply max_from_greatest].
Qed.

Lemma max_by_nonempty (xs : list A) : xs <> [] -> exists m, max_by key xs = Some m.
Proof. destruct xs as [|x xs]; [congruence | intros _; simpl; eauto]. Qed.

Lemma min_by_nonempty (xs : list A) : xs <> [] -> exists m, min_by key xs = Some m.
Proof. destruct xs as [|x xs]; [congruence | intros _; simpl; eauto]. Qed.
End ExtremumFacts.

(** ** Dicts *)

Section DictFacts.
Context {K V : Type} (eqb : K -> K -> bool).
Hypothesis eqb_eq : forall a b, eqb a b = true <-> a = b.

Lemma dict_set_keys (k : K) (v : V) (d : list (K * V)) (k' : K) :
  In k' (keys (dict_set eqb k v d)) <-> k' = k \/ In k' (keys d).
Proof.
  induction d as [|[k0 v0] d IH]; simpl.
  - intuition.
  - destruct (eqb k k0) eqn:E; simpl.
    + apply eqb_eq in E. subst k0. intuition.
    + rewrite IH. intuition.
Qed.

Lemma dict_mem_In (k : K) (d : list (K * V)) :
  dict_mem eqb k d = true <-> In k (keys d).
Proof.
  unfold dict_mem, keys. rewrite existsb_exists, in_map_iff. split.
  - intros [kv [Hin E]]. apply eqb_eq in E. exists kv. split; [now symmetry | exact Hin].
  - intros [kv [E Hin]]. exists kv. split; [exact Hin | now apply eqb_eq].
Qed.

Lemma dict_pop_keys (k : K) (d : list (K * V)) (k' : K) :
  In k' (keys (dict_pop eqb k d)) <-> k' <> k /\ In k' (keys d).
Proof.
  unfold dict_pop, keys. rewrite !in_map_iff. split.
  - intros [kv [Hk Hin]]. apply filter_In in Hin. destruct Hin as [Hin E].
    apply negb_true_iff in E. split.
    + intro Heq. assert (eqb k (fst kv) = true) by (apply eqb_eq; congruence).
      congruence.
    + exists kv. auto.
  - intros [Hne [kv [Hk Hin]]]. exists kv. split; [exact Hk|].
    apply filter_In. split; [exact Hin|]. apply negb_true_iff.
    destruct (eqb k (fst kv)) eqn:E; [|reflexivity].
    apply eqb_eq in E. congruence.
Qed.

Lemma dict_get_In (k : K) (d : list (K * V)) (v : V) :
  dict_get eqb k d = Some v -> In v (values d).
Proof.
  induction d as [|[k0 v0] d IH]; simpl; [discriminate|].
  destruct (eqb k k0); [intros [= <-]; now left | intro H; right; now apply IH].
Qed.

Lemma dict_set_NoDup (k : K) (v : V) (d : list (K * V)) :
  NoDup (keys d) -> NoDup (keys (dict_set eqb k v d)).
Proof.
  induction d as [|[k0 v0] d IH]; simpl; intro H.
  - constructor; [intros [] | constructor].
  - inversion H as [|? ? Hnotin Hnd]; subst.
    destruct (eqb k k0) eqn:E; simpl.
    + constructor; assumption.
    + constructor; [|now apply IH].
      rewrite dict_set_keys. intros [->|Hin]; [|contradiction].
      rewrite (proj2 (eqb_eq _ _) eq_refl) in E. discriminate.
Qed.

End DictFacts.

(** ** [Track.update] *)

Lemma discontinuity_true (self : Track.t) (d_rel v_rel : Q) :
  Track.discontinuity self d_rel v_rel = true <->
  3.0 < Qabs (Track.dRel self - d_rel)
  \/ 20.0 * Track.radar_ts self < Qabs (Track.vRel self - v_rel).
Proof.
  unfold Track.discontinuity. now rewrite orb_true_iff, !Qltb_lt.
Qed.

Lemma KF1D_init_x (x0 x1 : Q) (A : (Q * Q) * (Q * Q)) (C K : Q * Q) :
  KF1D.x0_0 (KF1D.init x0 x1 A C K) = x0 /\ KF1D.x1_0 (KF1D.init x0 x1 A C K) = x1.
Proof.
  destruct A as [[a00 a01] [a10 a11]], C as [c0 c1], K as [k0 k1]. now split.
Qed.

(** C5.  When the new measurement differs from the Track's current one by
    more than 3.0 m in [dRel] or by more than [20 * radar_ts] m/s in [vRel],
    [Track.update] resets [cnt] to 0 and builds both filters anew from the
    measurement: the speed filter at [v_lead] with acceleration 0, the
    lateral filter at [y_rel] with lateral velocity 0.  No correction step
    runs in that update: the filters come out as seeded, the filtered values
    are the seeds, and [cnt] ends at 1 after the closing increment. *)
Theorem update_discontinuity_reseeds
    (self : Track.t) (d_rel y_rel v_rel v_lead : Q) (measured : bool)
    (a_rel aLeadTau aLeadTauStart a_ego : Q) :
  3.0 < Qabs (Track.dRel self - d_rel)
  \/ 20.0 * Track.radar_ts self < Qabs (Track.vRel self - v_rel) ->
  let seeded := Track.reseed self d_rel y_rel v_rel v_lead in
  let self' := Track.update self d_rel y_rel v_rel v_lead measured a_rel
                            aLeadTau aLeadTauStart a_ego in
  Track.cnt seeded = 0%nat
  /\ Track.kf seeded
     = KF1D.init v_lead 0 (Track.K_A self) (Track.K_C self) (Track.K_K self)
  /\ Track.kf_y seeded
     = KF1D.init y_rel 0 (Track.K_A self) (Track.K_C self) (Track.K_K self)
  /\ Track.kf self' = Track.kf seeded
  /\ Track.kf_y self' = Track.kf_y seeded
  /\ KF1D.x0_0 (Track.kf self') = v_lead /\ KF1D.x1_0 (Track.kf self') = 0
  /\ KF1D.x0_0 (Track.kf_y self') = y_rel /\ KF1D.x1_0 (Track.kf_y self') = 0
  /\ Track.vLeadK self' = v_lead /\ Track.aLeadK self' = 0 /\ Track.vLat self' = 0
  /\ Track.cnt self' = 1%nat.
Proof.
  intros H seeded self'. apply discontinuity_true in H.
  subst seeded self'. unfold Track.update, Track.reseed. rewrite H.
  cbn [Track.derive Track.measure Track.cnt Track.kf Track.kf_y Track.vLeadK
       Track.aLeadK Track.vLat Track.K_A Track.K_C Track.K_K Nat.ltb Nat.leb].
  destruct (KF1D_init_x v_lead 0 (Track.K_A self) (Track.K_C self) (Track.K_K self))
    as [Hv0 Hv1].
  destruct (KF1D_init_x y_rel 0 (Track.K_A self) (Track.K_C self) (Track.K_K self))
    as [Hy0 Hy1].
  repeat split; assumption.
Qed.

(** A Track first seen at 20 m is next reported at 30 m: the jump of 10 m
    reseeds it. *)
Lemma update_discontinuity_reseeds_witness :
  let self := sample_track 7 20 0 0 10 in
  let self' := Track.update self 30 0.5 (-1) 9 true 0 1.5 0.5 0 in
  Track.cnt self = 1%nat
  /\ Track.vLeadK self' = 9 /\ Track.aLeadK self' = 0 /\ Track.vLat self' = 0
  /\ Track.cnt self' = 1%nat.
Proof.
  pose proof (update_discontinuity_reseeds (sample_track 7 20 0 0 10)
                30 0.5 (-1) 9 true 0 1.5 0.5 0) as H.
  cbv zeta in H.
  assert (Hd : 3.0 < Qabs (Track.dRel (sample_track 7 20 0 0 10) - 30)
               \/ 20.0 * Track.radar_ts (sample_track 7 20 0 0 10)
                  < Qabs (Track.vRel (sample_track 7 20 0 0 10) - -1))
    by (left; reflexivity).
  specialize (H Hd).
  split; [reflexivity|]. tauto.
Defined.

(** ** The probabilistic strategy *)

Lemma gate_iff (v_ego : Q) (lead : LeadMsg.t) (track : Track.t) :
  dist_sane lead track && vel_sane v_ego lead track && y_sane lead track = true
  <-> gate v_ego lead track.
Proof.
  unfold gate, dist_sane, vel_sane, y_sane.
  rewrite !andb_true_iff, orb_true_iff, !Qltb_lt.
  assert (E : 3.2 / 2 == 1.6) by reflexivity. rewrite E. tauto.
Qed.

Lemma match_vision_to_track_eq (exp : Q -> Q) (v_ego : Q) (lead : LeadMsg.t)
    (tracks : Tracks) (key : Z) (best : Track.t) :
  max_by (fun item => vision_score exp v_ego lead (snd item)) tracks = Some (key, best) ->
  match_vision_to_track exp v_ego lead tracks
  = if dist_sane lead best && vel_sane v_ego lead best && y_sane lead best
    then Ok (Some best) else Ok None.
Proof. unfold match_vision_to_track. now intros ->. Qed.

Lemma far_track_not_dist_sane (lead : LeadMsg.t) (c : Track.t) :
  Track.dRel c == 30 ->
  LeadMsg.x lead == 50 \/ LeadMsg.x lead - RADAR_TO_CAMERA == 50 ->
  dist_sane lead c = false.
Proof.
  intros Hd Hx. unfold dist_sane. apply Qltb_ge.
  set (o := LeadMsg.x lead - RADAR_TO_CAMERA) in *.
  assert (Ho : 48 <= o <= 50).
  { unfold o, RADAR_TO_CAMERA in *. destruct Hx as [Hx|Hx]; lra. }
  assert (Hneg : Track.dRel c - o <= 0) by lra.
  rewrite (Qabs_neg _ Hneg).
  apply Q.max_lub; lra.
Qed.

(** C3.  On a non-empty Track set the probabilistic strategy looks at the
    Track of maximal score only (the first one in dict order among equals)
    and returns it exactly when it passes the gate: distance error below
    [max(0.35 * vision distance, 5.0)], and velocity error below 20 m/s
    (vision confidence above 0.85) or 10 m/s (otherwise) or combined speed
    above 3 m/s, and lateral error below 1.6 m; otherwise it returns no
    Track.  The vision distance is the lead's [x[0]] brought to the radar
    frame ([x[0] - RADAR_TO_CAMERA]).  A sole Track at 30 m against a vision
    distance of 50 m (in either frame) is rejected. *)
Theorem match_vision_to_track_gate
    (exp : Q -> Q) (v_ego : Q) (lead : LeadMsg.t) (tracks : Tracks) :
  tracks <> [] ->
  (exists (key : Z) (best : Track.t),
     In (key, best) tracks
     /\ (forall item, In item tracks ->
           vision_score exp v_ego lead (snd item) <= vision_score exp v_ego lead best)
     /\ (gate v_ego lead best ->
           match_vision_to_track exp v_ego lead tracks = Ok (Some best))
     /\ (~ gate v_ego lead best ->
           match_vision_to_track exp v_ego lead tracks = Ok None))
  /\ (forall (key : Z) (c : Track.t),
        tracks = [(key, c)] ->
        Track.dRel c == 30 ->
        LeadMsg.x lead == 50 \/ LeadMsg.x lead - RADAR_TO_CAMERA == 50 ->
        match_vision_to_track exp v_ego lead tracks = Ok None).
Proof.
  intro Hne. split.
  - destruct (max_by_nonempty (fun item => vision_score exp v_ego lead (snd item))
                              tracks Hne) as [[key best] Hmax].
    exists key, best.
    destruct (max_by_Some _ _ _ Hmax) as [Hin Hle].
    rewrite (match_vision_to_track_eq _ _ _ _ _ _ Hmax).
    repeat split.
    + exact Hin.
    + intros item Hitem. exact (Hle item Hitem).
    + intro Hg. apply gate_iff in Hg. now rewrite Hg.
    + intro Hg. rewrite <- gate_iff in Hg. apply not_true_is_false in Hg. now rewrite Hg.
  - intros key c -> Hd Hx.
    rewrite (match_vision_to_track_eq exp v_ego lead [(key, c)] key c eq_refl).
    now rewrite (far_track_not_dist_sane lead c Hd Hx).
Qed.

(** The sole Track at 30 m against a vision lead at 50 m. *)
Lemma match_vision_to_track_gate_witness :
  match_vision_to_track sample_exp 20 (sample_lead 50 0 20 0.9)
                        [(3%Z, sample_track 3 30 0 0 20)]
  = Ok None.
Proof.
  refine (proj2 (match_vision_to_track_gate sample_exp 20 (sample_lead 50 0 20 0.9)
                   [(3%Z, sample_track 3 30 0 0 20)] _)
                3%Z (sample_track 3 30 0 0 20) eq_refl _ _).
  - discriminate.
  - reflexivity.
  - left. reflexivity.
Defined.

(** ** The Track set over one cycle *)

Lemma Z_eqb_eq (a b : Z) : (a =? b)%Z = true <-> a = b.
Proof. apply Z.eqb_eq. Qed.


Lemma ar_pts_fold_keys (pts : list RadarPoint.t) :
  forall (acc : list (Z * RadarPoint.t)) (id : Z),
    In id (keys (fold_left
                   (fun ar_pts pt => dict_set Z.eqb (RadarPoint.trackId pt) pt ar_pts)
                   pts acc))
    <-> In id (keys acc) \/ In id (map RadarPoint.trackId pts).
Proof.
  induction pts as [|pt pts IH]; intros acc id; simpl.
  - tauto.
  - rewrite IH, (dict_set_keys Z.eqb Z_eqb_eq). intuition.
Qed.

Lemma ar_pts_of_keys (pts : list RadarPoint.t) (id : Z) :
  In id (keys (RadarD.ar_pts_of pts)) <-> In id (map RadarPoint.trackId pts).
Proof.
  unfold RadarD.ar_pts_of. rewrite ar_pts_fold_keys. simpl. tauto.
Qed.

Lemma ar_pts_fold_NoDup (pts : list RadarPoint.t) :
  forall acc : list (Z * RadarPoint.t),
    NoDup (keys acc) ->
    NoDup (keys (fold_left
                   (fun ar_pts pt => dict_set Z.eqb (RadarPoint.trackId pt) pt ar_pts)
                   pts acc)).
Proof.
  induction pts as [|pt pts IH]; intros acc H; simpl; [exact H|].
  apply IH, (dict_set_NoDup Z.eqb Z_eqb_eq), H.
Qed.

Lemma remove_fold_keys (ar_pts : list (Z * RadarPoint.t)) (ks : list Z) :
  forall (tracks : Tracks) (id : Z),
    In id (keys (fold_left
                   (fun tracks ids => if dict_mem Z.eqb ids ar_pts then tracks
                                      else dict_pop Z.eqb ids tracks)
                   ks tracks))
    <-> In id (keys tracks) /\ (In id ks -> In id (keys ar_pts)).
Proof.
  induction ks as [|k ks IH]; intros tracks id; simpl.
  - tauto.
  - rewrite IH. destruct (dict_mem Z.eqb k ar_pts) eqn:E.
    + apply (dict_mem_In Z.eqb Z_eqb_eq) in E.
      split; intros [H1 H2]; (split; [exact H1|]); intuition congruence.
    + assert (Hk : ~ In k (keys ar_pts)).
      { rewrite <- (dict_mem_In Z.eqb Z_eqb_eq). congruence. }
      rewrite (dict_pop_keys Z.eqb Z_eqb_eq).
      split.
      * intros [[Hne H1] H2]. split; [exact H1|]. intros [->|H]; [congruence | auto].
      * intros [H1 H2]. split; [split; [|exact H1] | auto].
        intros ->. apply Hk, H2. now left.
Qed.

Lemma remove_missing_keys (ar_pts : list (Z * RadarPoint.t)) (tracks : Tracks) (id : Z) :
  In id (keys (RadarD.remove_missing ar_pts tracks))
  <-> In id (keys tracks) /\ In id (keys ar_pts).
Proof.
  unfold RadarD.remove_missing. rewrite remove_fold_keys. tauto.
Qed.


Lemma compute_track_keys (self : RadarD.t) (tracks : Tracks) (item : Z * RadarPoint.t)
    (id : Z) :
  In id (keys (RadarD.compute_track self tracks item))
  <-> id = fst item \/ In id (keys tracks).
Proof.
  destruct item as [ids rpt]. unfold RadarD.compute_track.
  apply (dict_set_keys Z.eqb Z_eqb_eq).
Qed.

Lemma compute_fold_keys (self : RadarD.t) (ar_pts : list (Z * RadarPoint.t)) :
  forall (tracks : Tracks) (id : Z),
    In id (keys (fold_left (RadarD.compute_track self) ar_pts tracks))
    <-> In id (keys tracks) \/ In id (keys ar_pts).
Proof.
  induction ar_pts as [|item ar_pts IH]; intros tracks id; simpl.
  - tauto.
  - rewrite IH, compute_track_keys. intuition.
Qed.


Lemma update_tracks_keys (self : RadarD.t) (rr : option RadarData) (id : Z) :
  In id (keys (RadarD.update_tracks self rr))
  <-> In id (map RadarPoint.trackId (RadarD.radar_points rr)).
Proof.
  unfold RadarD.update_tracks.
  rewrite compute_fold_keys, remove_missing_keys, ar_pts_of_keys. tauto.
Qed.



(** ** Lead selection never raises, and what it writes *)

Lemma match_vision_to_track_Ok (exp : Q -> Q) (v_ego : Q) (lead : LeadMsg.t)
    (tracks : Tracks) :
  tracks <> [] ->
  exists track, match_vision_to_track exp v_ego lead tracks = Ok track
                /\ forall c, track = Some c -> In c (values tracks).
Proof.
  intro Hne.
  destruct (max_by_nonempty (fun item => vision_score exp v_ego lead (snd item))
                            tracks Hne) as [[key best] Hmax].
  rewrite (match_vision_to_track_eq _ _ _ _ _ _ Hmax).
  destruct (max_by_Some _ _ _ Hmax) as [Hin _].
  destruct (dist_sane lead best && vel_sane v_ego lead best && y_sane lead best).
  - exists (Some best). split; [reflexivity|]. intros c [= <-].
    apply (in_map snd) in Hin. exact Hin.
  - exists None. split; [reflexivity | discriminate].
Qed.

Lemma scc_fallback_In (lead_msg : LeadMsg.t) (tracks : Tracks) (track : option Track.t) :
  (forall c, track = Some c -> In c (values tracks)) ->
  forall c, scc_fallback lead_msg (dict_get Z.eqb 0%Z tracks) track = Some c ->
            In c (values tracks).
Proof.
  intros H c. unfold scc_fallback.
  destruct (dict_get Z.eqb 0%Z tracks) as [scc|] eqn:E, track as [t|]; auto.
  destruct (_ && _); [discriminate|].
  intros [= <-]. eapply dict_get_In, E.
Qed.

Lemma get_lead_track_Ok (exp : Q -> Q) (v_ego : Q) (ready : bool) (tracks : Tracks)
    (lead_msg : LeadMsg.t) :
  exists track, get_lead_track exp v_ego ready tracks lead_msg = Ok track
                /\ forall c, track = Some c -> In c (values tracks).
Proof.
  unfold get_lead_track.
  destruct ((0 <? length tracks)%nat && ready && Qltb 0.5 (LeadMsg.prob lead_msg)) eqn:G.
  - assert (Hne : tracks <> []).
    { destruct tracks; [discriminate | congruence]. }
    destruct (match_vision_to_track_Ok exp v_ego lead_msg tracks Hne) as [t [-> Ht]].
    simpl. eexists. split; [reflexivity|]. now apply scc_fallback_In.
  - simpl. eexists. split; [reflexivity|]. apply scc_fallback_In. discriminate.
Qed.

Lemma get_lead_unfold (exp : Q -> Q) (v_ego : Q) (ready : bool) (tracks : Tracks)
    (lead_msg : LeadMsg.t) (model_v_ego : Q) (low_speed_override : bool) (g : Q)
    (track : option Track.t) :
  get_lead_track exp v_ego ready tracks lead_msg = Ok track ->
  get_lead exp v_ego ready tracks lead_msg model_v_ego low_speed_override g
  = let pre :=
      match track with
      | Some track =>
          (Track.get_RadarState2 track (LeadMsg.prob lead_msg) lead_msg, _LEAD_ACCEL_TAU)
      | None =>
          if ready && Qltb 0.5 (LeadMsg.prob lead_msg)
          then get_RadarState_from_vision lead_msg v_ego model_v_ego g
          else (Lead.none, g)
      end in
    Ok (if low_speed_override then low_speed_lead v_ego tracks lead_msg (fst pre)
        else fst pre,
        snd pre).
Proof.
  intro H. unfold get_lead. rewrite H. simpl.
  destruct track as [c|]; [reflexivity|].
  destruct (ready && Qltb 0.5 (LeadMsg.prob lead_msg)); reflexivity.
Qed.

Lemma get_lead_write_of (exp : Q -> Q) (v_ego : Q) (ready : bool) (tracks : Tracks)
    (lead_msg : LeadMsg.t) (model_v_ego : Q) (g : Q) :
  exists ld,
    get_lead exp v_ego ready tracks lead_msg model_v_ego false g
    = Ok (ld, written (write_of ld) g).
Proof.
  destruct (get_lead_track_Ok exp v_ego ready tracks lead_msg) as [track [H _]].
  rewrite (get_lead_unfold _ _ _ _ _ model_v_ego false g _ H).
  destruct track as [c|]; cbv zeta.
  - exists (Track.get_RadarState2 c (LeadMsg.prob lead_msg) lead_msg). reflexivity.
  - destruct (ready && Qltb 0.5 (LeadMsg.prob lead_msg)).
    + exists (fst (get_RadarState_from_vision lead_msg v_ego model_v_ego g)). reflexivity.
    + exists Lead.none. reflexivity.
Qed.

Lemma get_lead_apilot_write_of (TRAJECTORY_SIZE : nat) (v_ego : Q) (ready : bool)
    (tracks : Tracks) (lead_msg : LeadMsg.t) (model_v_ego : Q) (md : ModelV2.t)
    (lane_width g : Q) :
  exists ld,
    get_lead_apilot TRAJECTORY_SIZE v_ego ready tracks lead_msg model_v_ego md lane_width g
    = (ld, written (write_of ld) g).
Proof.
  unfold get_lead_apilot.
  destruct (if (0 <? length tracks)%nat && ready
            then match_vision_track_apilot TRAJECTORY_SIZE v_ego lead_msg tracks md lane_width
            else None) as [c|].
  - exists (Track.get_RadarState2 c (LeadMsg.prob lead_msg) lead_msg). reflexivity.
  - destruct (Qltb 0.5 (LeadMsg.prob lead_msg)).
    + exists (fst (get_RadarState_from_vision lead_msg v_ego model_v_ego g)). reflexivity.
    + exists Lead.none. reflexivity.
Qed.

Lemma get_lead_side_writes (TRAJECTORY_SIZE : nat) (v_ego : Q) (tracks : Tracks)
    (md : ModelV2.t) (lane_width model_v_ego g : Q) (lead_msg : LeadMsg.t)
    (rest : list LeadMsg.t) :
  ModelV2.leadsV3 md = lead_msg :: rest ->
  exists sides w,
    w <> ToBase
    /\ get_lead_side TRAJECTORY_SIZE v_ego tracks md lane_width model_v_ego g
       = Ok (sides, written w g).
Proof.
  intro E. unfold get_lead_side. rewrite E.
  destruct (length (ModelV2.position_x md) =? TRAJECTORY_SIZE)%nat.
  - destruct (fold_left (side_step md lane_width lead_msg) (values tracks) ([], [], []))
      as [[leads_center leads_left] leads_right].
    destruct (Qltb 0.5 (LeadMsg.prob lead_msg)).
    + eexists; exists Decayed; split; [discriminate | reflexivity].
    + eexists; exists Unchanged; split; [discriminate | reflexivity].
  - eexists; exists Unchanged; split; [discriminate | reflexivity].
Qed.

Lemma select_leads_writes (exp : Q -> Q) (TRAJECTORY_SIZE : nat) (self : RadarD.t)
    (sm : SubMaster) (rs : RadarState.t) (g : Q) :
  RadarState.leadOne rs = Lead.none -> RadarState.leadTwo rs = Lead.none ->
  exists rs' w3,
    w3 <> ToBase
    /\ RadarD.select_leads exp TRAJECTORY_SIZE self sm rs g
       = Ok (rs', written w3
                    (written (write_of (RadarState.leadTwo rs'))
                       (written (write_of (RadarState.leadOne rs')) g))).
Proof.
  intros Hone Htwo. unfold RadarD.select_leads.
  destruct (ModelV2.leadsV3 (modelV2 sm)) as [|lead0 [|lead1 rest]] eqn:E;
    try (exists rs, Unchanged; split; [discriminate | now rewrite Hone, Htwo]).
  set (model_v_ego := match ModelV2.temporalPose_trans (modelV2 sm) with
                      | trans0 :: _ => trans0
                      | [] => RadarD.v_ego self
                      end).
  assert (H12 : exists one two,
    (if (RadarD.mixRadarInfo self =? 2)%Z
     then Ok (get_lead_apilot TRAJECTORY_SIZE (RadarD.v_ego self) (RadarD.ready self)
                (RadarD.tracks self) lead0 model_v_ego (modelV2 sm)
                (lateralPlan_laneWidth sm) g)
     else get_lead exp (RadarD.v_ego self) (RadarD.ready self) (RadarD.tracks self)
                   lead0 model_v_ego false g) = Ok (one, written (write_of one) g)
    /\ (if (RadarD.mixRadarInfo self =? 2)%Z
        then Ok (get_lead_apilot TRAJECTORY_SIZE (RadarD.v_ego self) (RadarD.ready self)
                   (RadarD.tracks self) lead1 model_v_ego (modelV2 sm)
                   (lateralPlan_laneWidth sm) (written (write_of one) g))
        else get_lead exp (RadarD.v_ego self) (RadarD.ready self) (RadarD.tracks self)
                      lead1 model_v_ego false (written (write_of one) g))
       = Ok (two, written (write_of two) (written (write_of one) g))).
  { destruct (RadarD.mixRadarInfo self =? 2)%Z.
    - destruct (get_lead_apilot_write_of TRAJECTORY_SIZE (RadarD.v_ego self)
                  (RadarD.ready self) (RadarD.tracks self) lead0 model_v_ego (modelV2 sm)
                  (lateralPlan_laneWidth sm) g) as [one E1].
      destruct (get_lead_apilot_write_of TRAJECTORY_SIZE (RadarD.v_ego self)
                  (RadarD.ready self) (RadarD.tracks self) lead1 model_v_ego (modelV2 sm)
                  (lateralPlan_laneWidth sm) (written (write_of one) g)) as [two E2].
      exists one, two. now rewrite E1, E2.
    - destruct (get_lead_write_of exp (RadarD.v_ego self) (RadarD.ready self)
                  (RadarD.tracks self) lead0 model_v_ego g) as [one E1].
      destruct (get_lead_write_of exp (RadarD.v_ego self) (RadarD.ready self)
                  (RadarD.tracks self) lead1 model_v_ego (written (write_of one) g))
        as [two E2].
      exists one, two. now split. }
  destruct H12 as [one [two [E1 E2]]].
  destruct (get_lead_side_writes TRAJECTORY_SIZE (RadarD.v_ego self) (RadarD.tracks self)
              (modelV2 sm) (lateralPlan_laneWidth sm) model_v_ego
              (written (write_of two) (written (write_of one) g)) lead0 (lead1 :: rest) E)
    as [sides [w3 [Hw3 E3]]].
  rewrite E1. cbn [bind]. rewrite E2. cbn [bind]. rewrite E3. cbn [bind].
  exists {| RadarState.mdMonoTime := RadarState.mdMonoTime rs;
            RadarState.radarErrors := RadarState.radarErrors rs;
            RadarState.carStateMonoTime := RadarState.carStateMonoTime rs;
            RadarState.leadOne := one; RadarState.leadTwo := two;
            RadarState.leadLeft := leadLeft sides; RadarState.leadRight := leadRight sides;
            RadarState.leadsLeft := ll sides; RadarState.leadsCenter := lc sides;
            RadarState.leadsRight := lr sides |}, w3.
  split; [exact Hw3 | reflexivity].
Qed.

Lemma update_Ok (exp : Q -> Q) (TRAJECTORY_SIZE : nat) (self : RadarD.t) (params : Params)
    (sm : SubMaster) (rr : option RadarData) (g : Q) :
  exists self' rs' w3 self1,
    w3 <> ToBase
    /\ RadarD.update exp TRAJECTORY_SIZE self params sm rr g
       = Ok (self', written w3
                      (written (write_of (RadarState.leadTwo rs'))
                         (written (write_of (RadarState.leadOne rs')) g)))
    /\ RadarD.radar_state self' = Some rs'
    /\ RadarD.tracks self1 = RadarD.tracks self
    /\ RadarD.tracks self' = RadarD.update_tracks self1 rr.
Proof.
  unfold RadarD.update.
  match goal with
  | |- context [RadarD.select_leads exp TRAJECTORY_SIZE ?s sm ?rs g] =>
      destruct (select_leads_writes exp TRAJECTORY_SIZE s sm rs g eq_refl eq_refl)
        as [rs' [w3 [Hw3 E]]]
  end.
  cbv zeta. rewrite E. cbn [bind].
  eexists. exists rs', w3. eexists.
  split; [exact Hw3|]. split; [reflexivity|]. split; [reflexivity|].
  split; [| cbn [RadarD.tracks]; reflexivity].
  reflexivity.
Qed.

(** ** The orchestrator cycle *)


(** C9.  Over one cycle the shared decay state is written at most three
    times, once by each selection call in turn.  The primary and the
    secondary lead selection each set it to [_LEAD_ACCEL_TAU] when the lead
    they publish is a radar Track, decay it once when the lead is a
    vision-only record, and leave it alone when they publish no lead; the
    side-lead selection then leaves it alone or decays it once more. *)
Theorem update_writes_decay_state
    (exp : Q -> Q) (TRAJECTORY_SIZE : nat) (self : RadarD.t) (params : Params)
    (sm : SubMaster) (rr : option RadarData) (g : Q) :
  exists (self' : RadarD.t) (rs' : RadarState.t) (w3 : write),
    RadarD.update exp TRAJECTORY_SIZE self params sm rr g
    = Ok (self', written w3
                   (written (write_of (RadarState.leadTwo rs'))
                      (written (write_of (RadarState.leadOne rs')) g)))
    /\ RadarD.radar_state self' = Some rs'
    /\ (w3 = Unchanged \/ w3 = Decayed).
Proof.
  destruct (update_Ok exp TRAJECTORY_SIZE self params sm rr g)
    as [self' [rs' [w3 [self1 [Hw3 [E [Hrs _]]]]]]].
  exists self', rs', w3. split; [exact E|]. split; [exact Hrs|].
  destruct w3; [now left | congruence | now right].
Qed.

(** C9, as stated, fails: with no Track and two vision candidates of
    confidence 0.6, one cycle decays the state three times, from 1.5 to
    1.0935, under either strategy; a single write would leave 1.5 (reset) or
    1.35 (one decay). *)
Lemma decay_state_written_thrice :
  (exists self',
     RadarD.update sample_exp 33 sample_radard (sample_params 0)
                   (sample_sm (sample_lead 30 0 10 0.6) (sample_lead 60 0 10 0.6) 10)
                   (Some {| points := []; errors := [] |}) 1.5
     = Ok (self', 1.0935))
  /\ (exists self',
        RadarD.update sample_exp 33 sample_radard (sample_params 2)
                      (sample_sm (sample_lead 30 0 10 0.6) (sample_lead 60 0 10 0.6) 10)
                      (Some {| points := []; errors := [] |}) 1.5
        = Ok (self', 1.0935))
  /\ decay 1.5 = 1.35
  /\ ~ 1.0935 == decay 1.5
  /\ ~ 1.0935 == _LEAD_ACCEL_TAU.
Proof.
  split; [eexists; vm_compute; reflexivity|].
  split; [eexists; vm_compute; reflexivity|].
  split; [reflexivity|].
  split; intro H; discriminate H.
Qed.

(** ** Lead selection *)

Lemma potential_low_speed_lead_iff (v_ego : Q) (c : Track.t) :
  Track.potential_low_speed_lead c v_ego = true <-> low_speed_candidate v_ego c.
Proof.
  unfold Track.potential_low_speed_lead, low_speed_candidate, V_EGO_STATIONARY.
  rewrite !andb_true_iff, !Qltb_lt. tauto.
Qed.

Lemma low_speed_closest (v_ego : Q) (tracks : Tracks) (c0 : Track.t) :
  In c0 (values tracks) -> low_speed_candidate v_ego c0 ->
  exists closest,
    min_by Track.dRel
           (filter (fun c => Track.potential_low_speed_lead c v_ego) (values tracks))
    = Some closest
    /\ In closest (values tracks)
    /\ low_speed_candidate v_ego closest
    /\ forall c, In c (values tracks) -> low_speed_candidate v_ego c ->
                 Track.dRel closest <= Track.dRel c.
Proof.
  intros Hin Hq.
  set (low := filter (fun c => Track.potential_low_speed_lead c v_ego) (values tracks)).
  assert (Hne : low <> []).
  { intro E. assert (H : In c0 low).
    { apply filter_In. split; [exact Hin | now apply potential_low_speed_lead_iff]. }
    rewrite E in H. exact H. }
  destruct (min_by_nonempty Track.dRel low Hne) as [closest Hmin].
  exists closest. split; [exact Hmin|].
  destruct (min_by_Some _ _ _ Hmin) as [Hc Hle].
  apply filter_In in Hc. destruct Hc as [Hc1 Hc2].
  split; [exact Hc1|]. split; [now apply potential_low_speed_lead_iff|].
  intros c Hcin Hcq. apply Hle, filter_In.
  split; [exact Hcin | now apply potential_low_speed_lead_iff].
Qed.

(** C1, as the code has it.  The override is a switch of [get_lead]
    ([low_speed_override], on by default).  With the switch on: when some
    Track is a low-speed candidate ([|yRel| < 1.0], ego speed below 4 m/s,
    [0.75 < dRel < 25]), the closest candidate replaces the record produced
    by association whenever that record has [status] false or lies farther
    than the candidate, whatever the vision confidence; otherwise the
    produced record stays. *)
Theorem low_speed_override_when_enabled
    (exp : Q -> Q) (v_ego : Q) (ready : bool) (tracks : Tracks) (lead_msg : LeadMsg.t)
    (model_v_ego g : Q) (c0 : Track.t) :
  In c0 (values tracks) -> low_speed_candidate v_ego c0 ->
  exists (closest : Track.t) (produced : Lead.t) (g' : Q),
    In closest (values tracks)
    /\ low_speed_candidate v_ego closest
    /\ (forall c, In c (values tracks) -> low_speed_candidate v_ego c ->
                  Track.dRel closest <= Track.dRel c)
    /\ get_lead exp v_ego ready tracks lead_msg model_v_ego false g = Ok (produced, g')
    /\ (Lead.status produced = false \/ Track.dRel closest < Lead.dRel produced ->
        get_lead exp v_ego ready tracks lead_msg model_v_ego true g
        = Ok (Track.get_RadarState2 closest (LeadMsg.prob lead_msg) lead_msg, g'))
    /\ (Lead.status produced = true /\ Lead.dRel produced <= Track.dRel closest ->
        get_lead exp v_ego ready tracks lead_msg model_v_ego true g = Ok (produced, g')).
Proof.
  intros Hin Hq.
  destruct (low_speed_closest v_ego tracks c0 Hin Hq) as [closest [Hmin [Hc [Hcq Hle]]]].
  destruct (get_lead_track_Ok exp v_ego ready tracks lead_msg) as [track [Ht _]].
  rewrite !(get_lead_unfold _ _ _ _ _ model_v_ego _ g _ Ht). cbv zeta.
  eexists closest, _, _.
  split; [exact Hc|]. split; [exact Hcq|]. split; [exact Hle|].
  split; [reflexivity|].
  unfold low_speed_lead. rewrite Hmin.
  split.
  - intros [Hs|Hd].
    + now rewrite Hs.
    + apply Qltb_lt in Hd. rewrite Hd. now rewrite orb_true_r.
  - intros [Hs Hd]. apply Qltb_ge in Hd. now rewrite Hs, Hd.
Qed.

(** At 2 m/s, a Track 5 m ahead and 0.2 m off axis, no vision lead: with the
    switch on the Track is the lead. *)
Lemma low_speed_override_when_enabled_witness :
  get_lead sample_exp 2 true [(5%Z, sample_track 5 5 0.2 0 2)]
           (sample_lead 40 0 2 0) 2 true 1.5
  = Ok (Track.get_RadarState2 (sample_track 5 5 0.2 0 2) 0 (sample_lead 40 0 2 0), 1.5).
Proof.
  destruct (low_speed_override_when_enabled sample_exp 2 true
              [(5%Z, sample_track 5 5 0.2 0 2)] (sample_lead 40 0 2 0) 2 1.5
              (sample_track 5 5 0.2 0 2))
    as [closest [produced [g' [Hc [_ [_ [Hoff [Hon _]]]]]]]].
  - left. reflexivity.
  - apply potential_low_speed_lead_iff. reflexivity.
  - destruct Hc as [<-|[]].
    assert (Hnone : get_lead sample_exp 2 true [(5%Z, sample_track 5 5 0.2 0 2)]
                             (sample_lead 40 0 2 0) 2 false 1.5
                    = Ok (Lead.none, 1.5)) by reflexivity.
    rewrite Hnone in Hoff. injection Hoff as E1 E2. subst produced g'.
    apply Hon. left. reflexivity.
Defined.

(** C1, as stated, fails: the orchestrator calls [get_lead] with the
    override switched off, and [get_lead_apilot] has none.  At 2 m/s with a
    qualifying Track 5 m ahead and no vision lead, both return no lead. *)
Lemma low_speed_override_not_applied :
  Track.potential_low_speed_lead (sample_track 5 5 0.2 0 2) 2 = true
  /\ get_lead sample_exp 2 true [(5%Z, sample_track 5 5 0.2 0 2)]
              (sample_lead 40 0 2 0) 2 false 1.5
     = Ok (Lead.none, 1.5)
  /\ get_lead_apilot 33 2 true [(5%Z, sample_track 5 5 0.2 0 2)]
                     (sample_lead 40 0 2 0) 2
                     (sample_md (sample_lead 40 0 2 0) (sample_lead 40 0 2 0)) 3.2 1.5
     = (Lead.none, 1.5)
  /\ (exists self',
        RadarD.update sample_exp 33 sample_radard (sample_params 0)
                      (sample_sm (sample_lead 40 0 2 0) (sample_lead 40 0 2 0) 2)
                      (Some {| points := [sample_point 5 5 0.2 0]; errors := [] |}) 1.5
        = Ok (self', 1.5)
        /\ keys (RadarD.tracks self') = [5%Z]
        /\ option_map RadarState.leadOne (RadarD.radar_state self') = Some Lead.none).
Proof.
  split; [reflexivity|]. split; [reflexivity|]. split; [reflexivity|].
  eexists. split; [vm_compute; reflexivity|]. split; reflexivity.
Qed.

(** The record that [get_RadarState_from_vision] builds, and the state it
    leaves: both carry the state after this call's decay step. *)
Lemma get_RadarState_from_vision_fields (lead_msg : LeadMsg.t) (v_ego model_v_ego g : Q) :
  let ld := fst (get_RadarState_from_vision lead_msg v_ego model_v_ego g) in
  snd (get_RadarState_from_vision lead_msg v_ego model_v_ego g) = decay g
  /\ Lead.status ld = true /\ Lead.radar ld = false
  /\ Lead.radarTrackId ld = (-1)%Z
  /\ Lead.aLeadTau ld = decay g
  /\ Lead.dRel ld = LeadMsg.x lead_msg - RADAR_TO_CAMERA
  /\ Lead.yRel ld = - LeadMsg.y lead_msg
  /\ Lead.vRel ld = LeadMsg.v lead_msg - model_v_ego
  /\ Lead.vLead ld = v_ego + (LeadMsg.v lead_msg - model_v_ego)
  /\ Lead.vLeadK ld = v_ego + (LeadMsg.v lead_msg - model_v_ego)
  /\ Lead.aLeadK ld = LeadMsg.a lead_msg
  /\ Lead.modelProb ld = LeadMsg.prob lead_msg
  /\ Lead.fcw ld = false.
Proof. cbv zeta. unfold get_RadarState_from_vision. cbn. repeat split. Qed.

(** C6, as the code has it.  With vision confidence above 0.5, when lead
    selection finds no Track it returns the record synthesized from vision
    ([status] true, [radar] false).  On the [get_lead] path this needs a
    model message to have been received ([ready]), and with the low-speed
    override switched on it holds when no low-speed candidate Track is
    strictly nearer than the vision lead; when one is, the closest candidate
    is returned in its place, and the state is decayed all the same.  Before
    the first model message [get_lead] returns no lead and leaves the state
    alone, unless the override is on and a low-speed candidate exists, whose
    record it then returns.  The shared state is decayed first (times 0.9
    when it is above 0.3, unchanged otherwise), and the decayed value is
    both the vision record's [aLeadTau] and the state left for the next
    call.  Zero Tracks is one such case, whatever the switch. *)
Theorem vision_only_lead
    (exp : Q -> Q) (TRAJECTORY_SIZE : nat) (v_ego : Q) (tracks : Tracks)
    (lead_msg : LeadMsg.t) (model_v_ego : Q) (md : ModelV2.t) (lane_width g : Q) :
  0.5 < LeadMsg.prob lead_msg ->
  let vision := fst (get_RadarState_from_vision lead_msg v_ego model_v_ego g) in
  (Lead.status vision = true /\ Lead.radar vision = false
   /\ Lead.aLeadTau vision = decay g
   /\ ((0.3 < g -> decay g = g * 0.9) /\ (g <= 0.3 -> decay g = g)))
  /\ (get_lead_track exp v_ego true tracks lead_msg = Ok None ->
      get_lead exp v_ego true tracks lead_msg model_v_ego false g = Ok (vision, decay g)
      /\ ((forall c, In c (values tracks) -> low_speed_candidate v_ego c ->
                     Lead.dRel vision <= Track.dRel c) ->
          get_lead exp v_ego true tracks lead_msg model_v_ego true g
          = Ok (vision, decay g))
      /\ (forall c, In c (values tracks) -> low_speed_candidate v_ego c ->
                    Track.dRel c < Lead.dRel vision ->
          exists closest,
            In closest (values tracks) /\ low_speed_candidate v_ego closest
            /\ (forall c', In c' (values tracks) -> low_speed_candidate v_ego c' ->
                           Track.dRel closest <= Track.dRel c')
            /\ get_lead exp v_ego true tracks lead_msg model_v_ego true g
               = Ok (Track.get_RadarState2 closest (LeadMsg.prob lead_msg) lead_msg,
                     decay g)))
  /\ (get_lead_track exp v_ego false tracks lead_msg = Ok None ->
      get_lead exp v_ego false tracks lead_msg model_v_ego false g = Ok (Lead.none, g)
      /\ ((forall c, In c (values tracks) -> ~ low_speed_candidate v_ego c) ->
          get_lead exp v_ego false tracks lead_msg model_v_ego true g
          = Ok (Lead.none, g))
      /\ (forall c, In c (values tracks) -> low_speed_candidate v_ego c ->
          exists closest,
            In closest (values tracks) /\ low_speed_candidate v_ego closest
            /\ (forall c', In c' (values tracks) -> low_speed_candidate v_ego c' ->
                           Track.dRel closest <= Track.dRel c')
            /\ get_lead exp v_ego false tracks lead_msg model_v_ego true g
               = Ok (Track.get_RadarState2 closest (LeadMsg.prob lead_msg) lead_msg, g)))
  /\ (forall low_speed_override,
        get_lead exp v_ego true [] lead_msg model_v_ego low_speed_override g
        = Ok (vision, decay g))
  /\ (forall ready,
        tracks = [] \/ ready = false
        \/ match_vision_track_apilot TRAJECTORY_SIZE v_ego lead_msg tracks md lane_width
           = None ->
        get_lead_apilot TRAJECTORY_SIZE v_ego ready tracks lead_msg model_v_ego md
                        lane_width g
        = (vision, decay g)).
Proof.
  intros Hp vision. apply Qltb_lt in Hp.
  assert (Hlow : forall c,
            In c (filter (fun c => Track.potential_low_speed_lead c v_ego) (values tracks))
            <-> In c (values tracks) /\ low_speed_candidate v_ego c).
  { intro c. now rewrite filter_In, potential_low_speed_lead_iff. }
  split.
  { split; [reflexivity|]. split; [reflexivity|]. split; [reflexivity|].
    unfold decay. split; intro H.
    - apply Qltb_lt in H. now rewrite H.
    - apply Qltb_ge in H. now rewrite H. }
  split.
  { intro H. rewrite !(get_lead_unfold _ _ _ _ _ model_v_ego _ g _ H).
    cbv zeta. cbn [andb]. rewrite Hp.
    change (fst (get_RadarState_from_vision lead_msg v_ego model_v_ego g)) with vision.
    change (snd (get_RadarState_from_vision lead_msg v_ego model_v_ego g)) with (decay g).
    split; [reflexivity|]. unfold low_speed_lead. split.
    - intro Hfar.
      destruct (min_by Track.dRel _) as [closest|] eqn:M; [|reflexivity].
      destruct (min_by_Some _ _ _ M) as [Hc _]. apply Hlow in Hc.
      assert (T : Qltb (Track.dRel closest) (Lead.dRel vision) = false).
      { apply Qltb_ge. now apply Hfar. }
      rewrite T. reflexivity.
    - intros c Hin Hq Hnear.
      destruct (low_speed_closest v_ego tracks c Hin Hq)
        as [closest [Hmin [Hc [Hcq Hle]]]].
      exists closest. split; [exact Hc|]. split; [exact Hcq|]. split; [exact Hle|].
      rewrite Hmin.
      assert (T : Qltb (Track.dRel closest) (Lead.dRel vision) = true).
      { apply Qltb_lt. apply Qle_lt_trans with (Track.dRel c);
          [now apply Hle | exact Hnear]. }
      rewrite T. now rewrite orb_true_r. }
  split.
  { intro H. rewrite !(get_lead_unfold _ _ _ _ _ model_v_ego _ g _ H).
    cbv zeta. cbn [andb fst snd].
    split; [reflexivity|]. unfold low_speed_lead. split.
    - intro Hno.
      destruct (min_by Track.dRel _) as [closest|] eqn:M; [|reflexivity].
      destruct (min_by_Some _ _ _ M) as [Hc _]. apply Hlow in Hc.
      exfalso. exact (Hno closest (proj1 Hc) (proj2 Hc)).
    - intros c Hin Hq.
      destruct (low_speed_closest v_ego tracks c Hin Hq)
        as [closest [Hmin [Hc [Hcq Hle]]]].
      exists closest. split; [exact Hc|]. split; [exact Hcq|]. split; [exact Hle|].
      rewrite Hmin. reflexivity. }
  split.
  { intro lso. unfold get_lead, get_lead_track. cbn. rewrite Hp.
    destruct lso; reflexivity. }
  intros ready H. unfold get_lead_apilot.
  assert (E : (if (0 <? length tracks)%nat && ready
               then match_vision_track_apilot TRAJECTORY_SIZE v_ego lead_msg tracks md
                                              lane_width
               else None) = None).
  { destruct H as [-> | [-> | ->]].
    - reflexivity.
    - now rewrite andb_false_r.
    - now destruct (_ && _). }
  rewrite E, Hp. reflexivity.
Qed.

(** Zero Tracks, confidence 0.6, a model message received. *)
Lemma vision_only_lead_witness :
  get_lead sample_exp 10 true [] (sample_lead 30 0 10 0.6) 10 false 1.5
  = Ok (fst (get_RadarState_from_vision (sample_lead 30 0 10 0.6) 10 10 1.5), decay 1.5)
  /\ decay 1.5 = 1.35.
Proof.
  split; [|reflexivity].
  refine (proj1 (proj1 (proj2 (vision_only_lead sample_exp 33 10 []
                                 (sample_lead 30 0 10 0.6) 10
                                 (sample_md (sample_lead 30 0 10 0.6)
                                            (sample_lead 30 0 10 0.6))
                                 3.2 1.5 _)) _)); reflexivity.
Defined.

(** C6, as stated, fails.  With zero Tracks and a vision candidate of
    confidence 0.6: before the first model message [get_lead] returns no
    lead; after it the record's [aLeadTau] is 1.35, the state already
    decayed, not the 1.5 the state held at the call.  The decay is no floor
    at 0.3 either: from 0.31 the state goes to 0.279.  And with the override
    on, at 2 m/s with a Track 5 m ahead that association rejects, the record
    returned is that Track's, not the vision one, while the state is decayed
    to 1.35. *)
Lemma vision_only_lead_not_as_stated :
  get_lead sample_exp 10 false [] (sample_lead 30 0 10 0.6) 10 true 1.5
  = Ok (Lead.none, 1.5)
  /\ (exists ld,
        get_lead sample_exp 10 true [] (sample_lead 30 0 10 0.6) 10 true 1.5
        = Ok (ld, 1.35)
        /\ Lead.status ld = true /\ Lead.radar ld = false
        /\ Lead.aLeadTau ld = 1.35)
  /\ (exists ld,
        get_lead_apilot 33 10 true [] (sample_lead 30 0 10 0.6) 10
                        (sample_md (sample_lead 30 0 10 0.6) (sample_lead 30 0 10 0.6))
                        3.2 1.5
        = (ld, 1.35)
        /\ Lead.aLeadTau ld = 1.35)
  /\ decay 0.31 = 0.279
  /\ (get_lead_track sample_exp 2 true [(5%Z, sample_track 5 5 0.2 0 2)]
                     (sample_lead 40 0 2 0.6)
      = Ok None
      /\ get_lead sample_exp 2 true [(5%Z, sample_track 5 5 0.2 0 2)]
                  (sample_lead 40 0 2 0.6) 2 true 1.5
         = Ok (Track.get_RadarState2 (sample_track 5 5 0.2 0 2) 0.6
                                     (sample_lead 40 0 2 0.6), 1.35)).
Proof.
  split; [reflexivity|].
  split; [eexists; split; [reflexivity|]; repeat split|].
  split; [eexists; split; [reflexivity|]; reflexivity|].
  split; [reflexivity|].
  split; reflexivity.
Qed.

(** C2, at the failing input.  The SCC Track (id 0) is 40 m ahead and 5 m to
    the right of the path, and vision reports a lead with confidence 0.9.
    With the vision lead at 20 m (more than 5 m closer than the SCC Track)
    [get_lead] drops the fallback and answers from vision, while
    [get_lead_apilot] keeps it and publishes the Track at 40 m.  With the
    vision lead at 50 m (not closer) it is the other way round: the test on
    line 417 is the reverse of the one on line 272. *)
Lemma corridor_fallback_test_reversed :
  let scc := sample_track 0 40 (-5) 0 10 in
  let near := sample_lead 21.52 0 10 0.9 in
  let far := sample_lead 51.52 0 10 0.9 in
  (LeadMsg.x near - RADAR_TO_CAMERA < Track.dRel scc - 5.0
   /\ get_lead sample_exp 10 true [(0%Z, scc)] near 10 false 1.5
      = Ok (fst (get_RadarState_from_vision near 10 10 1.5), 1.35)
   /\ get_lead_apilot 33 10 true [(0%Z, scc)] near 10 (sample_md near near) 3.2 1.5
      = (Track.get_RadarState2 scc 0.9 near, 1.5))
  /\ (~ LeadMsg.x far - RADAR_TO_CAMERA < Track.dRel scc - 5.0
      /\ get_lead sample_exp 10 true [(0%Z, scc)] far 10 false 1.5
         = Ok (Track.get_RadarState2 scc 0.9 far, 1.5)
      /\ get_lead_apilot 33 10 true [(0%Z, scc)] far 10 (sample_md far far) 3.2 1.5
         = (fst (get_RadarState_from_vision far 10 10 1.5), 1.35)).
Proof.
  cbv zeta. split; (split; [|split]); try reflexivity.
  intro H. discriminate H.
Qed.

(** ** The corridor strategy *)

Lemma corridor_lw_values (lane_width : Q) (c : Track.t) :
  (Track.dRel c <= 0 -> corridor_lw lane_width c = 1.5)
  /\ (0 < Track.dRel c /\ Track.dRel c <= 10 ->
      corridor_lw lane_width c == 1.5 + Track.dRel c * (lane_width - 1.5) / 10)
  /\ (10 < Track.dRel c /\ Track.dRel c <= 100 ->
      corridor_lw lane_width c
      == lane_width + (Track.dRel c - 10) * (lane_width * 0.6 - lane_width) / 90)
  /\ (100 < Track.dRel c -> corridor_lw lane_width c = lane_width * 0.6).
Proof.
  unfold corridor_lw, interp, interp_from.
  repeat split.
  - intro H. apply Qle_bool_iff in H. now rewrite H.
  - intros [H0 H1].
    apply Qlt_not_le in H0. rewrite <- Qle_bool_iff in H0. apply not_true_is_false in H0.
    apply Qle_bool_iff in H1. rewrite H0, H1. field.
  - intros [H0 H1].
    assert (H00 : Qle_bool (Track.dRel c) 0 = false).
    { apply not_true_is_false. rewrite Qle_bool_iff. apply Qlt_not_le. lra. }
    apply Qlt_not_le in H0. rewrite <- Qle_bool_iff in H0. apply not_true_is_false in H0.
    apply Qle_bool_iff in H1. rewrite H00, H0, H1. field.
  - intro H.
    assert (H00 : Qle_bool (Track.dRel c) 0 = false).
    { apply not_true_is_false. rewrite Qle_bool_iff. apply Qlt_not_le. lra. }
    assert (H10 : Qle_bool (Track.dRel c) 10 = false).
    { apply not_true_is_false. rewrite Qle_bool_iff. apply Qlt_not_le. lra. }
    apply Qlt_not_le in H. rewrite <- Qle_bool_iff in H. apply not_true_is_false in H.
    now rewrite H00, H10, H.
Qed.

(** C8, as the code has it.  A Track goes to the center bucket exactly when
    the absolute lateral deviation [d_y] from the planned path (read at
    range [dRel + vLat]) is below half of the corridor width [lw]; it is the
    full width [lw], not the half-width, that is interpolated: 1.5 m at 0 m
    and below, the lane width at 10 m, 0.6 times the lane width at 100 m and
    beyond, linear in between.  Outside that half-width a Track goes left
    when [d_y < 0] and right otherwise. *)
Theorem corridor_bucketing (md : ModelV2.t) (lane_width : Q) (c : Track.t) :
  let d_y := - Track.yRel c
             - interp (Track.dRel c + Track.vLat c)
                      (ModelV2.position_x md) (ModelV2.position_y md) in
  let lw := corridor_lw lane_width c in
  (corridor_of md lane_width c = Center <-> Qabs d_y < lw / 2)
  /\ (corridor_of md lane_width c = Left <-> ~ Qabs d_y < lw / 2 /\ d_y < 0)
  /\ (corridor_of md lane_width c = Right <-> ~ Qabs d_y < lw / 2 /\ 0 <= d_y)
  /\ (forall (key : Z) (tracks : Tracks),
        In (key, c) (tracks_center md lane_width tracks)
        <-> In (key, c) tracks /\ Qabs d_y < lw / 2)
  /\ (Track.dRel c <= 0 -> lw == 1.5)
  /\ (Track.dRel c == 10 -> lw == lane_width)
  /\ (100 <= Track.dRel c -> lw == lane_width * 0.6)
  /\ (0 < Track.dRel c /\ Track.dRel c <= 10 ->
      lw == 1.5 + Track.dRel c * (lane_width - 1.5) / 10)
  /\ (10 < Track.dRel c /\ Track.dRel c <= 100 ->
      lw == lane_width + (Track.dRel c - 10) * (lane_width * 0.6 - lane_width) / 90).
Proof.
  intros d_y lw.
  assert (HC : corridor_of md lane_width c = Center <-> Qabs d_y < lw / 2).
  { unfold corridor_of. fold d_y lw. change (corridor_d_y md c) with d_y.
    rewrite <- Qltb_lt.
    destruct (Qltb (Qabs d_y) (lw / 2)); [tauto|].
    destruct (Qltb d_y 0); split; discriminate. }
  destruct (corridor_lw_values lane_width c) as [V0 [V1 [V2 V3]]]. fold lw in V0, V1, V2, V3.
  split; [exact HC|].
  split.
  { unfold corridor_of. fold lw. change (corridor_d_y md c) with d_y.
    rewrite <- !Qltb_lt.
    destruct (Qltb (Qabs d_y) (lw / 2)), (Qltb d_y 0); intuition congruence. }
  split.
  { unfold corridor_of. fold lw. change (corridor_d_y md c) with d_y.
    rewrite <- Qltb_lt, <- Qltb_ge.
    destruct (Qltb (Qabs d_y) (lw / 2)), (Qltb d_y 0); intuition congruence. }
  split.
  { intros key tracks. unfold tracks_center. rewrite filter_In, <- HC.
    unfold is_side. cbn [snd].
    destruct (corridor_of md lane_width c); split; intros [H1 H2];
      (split; [exact H1|]); congruence. }
  split; [intro H; rewrite (V0 H); reflexivity|].
  split.
  { intro H. rewrite V1 by (split; lra). rewrite H. field. }
  split.
  { intro H. destruct (Qlt_le_dec 100 (Track.dRel c)) as [Hgt|Hle].
    - rewrite (V3 Hgt). reflexivity.
    - assert (E : Track.dRel c == 100) by lra.
      rewrite V2 by (split; lra). rewrite E. field. }
  split; assumption.
Qed.

(** C8, as stated, fails: at 10 m range with a 3.2 m lane the interpolated
    value is 3.2 m, a Track 2 m to the right of the path deviates by less
    than that, and it is put in the right bucket, the center one staying
    empty. *)
Lemma corridor_half_width_not_as_stated :
  let c := sample_track 5 10 (-2) 0 10 in
  let md := sample_md (sample_lead 40 0 10 0.9) (sample_lead 40 0 10 0.9) in
  corridor_lw 3.2 c == 3.2
  /\ Qabs (corridor_d_y md c) < corridor_lw 3.2 c
  /\ corridor_of md 3.2 c = Right
  /\ tracks_center md 3.2 [(5%Z, c)] = []
  /\ tracks_right md 3.2 [(5%Z, c)] = [(5%Z, c)].
Proof.
  cbv zeta. repeat split.
Qed.

(** ** Side leads *)

Section DictSetFacts.
Context {K V : Type} (eqb : K -> K -> bool).

Lemma dict_set_In_inv (k : K) (v : V) (d : list (K * V)) (k' : K) (v' : V) :
  In (k', v') (dict_set eqb k v d) ->
  In (k', v') d \/ (v' = v /\ (k' = k \/ eqb k k' = true)).
Proof.
  induction d as [|[k0 v0] d IH]; simpl.
  - intros [[= <- <-]|[]]. right. split; [reflexivity | now left].
  - destruct (eqb k k0) eqn:E; simpl.
    + intros [[= <- <-]|H]; [right; split; [reflexivity | now right] | left; now right].
    + intros [H|H]; [left; now left|].
      destruct (IH H) as [H'|H']; [left; now right | now right].
Qed.

Lemma dict_set_key_kept (k : K) (v : V) (d : list (K * V)) (k' : K) :
  In k' (keys d) -> In k' (keys (dict_set eqb k v d)).
Proof.
  induction d as [|[k0 v0] d IH]; simpl; [tauto|].
  destruct (eqb k k0); simpl; intros [H|H]; auto.
Qed.

Lemma dict_set_has (k : K) (v : V) (d : list (K * V)) :
  exists k', In k' (keys (dict_set eqb k v d)) /\ (k' = k \/ eqb k k' = true).
Proof.
  induction d as [|[k0 v0] d IH]; simpl.
  - exists k. split; [now left | now left].
  - destruct (eqb k k0) eqn:E; simpl.
    + exists k0. split; [now left | now right].
    + destruct IH as [k' [H1 H2]]. exists k'. split; [now right | exact H2].
Qed.

Lemma values_In (d : list (K * V)) (v : V) :
  In v (values d) <-> exists k, In (k, v) d.
Proof.
  unfold values. rewrite in_map_iff. split.
  - intros [[k v'] [E H]]. simpl in E. subst v'. now exists k.
  - intros [k H]. now exists (k, v).
Qed.

Lemma keys_In (d : list (K * V)) (k : K) :
  In k (keys d) <-> exists v, In (k, v) d.
Proof.
  unfold keys. rewrite in_map_iff. split.
  - intros [[k' v] [E H]]. simpl in E. subst k'. now exists v.
  - intros [v H]. now exists (k, v).
Qed.
End DictSetFacts.

Lemma side_of_Left (lane_width d_y : Q) :
  side_of lane_width d_y = Left <-> side_candidate lane_width d_y /\ d_y < 0.
Proof.
  unfold side_of, side_candidate.
  destruct (Qltb (Qabs d_y) (lane_width / 2)) eqn:E1.
  - apply Qltb_lt in E1. split; [discriminate|].
    intros [[H _] _]. exfalso. revert H. apply Qlt_not_le, E1.
  - apply Qltb_ge in E1.
    destruct (Qltb (- (lane_width / 2 + lane_width * 0.8)) d_y) eqn:E2;
      destruct (Qltb d_y 0) eqn:E3; cbn [andb].
    + apply Qltb_lt in E2, E3. split; [intros _|reflexivity].
      rewrite (Qabs_neg d_y) by (apply Qlt_le_weak, E3).
      rewrite (Qabs_neg d_y) in E1 by (apply Qlt_le_weak, E3).
      repeat split; lra.
    + apply Qltb_ge in E3.
      destruct (Qltb 0 d_y && Qltb d_y (lane_width / 2 + lane_width * 0.8));
        (split; [discriminate|]); intros [_ H]; lra.
    + apply Qltb_ge in E2. apply Qltb_lt in E3.
      destruct (Qltb 0 d_y && Qltb d_y (lane_width / 2 + lane_width * 0.8));
        (split; [discriminate|]); intros [[_ H] _];
        rewrite (Qabs_neg d_y) in H by (apply Qlt_le_weak, E3); lra.
    + apply Qltb_ge in E3.
      destruct (Qltb 0 d_y && Qltb d_y (lane_width / 2 + lane_width * 0.8));
        (split; [discriminate|]); intros [_ H]; lra.
Qed.

Lemma side_of_Right (lane_width d_y : Q) :
  side_of lane_width d_y = Right <-> side_candidate lane_width d_y /\ 0 < d_y.
Proof.
  unfold side_of, side_candidate.
  destruct (Qltb (Qabs d_y) (lane_width / 2)) eqn:E1.
  - apply Qltb_lt in E1. split; [discriminate|].
    intros [[H _] _]. exfalso. revert H. apply Qlt_not_le, E1.
  - apply Qltb_ge in E1.
    destruct (Qltb (- (lane_width / 2 + lane_width * 0.8)) d_y && Qltb d_y 0) eqn:E2.
    + apply andb_true_iff in E2. destruct E2 as [_ E2]. apply Qltb_lt in E2.
      split; [discriminate|]. intros [_ H]. lra.
    + destruct (Qltb 0 d_y) eqn:E3; cbn [andb].
      * apply Qltb_lt in E3.
        destruct (Qltb d_y (lane_width / 2 + lane_width * 0.8)) eqn:E4.
        -- apply Qltb_lt in E4. split; [intros _|reflexivity].
           rewrite (Qabs_pos d_y) by (apply Qlt_le_weak, E3).
           rewrite (Qabs_pos d_y) in E1 by (apply Qlt_le_weak, E3).
           repeat split; lra.
        -- apply Qltb_ge in E4. split; [discriminate|]. intros [[_ H] _].
           rewrite (Qabs_pos d_y) in H by (apply Qlt_le_weak, E3). lra.
      * apply Qltb_ge in E3. split; [discriminate|]. intros [_ H]. lra.
Qed.

Section SideFold.
Variables (md : ModelV2.t) (lane_width : Q) (lead_msg : LeadMsg.t).

Lemma set_key_Qeq (k k' : Q) : k' = k \/ Qeq_bool k k' = true -> k' == k.
Proof.
  intros [->|H]; [reflexivity|]. apply Qeq_bool_iff in H. now symmetry.
Qed.

Lemma side_inv_step (done : list Track.t)
    (acc : LeadsByDist * LeadsByDist * LeadsByDist) (c : Track.t) :
  side_inv md lane_width lead_msg done acc -> side_inv md lane_width lead_msg (done ++ [c]) (side_step md lane_width lead_msg acc c).
Proof.
  destruct acc as [[cen lft] rgt]. intros [Hc [Hl [Hr [Cl Cr]]]].
  assert (Hold : forall c', In c' done -> In c' (done ++ [c])).
  { intros c' H. apply in_or_app. now left. }
  assert (Hnew : In c (done ++ [c])).
  { apply in_or_app. right. now left. }
  assert (Hside_l : left_candidate md lane_width c
                    <-> side_of lane_width (side_d_y md c) = Left).
  { unfold left_candidate. now rewrite side_of_Left. }
  assert (Hside_r : right_candidate md lane_width c
                    <-> side_of lane_width (side_d_y md c) = Right).
  { unfold right_candidate. now rewrite side_of_Right. }
  assert (Hc' : forall k ld, In (k, ld) cen ->
            exists c0, In c0 (done ++ [c])
                       /\ ld = Track.get_RadarState2 c0 (LeadMsg.prob lead_msg) lead_msg).
  { intros k ld H. destruct (Hc k ld H) as [c0 [H0 H1]]. exists c0. auto. }
  assert (Hl' : forall k ld, In (k, ld) lft ->
            exists c0, In c0 (done ++ [c]) /\ left_candidate md lane_width c0
                       /\ k == Track.dRel c0 /\ ld = Track.get_RadarState c0 0.0).
  { intros k ld H. destruct (Hl k ld H) as [c0 [H0 H1]]. exists c0. auto. }
  assert (Hr' : forall k ld, In (k, ld) rgt ->
            exists c0, In c0 (done ++ [c]) /\ right_candidate md lane_width c0
                       /\ k == Track.dRel c0 /\ ld = Track.get_RadarState c0 0.0).
  { intros k ld H. destruct (Hr k ld H) as [c0 [H0 H1]]. exists c0. auto. }
  unfold side_step.
  destruct (side_of lane_width (side_d_y md c)) eqn:S; unfold side_inv.
  - (* Center *)
    split; [|split; [exact Hl'|split; [exact Hr'|split]]].
    + intros k ld H. apply dict_set_In_inv in H. destruct H as [H|[-> _]].
      * now apply (Hc' k).
      * exists c. auto.
    + intros c' H Hcand. apply in_app_or in H. destruct H as [H|[<-|[]]].
      * now apply Cl.
      * apply Hside_l in Hcand. congruence.
    + intros c' H Hcand. apply in_app_or in H. destruct H as [H|[<-|[]]].
      * now apply Cr.
      * apply Hside_r in Hcand. congruence.
  - (* Left *)
    split; [exact Hc'|split; [|split; [exact Hr'|split]]].
    + intros k ld H. apply dict_set_In_inv in H. destruct H as [H|[-> Hk]].
      * now apply Hl'.
      * exists c. split; [exact Hnew|]. split; [now apply Hside_l|].
        split; [now apply set_key_Qeq | reflexivity].
    + intros c' H Hcand. apply in_app_or in H. destruct H as [H|[<-|[]]].
      * destruct (Cl c' H Hcand) as [k [Hk1 Hk2]]. exists k.
        split; [now apply dict_set_key_kept | exact Hk2].
      * destruct (dict_set_has Qeq_bool (Track.dRel c) (Track.get_RadarState c 0.0) lft)
          as [k [Hk1 Hk2]].
        exists k. split; [exact Hk1 | now apply set_key_Qeq].
    + intros c' H Hcand. apply in_app_or in H. destruct H as [H|[<-|[]]].
      * now apply Cr.
      * apply Hside_r in Hcand. congruence.
  - (* Right *)
    split; [exact Hc'|split; [exact Hl'|split; [|split]]].
    + intros k ld H. apply dict_set_In_inv in H. destruct H as [H|[-> Hk]].
      * now apply Hr'.
      * exists c. split; [exact Hnew|]. split; [now apply Hside_r|].
        split; [now apply set_key_Qeq | reflexivity].
    + intros c' H Hcand. apply in_app_or in H. destruct H as [H|[<-|[]]].
      * now apply Cl.
      * apply Hside_l in Hcand. congruence.
    + intros c' H Hcand. apply in_app_or in H. destruct H as [H|[<-|[]]].
      * destruct (Cr c' H Hcand) as [k [Hk1 Hk2]]. exists k.
        split; [now apply dict_set_key_kept | exact Hk2].
      * destruct (dict_set_has Qeq_bool (Track.dRel c) (Track.get_RadarState c 0.0) rgt)
          as [k [Hk1 Hk2]].
        exists k. split; [exact Hk1 | now apply set_key_Qeq].
  - (* Outside *)
    split; [exact Hc'|split; [exact Hl'|split; [exact Hr'|split]]].
    + intros c' H Hcand. apply in_app_or in H. destruct H as [H|[<-|[]]].
      * now apply Cl.
      * apply Hside_l in Hcand. congruence.
    + intros c' H Hcand. apply in_app_or in H. destruct H as [H|[<-|[]]].
      * now apply Cr.
      * apply Hside_r in Hcand. congruence.
Qed.

Lemma side_inv_fold (cs : list Track.t) :
  forall (done : list Track.t) (acc : LeadsByDist * LeadsByDist * LeadsByDist),
    side_inv md lane_width lead_msg done acc ->
    side_inv md lane_width lead_msg (done ++ cs) (fold_left (side_step md lane_width lead_msg) cs acc).
Proof.
  induction cs as [|c cs IH]; intros done acc H; simpl.
  - now rewrite app_nil_r.
  - replace (done ++ c :: cs) with ((done ++ [c]) ++ cs)
      by (rewrite <- app_assoc; reflexivity).
    apply IH, side_inv_step, H.
Qed.

Lemma side_inv_loop (cs : list Track.t) :
  side_inv md lane_width lead_msg cs (fold_left (side_step md lane_width lead_msg) cs ([], [], [])).
Proof.
  apply (side_inv_fold cs [] ([], [], [])).
  unfold side_inv. repeat split; intros; contradiction.
Qed.
End SideFold.

(** Writing a key to a dict whose keys are pairwise different. *)
Section DictSetDistinct.
Context {K V : Type} (eqb : K -> K -> bool) (R : K -> K -> Prop).
Context (R_equiv : Equivalence R).
Hypothesis eqb_R : forall a b, eqb a b = true <-> R a b.

Lemma dict_set_keys_InA (k : K) (v : V) (d : list (K * V)) (x : K) :
  InA R x (keys (dict_set eqb k v d)) -> InA R x (keys d) \/ R x k.
Proof.
  induction d as [|[k0 v0] d IH]; simpl.
  - intro H. inversion H as [? ? E|? ? E]; subst; [now right | inversion E].
  - destruct (eqb k k0); simpl; [now left|].
    intro H. inversion H as [? ? E|? ? E]; subst.
    + left. now constructor.
    + destruct (IH E) as [H'|H']; [left; now constructor 2 | now right].
Qed.

Lemma dict_set_NoDupA (k : K) (v : V) (d : list (K * V)) :
  NoDupA R (keys d) -> NoDupA R (keys (dict_set eqb k v d)).
Proof.
  induction d as [|[k0 v0] d IH]; simpl; intro H.
  - constructor; [|constructor]. intro E. inversion E.
  - inversion H as [|? ? Hnot Hd]; subst.
    destruct (eqb k k0) eqn:E; simpl; [now constructor|].
    constructor; [|now apply IH].
    intro Hin. apply dict_set_keys_InA in Hin. destruct Hin as [Hin|Hin]; [tauto|].
    assert (T : eqb k k0 = true) by (apply eqb_R; now symmetry).
    congruence.
Qed.

Lemma dict_set_In_distinct (k : K) (v : V) (d : list (K * V)) (k' : K) (v' : V) :
  NoDupA R (keys d) -> In (k', v') (dict_set eqb k v d) ->
  (In (k', v') d /\ ~ R k k') \/ (v' = v /\ R k k').
Proof.
  induction d as [|[k0 v0] d IH]; simpl; intro H.
  - intros [[= <- <-]|[]]. right. split; reflexivity.
  - inversion H as [|? ? Hnot Hd]; subst.
    destruct (eqb k k0) eqn:E; simpl.
    + apply eqb_R in E. intros [[= <- <-]|Hin].
      * right. now split.
      * left. split; [now right|]. intro E'. apply Hnot.
        apply InA_alt. exists k'. split.
        -- now rewrite <- E.
        -- apply (in_map fst) in Hin. exact Hin.
    + intros [[= <- <-]|Hin].
      * left. split; [now left|]. intro E'. apply eqb_R in E'. congruence.
      * destruct (IH Hd Hin) as [[H1 H2]|H1]; [left; split; [now right | exact H2]|].
        now right.
Qed.
End DictSetDistinct.

Section SideList.
Variable P : Track.t -> Prop.

Lemma last_at_dRel_In (cs : list Track.t) (c : Track.t) :
  last_at_dRel P cs c -> In c cs /\ P c.
Proof.
  intros [Hp [pre [post [-> _]]]]. split; [|exact Hp].
  apply in_or_app. right. now left.
Qed.

Lemma last_at_dRel_snoc (done : list Track.t) (c c0 : Track.t) :
  (P c -> ~ Track.dRel c == Track.dRel c0) ->
  last_at_dRel P done c0 -> last_at_dRel P (done ++ [c]) c0.
Proof.
  intros Hc [Hp [pre [post [-> Hlast]]]]. split; [exact Hp|].
  exists pre, (post ++ [c]). split.
  - rewrite <- app_assoc. reflexivity.
  - intros c' Hin Hp'. apply in_app_or in Hin. destruct Hin as [Hin|[<-|[]]].
    + now apply Hlast.
    + now apply Hc.
Qed.

Lemma side_list_inv_nil : side_list_inv P [] [].
Proof. split; [constructor | intros k ld []]. Qed.

Lemma side_list_inv_keep (done : list Track.t) (d : LeadsByDist) (c : Track.t) :
  ~ P c -> side_list_inv P done d -> side_list_inv P (done ++ [c]) d.
Proof.
  intros Hn [Hd Hrec]. split; [exact Hd|].
  intros k ld Hin. destruct (Hrec k ld Hin) as [c0 [H0 H1]].
  exists c0. split; [|exact H1]. apply last_at_dRel_snoc; [|exact H0].
  intro Hp. contradiction.
Qed.

Lemma side_list_inv_set (done : list Track.t) (d : LeadsByDist) (c : Track.t) :
  P c -> side_list_inv P done d ->
  side_list_inv P (done ++ [c])
                (dict_set Qeq_bool (Track.dRel c) (Track.get_RadarState c 0.0) d).
Proof.
  intros Hp [Hd Hrec]. split.
  - apply (dict_set_NoDupA Qeq_bool Qeq Q_Setoid Qeq_bool_iff). exact Hd.
  - intros k ld Hin.
    apply (dict_set_In_distinct Qeq_bool Qeq Q_Setoid Qeq_bool_iff) in Hin; [|exact Hd].
    destruct Hin as [[Hin Hk]|[-> Hk]].
    + destruct (Hrec k ld Hin) as [c0 [H0 [H1 H2]]].
      exists c0. split; [|now split]. apply last_at_dRel_snoc; [|exact H0].
      intros _ E. apply Hk. now rewrite E, H1.
    + exists c. split; [|split; [now symmetry | reflexivity]].
      split; [exact Hp|]. exists done, []. split; [reflexivity|].
      intros c' [].
Qed.

Lemma side_list_values_NoDupA (done : list Track.t) (d : LeadsByDist) :
  side_list_inv P done d -> NoDupA same_dRel (values d).
Proof.
  intros [Hd Hrec].
  assert (Hkey : forall k ld, In (k, ld) d -> Lead.dRel ld == k).
  { intros k ld Hin. destruct (Hrec k ld Hin) as [c [_ [H1 ->]]].
    cbn [Track.get_RadarState Lead.dRel]. now symmetry. }
  clear Hrec. induction d as [|[k ld] d IH]; simpl; [constructor|].
  simpl in Hd. inversion Hd as [|? ? Hnot Hd']; subst.
  constructor.
  - intro Hin. apply Hnot. apply InA_alt in Hin. destruct Hin as [ld' [E Hin]].
    unfold values in Hin. apply in_map_iff in Hin. destruct Hin as [[k' ld''] [E' Hin]].
    simpl in E'. subst ld''. apply InA_alt. exists k'. split.
    + unfold same_dRel in E.
      rewrite <- (Hkey k ld (or_introl eq_refl)), E.
      apply Hkey. now right.
    + apply (in_map fst) in Hin. exact Hin.
  - apply IH; [exact Hd'|]. intros k' ld' Hin. apply Hkey. now right.
Qed.
End SideList.

Section SideLists.
Variables (md : ModelV2.t) (lane_width : Q) (lead_msg : LeadMsg.t).

Lemma side_lists_step (done : list Track.t)
    (acc : LeadsByDist * LeadsByDist * LeadsByDist) (c : Track.t) :
  side_list_inv (left_candidate md lane_width) done (snd (fst acc))
  /\ side_list_inv (right_candidate md lane_width) done (snd acc) ->
  let acc' := side_step md lane_width lead_msg acc c in
  side_list_inv (left_candidate md lane_width) (done ++ [c]) (snd (fst acc'))
  /\ side_list_inv (right_candidate md lane_width) (done ++ [c]) (snd acc').
Proof.
  destruct acc as [[cen lft] rgt]. cbn [fst snd]. intros [Hl Hr].
  assert (Hside_l : left_candidate md lane_width c
                    <-> side_of lane_width (side_d_y md c) = Left).
  { unfold left_candidate. now rewrite side_of_Left. }
  assert (Hside_r : right_candidate md lane_width c
                    <-> side_of lane_width (side_d_y md c) = Right).
  { unfold right_candidate. now rewrite side_of_Right. }
  unfold side_step.
  destruct (side_of lane_width (side_d_y md c)) eqn:S; cbn [fst snd].
  - split; (apply side_list_inv_keep; [|assumption]); intro H;
      [apply Hside_l in H | apply Hside_r in H]; discriminate.
  - split.
    + apply side_list_inv_set; [now apply Hside_l | exact Hl].
    + apply side_list_inv_keep; [|exact Hr]. intro H. apply Hside_r in H. discriminate.
  - split.
    + apply side_list_inv_keep; [|exact Hl]. intro H. apply Hside_l in H. discriminate.
    + apply side_list_inv_set; [now apply Hside_r | exact Hr].
  - split; (apply side_list_inv_keep; [|assumption]); intro H;
      [apply Hside_l in H | apply Hside_r in H]; discriminate.
Qed.

Lemma side_lists_fold (cs : list Track.t) :
  forall (done : list Track.t) (acc : LeadsByDist * LeadsByDist * LeadsByDist),
    side_list_inv (left_candidate md lane_width) done (snd (fst acc))
    /\ side_list_inv (right_candidate md lane_width) done (snd acc) ->
    let acc' := fold_left (side_step md lane_width lead_msg) cs acc in
    side_list_inv (left_candidate md lane_width) (done ++ cs) (snd (fst acc'))
    /\ side_list_inv (right_candidate md lane_width) (done ++ cs) (snd acc').
Proof.
  induction cs as [|c cs IH]; intros done acc H; simpl.
  - now rewrite app_nil_r.
  - replace (done ++ c :: cs) with ((done ++ [c]) ++ cs)
      by (rewrite <- app_assoc; reflexivity).
    apply IH, side_lists_step, H.
Qed.

Lemma side_lists_loop (cs : list Track.t) :
  let acc := fold_left (side_step md lane_width lead_msg) cs ([], [], []) in
  side_list_inv (left_candidate md lane_width) cs (snd (fst acc))
  /\ side_list_inv (right_candidate md lane_width) cs (snd acc).
Proof.
  apply (side_lists_fold cs [] ([], [], [])).
  split; apply side_list_inv_nil.
Qed.
End SideLists.

Lemma nearest_beyond_5_spec (leads : LeadsByDist) :
  nearest_beyond (values leads) (nearest_beyond_5 leads).
Proof.
  unfold nearest_beyond, nearest_beyond_5.
  set (far := filter (fun lead => Qltb 5.0 (Lead.dRel lead)) (values leads)).
  assert (Hfar : forall ld, In ld far <-> In ld (values leads) /\ 5.0 < Lead.dRel ld).
  { intro ld. unfold far. now rewrite filter_In, Qltb_lt. }
  destruct (min_by Lead.dRel far) as [r|] eqn:E.
  - destruct (min_by_Some _ _ _ E) as [Hin Hle]. apply Hfar in Hin.
    split.
    + intro Hno. exfalso. exact (Hno r (proj1 Hin) (proj2 Hin)).
    + intros _ _ _. split; [tauto|]. split; [tauto|].
      intros ld H1 H2. apply Hle, Hfar. now split.
  - apply min_by_None in E. split; [reflexivity|].
    intros ld0 H1 H2. exfalso.
    assert (H : In ld0 far) by (apply Hfar; now split).
    rewrite E in H. exact H.
Qed.

Lemma get_lead_side_valid (TRAJECTORY_SIZE : nat) (v_ego : Q) (tracks : Tracks)
    (md : ModelV2.t) (lane_width model_v_ego g : Q) (lead_msg : LeadMsg.t)
    (rest : list LeadMsg.t) :
  ModelV2.leadsV3 md = lead_msg :: rest ->
  length (ModelV2.position_x md) = TRAJECTORY_SIZE ->
  exists cen lft rgt sides g',
    fold_left (side_step md lane_width lead_msg) (values tracks) ([], [], [])
    = (cen, lft, rgt)
    /\ get_lead_side TRAJECTORY_SIZE v_ego tracks md lane_width model_v_ego g
       = Ok (sides, g')
    /\ ll sides = values lft /\ lr sides = values rgt
    /\ leadLeft sides = nearest_beyond_5 lft
    /\ leadRight sides = nearest_beyond_5 rgt
    /\ (forall ld, In ld (lc sides) -> In ld (values cen) \/ Lead.radar ld = false).
Proof.
  intros E Hlen. unfold get_lead_side. rewrite E.
  apply Nat.eqb_eq in Hlen. rewrite Hlen.
  destruct (fold_left (side_step md lane_width lead_msg) (values tracks) ([], [], []))
    as [[cen lft] rgt].
  exists cen, lft, rgt.
  destruct (Qltb 0.5 (LeadMsg.prob lead_msg)).
  - cbn [get_RadarState_from_vision fst snd].
    eexists. eexists. split; [reflexivity|]. split; [reflexivity|].
    cbn [ll lr lc leadLeft leadRight]. repeat split.
    intros ld H.
    destruct (min_by _ _) as [k|]; [|contradiction].
    destruct (dict_get Qeq_bool k _) as [ld'|] eqn:G; [|contradiction].
    destruct H as [<-|[]].
    apply dict_get_In, values_In in G. destruct G as [k' G].
    apply dict_set_In_inv in G. destruct G as [G|[-> _]].
    + left. apply values_In. now exists k'.
    + right. reflexivity.
  - eexists. eexists. split; [reflexivity|]. split; [reflexivity|].
    cbn [ll lr lc leadLeft leadRight]. repeat split.
    intros ld H.
    destruct (min_by _ _) as [k|]; [|contradiction].
    destruct (dict_get Qeq_bool k cen) as [ld'|] eqn:G; [|contradiction].
    destruct H as [<-|[]].
    left. eapply dict_get_In, G.
Qed.

(** C7, as the code has it.  With a model path of [TRAJECTORY_SIZE] points:
    the candidates of a side are keyed by [dRel], and a later candidate
    replaces an earlier one at the same distance.  So each left (right)
    candidate Track is represented in the left (right) list by the record of
    the last candidate Track of that side at its [dRel], in the order of the
    Track map; the list holds such records only, and no two of its records
    are at the same distance.  A Track is a candidate when its deviation
    from the planned path is at least half a lane and less than 1.3 lanes
    ([lane_width / 2 + lane_width * 0.8]).  [leadLeft] and [leadRight] are
    the nearest records of their list beyond 5 m, and have [status] false
    when there is none. *)
Theorem side_lead_selection
    (TRAJECTORY_SIZE : nat) (v_ego : Q) (tracks : Tracks) (md : ModelV2.t)
    (lane_width model_v_ego g : Q) (lead_msg : LeadMsg.t) (rest : list LeadMsg.t) :
  ModelV2.leadsV3 md = lead_msg :: rest ->
  length (ModelV2.position_x md) = TRAJECTORY_SIZE ->
  exists (sides : SideLeads) (g' : Q),
    get_lead_side TRAJECTORY_SIZE v_ego tracks md lane_width model_v_ego g
    = Ok (sides, g')
    /\ (forall c, In c (values tracks) -> left_candidate md lane_width c ->
          exists c', last_at_dRel (left_candidate md lane_width) (values tracks) c'
                     /\ In c' (values tracks) /\ left_candidate md lane_width c'
                     /\ Track.dRel c' == Track.dRel c
                     /\ In (Track.get_RadarState c' 0.0) (ll sides))
    /\ (forall ld, In ld (ll sides) ->
          exists c, last_at_dRel (left_candidate md lane_width) (values tracks) c
                    /\ In c (values tracks) /\ left_candidate md lane_width c
                    /\ ld = Track.get_RadarState c 0.0)
    /\ NoDupA same_dRel (ll sides)
    /\ (forall c, In c (values tracks) -> right_candidate md lane_width c ->
          exists c', last_at_dRel (right_candidate md lane_width) (values tracks) c'
                     /\ In c' (values tracks) /\ right_candidate md lane_width c'
                     /\ Track.dRel c' == Track.dRel c
                     /\ In (Track.get_RadarState c' 0.0) (lr sides))
    /\ (forall ld, In ld (lr sides) ->
          exists c, last_at_dRel (right_candidate md lane_width) (values tracks) c
                    /\ In c (values tracks) /\ right_candidate md lane_width c
                    /\ ld = Track.get_RadarState c 0.0)
    /\ NoDupA same_dRel (lr sides)
    /\ nearest_beyond (ll sides) (leadLeft sides)
    /\ nearest_beyond (lr sides) (leadRight sides)
    /\ Lead.status Lead.none = false.
Proof.
  intros E Hlen.
  destruct (get_lead_side_valid TRAJECTORY_SIZE v_ego tracks md lane_width model_v_ego g
              lead_msg rest E Hlen)
    as [cen [lft [rgt [sides [g' [Hfold [Hside [Hll [Hlr [HL [HR _]]]]]]]]]]].
  pose proof (side_inv_loop md lane_width lead_msg (values tracks)) as Inv.
  pose proof (side_lists_loop md lane_width lead_msg (values tracks)) as Inv2.
  cbv zeta in Inv2. rewrite Hfold in Inv, Inv2. cbn [fst snd] in Inv2.
  destruct Inv as [_ [_ [_ [Cl Cr]]]]. destruct Inv2 as [Il Ir].
  exists sides, g'. split; [exact Hside|].
  rewrite Hll, Hlr, HL, HR.
  split.
  { intros c Hc Hcand. destruct (Cl c Hc Hcand) as [k [Hk1 Hk2]].
    apply keys_In in Hk1. destruct Hk1 as [ld Hk1].
    destruct (proj2 Il k ld Hk1) as [c' [H1 [H3 H4]]].
    destruct (last_at_dRel_In _ _ _ H1) as [H5 H6].
    exists c'. split; [exact H1|]. split; [exact H5|]. split; [exact H6|].
    split; [now rewrite <- H3, Hk2|].
    subst ld. apply values_In. now exists k. }
  split.
  { intros ld H. apply values_In in H. destruct H as [k H].
    destruct (proj2 Il k ld H) as [c [H1 [_ H4]]].
    destruct (last_at_dRel_In _ _ _ H1) as [H5 H6]. exists c. auto. }
  split; [exact (side_list_values_NoDupA _ _ _ Il)|].
  split.
  { intros c Hc Hcand. destruct (Cr c Hc Hcand) as [k [Hk1 Hk2]].
    apply keys_In in Hk1. destruct Hk1 as [ld Hk1].
    destruct (proj2 Ir k ld Hk1) as [c' [H1 [H3 H4]]].
    destruct (last_at_dRel_In _ _ _ H1) as [H5 H6].
    exists c'. split; [exact H1|]. split; [exact H5|]. split; [exact H6|].
    split; [now rewrite <- H3, Hk2|].
    subst ld. apply values_In. now exists k. }
  split.
  { intros ld H. apply values_In in H. destruct H as [k H].
    destruct (proj2 Ir k ld H) as [c [H1 [_ H4]]].
    destruct (last_at_dRel_In _ _ _ H1) as [H5 H6]. exists c. auto. }
  split; [exact (side_list_values_NoDupA _ _ _ Ir)|].
  split; [apply nearest_beyond_5_spec|].
  split; [apply nearest_beyond_5_spec | reflexivity].
Qed.

(** A 3.6 m lane and a Track 2.5 m to the right of a straight path: at 20 m
    it is [leadRight]; at 3 m it is listed but not reported. *)
Lemma side_lead_selection_witness :
  let md := sample_md (sample_lead 40 0 10 0) (sample_lead 40 0 10 0) in
  let at20 := sample_track 5 20 (-2.5) 0 10 in
  let at3 := sample_track 5 3 (-2.5) 0 10 in
  (exists sides g',
     get_lead_side 33 10 [(5%Z, at20)] md 3.6 10 1.5 = Ok (sides, g')
     /\ lr sides = [Track.get_RadarState at20 0.0]
     /\ leadRight sides = Track.get_RadarState at20 0.0
     /\ leadLeft sides = Lead.none)
  /\ (exists sides g',
        get_lead_side 33 10 [(5%Z, at3)] md 3.6 10 1.5 = Ok (sides, g')
        /\ lr sides = [Track.get_RadarState at3 0.0]
        /\ leadRight sides = Lead.none).
Proof.
  cbv zeta. split.
  - destruct (side_lead_selection 33 10 [(5%Z, sample_track 5 20 (-2.5) 0 10)]
                (sample_md (sample_lead 40 0 10 0) (sample_lead 40 0 10 0))
                3.6 10 1.5 (sample_lead 40 0 10 0) [sample_lead 40 0 10 0]
                eq_refl eq_refl)
      as [sides [g' [E _]]].
    exists sides, g'. split; [exact E|].
    assert (E' : get_lead_side 33 10 [(5%Z, sample_track 5 20 (-2.5) 0 10)]
                   (sample_md (sample_lead 40 0 10 0) (sample_lead 40 0 10 0))
                   3.6 10 1.5
                 = Ok ({| ll := []; lc := [];
                          lr := [Track.get_RadarState (sample_track 5 20 (-2.5) 0 10) 0.0];
                          leadLeft := Lead.none;
                          leadRight := Track.get_RadarState
                                         (sample_track 5 20 (-2.5) 0 10) 0.0 |}, 1.5))
      by reflexivity.
    rewrite E' in E. injection E as E1 E2. subst sides. repeat split.
  - destruct (side_lead_selection 33 10 [(5%Z, sample_track 5 3 (-2.5) 0 10)]
                (sample_md (sample_lead 40 0 10 0) (sample_lead 40 0 10 0))
                3.6 10 1.5 (sample_lead 40 0 10 0) [sample_lead 40 0 10 0]
                eq_refl eq_refl)
      as [sides [g' [E _]]].
    exists sides, g'. split; [exact E|].
    assert (E' : get_lead_side 33 10 [(5%Z, sample_track 5 3 (-2.5) 0 10)]
                   (sample_md (sample_lead 40 0 10 0) (sample_lead 40 0 10 0))
                   3.6 10 1.5
                 = Ok ({| ll := []; lc := [];
                          lr := [Track.get_RadarState (sample_track 5 3 (-2.5) 0 10) 0.0];
                          leadLeft := Lead.none;
                          leadRight := Lead.none |}, 1.5))
      by reflexivity.
    rewrite E' in E. injection E as E1 E2. subst sides. repeat split.
Defined.

(** C7, as stated, fails.  With a 3.6 m lane, a Track 5 m to the right of
    the path lies strictly between half a lane (1.8 m) and 1.8 lanes
    (6.48 m), yet it is no right candidate: the band ends at 1.3 lanes
    (4.68 m).  And of two right candidates at the same [dRel] only the later
    one is in the list. *)
Lemma side_band_not_as_stated :
  let md := sample_md (sample_lead 40 0 10 0) (sample_lead 40 0 10 0) in
  let wide := sample_track 5 20 (-5) 0 10 in
  let first := sample_track 5 20 (-2.5) 0 10 in
  let second := sample_track 6 20 (-3) 0 10 in
  (3.6 / 2 < Qabs (side_d_y md wide) /\ Qabs (side_d_y md wide) < 1.8 * 3.6
   /\ 0 < side_d_y md wide
   /\ get_lead_side 33 10 [(5%Z, wide)] md 3.6 10 1.5
      = Ok ({| ll := []; lc := []; lr := [];
               leadLeft := Lead.none; leadRight := Lead.none |}, 1.5))
  /\ (right_candidate md 3.6 first /\ right_candidate md 3.6 second
      /\ get_lead_side 33 10 [(5%Z, first); (6%Z, second)] md 3.6 10 1.5
         = Ok ({| ll := []; lc := [];
                  lr := [Track.get_RadarState second 0.0];
                  leadLeft := Lead.none;
                  leadRight := Track.get_RadarState second 0.0 |}, 1.5)).
Proof.
  cbv zeta. split.
  - repeat split.
  - split; [|split]; [| |reflexivity];
      (apply (proj1 (side_of_Right _ _)); reflexivity).
Qed.

(** ** Where a radar record comes from *)

Lemma values_filter (f : Z * Track.t -> bool) (tracks : Tracks) (c : Track.t) :
  In c (values (filter f tracks)) -> In c (values tracks).
Proof.
  unfold values. rewrite !in_map_iff. intros [item [E H]].
  apply filter_In in H. exists item. tauto.
Qed.

Lemma nearest_In (tracks : Tracks) (c : Track.t) :
  nearest tracks = Some c -> In c (values tracks).
Proof.
  unfold nearest. destruct (min_by _ tracks) as [item|] eqn:E; [|discriminate].
  intros [= <-]. apply min_by_Some in E. apply (in_map snd), E.
Qed.

Lemma fastest_In (tracks : Tracks) (c : Track.t) :
  fastest tracks = Some c -> In c (values tracks).
Proof.
  unfold fastest. destruct (max_by _ tracks) as [item|] eqn:E; [|discriminate].
  intros [= <-]. apply max_by_Some in E. apply (in_map snd), E.
Qed.

Lemma match_vision_track_apilot_In (TRAJECTORY_SIZE : nat) (v_ego : Q)
    (lead_msg : LeadMsg.t) (tracks : Tracks) (md : ModelV2.t) (lane_width : Q)
    (c : Track.t) :
  match_vision_track_apilot TRAJECTORY_SIZE v_ego lead_msg tracks md lane_width = Some c ->
  In c (values tracks).
Proof.
  unfold match_vision_track_apilot, tracks_center.
  assert (Hscc : dict_get Z.eqb 0%Z tracks = Some c -> In c (values tracks))
    by apply dict_get_In.
  destruct (0 <? length tracks)%nat; [|exact Hscc].
  destruct (length (ModelV2.position_x md) =? TRAJECTORY_SIZE)%nat; [|exact Hscc].
  destruct (Qltb 0.5 (LeadMsg.prob lead_msg)).
  - destruct (nearest _) as [t|] eqn:N1.
    + intros [= <-]. apply nearest_In in N1. now do 2 apply values_filter in N1.
    + destruct (fastest _) as [t|] eqn:N2.
      * intros [= <-]. apply fastest_In in N2. now do 2 apply values_filter in N2.
      * destruct (dict_get Z.eqb 0%Z tracks) as [scc|] eqn:G; [|discriminate].
        destruct (Qltb _ _); [discriminate|].
        intros [= <-]. eapply dict_get_In, G.
  - destruct (nearest _) as [t|] eqn:N1.
    + intros [= <-]. apply nearest_In in N1. now do 2 apply values_filter in N1.
    + exact Hscc.
Qed.

Lemma low_speed_lead_radar (v_ego : Q) (tracks : Tracks) (lead_msg : LeadMsg.t)
    (lead_dict : Lead.t) :
  low_speed_lead v_ego tracks lead_msg lead_dict = lead_dict
  \/ exists c, In c (values tracks)
               /\ low_speed_lead v_ego tracks lead_msg lead_dict
                  = Track.get_RadarState2 c (LeadMsg.prob lead_msg) lead_msg.
Proof.
  unfold low_speed_lead.
  destruct (min_by _ _) as [closest|] eqn:E; [|now left].
  destruct (_ || _); [|now left].
  right. exists closest. split; [|reflexivity].
  apply min_by_Some in E. destruct E as [E _]. now apply filter_In in E.
Qed.

(** C10.  [get_RadarState2] publishes the Track's own [yRel] when that is
    nonzero and [-lead.y[0]] of the vision lead when it is exactly 0; every
    other kinematic field of the record is the Track's.  The radar records
    of [get_lead] (its low-speed override included), of [get_lead_apilot]
    and of the center list of [get_lead_side] are all built that way, from a
    Track of the map and the call's vision lead. *)
Theorem get_RadarState2_yRel_substitution (exp : Q -> Q) (TRAJECTORY_SIZE : nat) :
  (forall (self : Track.t) (model_prob : Q) (lead_msg : LeadMsg.t),
     let r := Track.get_RadarState2 self model_prob lead_msg in
     (~ Track.yRel self == 0 -> Lead.yRel r = Track.yRel self)
     /\ (Track.yRel self == 0 -> Lead.yRel r = - LeadMsg.y lead_msg)
     /\ Lead.dRel r = Track.dRel self /\ Lead.vRel r = Track.vRel self
     /\ Lead.vLead r = Track.vLead self /\ Lead.vLeadK r = Track.vLeadK self
     /\ Lead.aLeadK r = Track.aLeadK self /\ Lead.aLeadTau r = Track.aLeadTau self
     /\ Lead.aRel r = Track.aRel self /\ Lead.vLat r = Track.vLat self
     /\ Lead.radarTrackId r = Track.identifier self
     /\ Lead.status r = true /\ Lead.radar r = true)
  /\ (forall v_ego ready tracks lead_msg model_v_ego low_speed_override g ld g',
        get_lead exp v_ego ready tracks lead_msg model_v_ego low_speed_override g
        = Ok (ld, g') ->
        Lead.radar ld = true ->
        exists c, In c (values tracks)
                  /\ ld = Track.get_RadarState2 c (LeadMsg.prob lead_msg) lead_msg)
  /\ (forall v_ego ready tracks lead_msg model_v_ego md lane_width g ld g',
        get_lead_apilot TRAJECTORY_SIZE v_ego ready tracks lead_msg model_v_ego md
                        lane_width g
        = (ld, g') ->
        Lead.radar ld = true ->
        exists c, In c (values tracks)
                  /\ ld = Track.get_RadarState2 c (LeadMsg.prob lead_msg) lead_msg)
  /\ (forall v_ego tracks md lane_width model_v_ego g sides g' lead_msg rest,
        ModelV2.leadsV3 md = lead_msg :: rest ->
        get_lead_side TRAJECTORY_SIZE v_ego tracks md lane_width model_v_ego g
        = Ok (sides, g') ->
        forall ld, In ld (lc sides) -> Lead.radar ld = true ->
        exists c, In c (values tracks)
                  /\ ld = Track.get_RadarState2 c (LeadMsg.prob lead_msg) lead_msg).
Proof.
  split.
  { intros self model_prob lead_msg r. subst r. cbn.
    split.
    - intro H. rewrite <- Qeq_bool_iff in H. apply not_true_is_false in H.
      now rewrite H.
    - split; [|repeat split].
      intro H. apply Qeq_bool_iff in H. now rewrite H. }
  split.
  { intros v_ego ready tracks lead_msg model_v_ego lso g ld g' E Hr.
    destruct (get_lead_track_Ok exp v_ego ready tracks lead_msg) as [track [Ht Hin]].
    rewrite (get_lead_unfold _ _ _ _ _ model_v_ego lso g _ Ht) in E.
    cbv zeta in E. injection E as E1 E2.
    set (pre := match track with
                | Some track =>
                    (Track.get_RadarState2 track (LeadMsg.prob lead_msg) lead_msg,
                     _LEAD_ACCEL_TAU)
                | None =>
                    if ready && Qltb 0.5 (LeadMsg.prob lead_msg)
                    then get_RadarState_from_vision lead_msg v_ego model_v_ego g
                    else (Lead.none, g)
                end) in *.
    assert (Hpre : Lead.radar (fst pre) = true ->
                   exists c, In c (values tracks)
                             /\ fst pre
                                = Track.get_RadarState2 c (LeadMsg.prob lead_msg) lead_msg).
    { subst pre. destruct track as [c|].
      - intros _. exists c. split; [now apply Hin | reflexivity].
      - destruct (ready && Qltb 0.5 (LeadMsg.prob lead_msg)); cbn; discriminate. }
    destruct lso.
    - destruct (low_speed_lead_radar v_ego tracks lead_msg (fst pre)) as [L|[c [Hc L]]].
      + rewrite L in E1. subst ld. now apply Hpre.
      + rewrite L in E1. subst ld. now exists c.
    - subst ld. now apply Hpre. }
  split.
  { intros v_ego ready tracks lead_msg model_v_ego md lane_width g ld g'.
    unfold get_lead_apilot.
    destruct (if (0 <? length tracks)%nat && ready
              then match_vision_track_apilot TRAJECTORY_SIZE v_ego lead_msg tracks md
                                             lane_width
              else None) as [c|] eqn:M.
    - intros [= <- <-] _. exists c. split; [|reflexivity].
      destruct (_ && _); [|discriminate].
      eapply match_vision_track_apilot_In, M.
    - destruct (Qltb 0.5 (LeadMsg.prob lead_msg)); intros [= <- <-]; cbn; discriminate. }
  intros v_ego tracks md lane_width model_v_ego g sides g' lead_msg rest E Hside ld Hld Hr.
  destruct (Nat.eq_dec (length (ModelV2.position_x md)) TRAJECTORY_SIZE) as [Hlen|Hlen].
  - destruct (get_lead_side_valid TRAJECTORY_SIZE v_ego tracks md lane_width model_v_ego g
                lead_msg rest E Hlen)
      as [cen [lft [rgt [sides0 [g0 [Hfold [Hside0 [_ [_ [_ [_ Hlc]]]]]]]]]]].
    rewrite Hside0 in Hside. injection Hside as -> ->.
    destruct (Hlc ld Hld) as [H|H]; [|congruence].
    pose proof (side_inv_loop md lane_width lead_msg (values tracks)) as Inv.
    rewrite Hfold in Inv. destruct Inv as [Ic _].
    apply values_In in H. destruct H as [k H]. exact (Ic k ld H).
  - unfold get_lead_side in Hside. rewrite E in Hside.
    apply Nat.eqb_neq in Hlen. rewrite Hlen in Hside.
    injection Hside as <- <-. contradiction.
Qed.

(** * Further properties of the code *)

(** ** Interpolated tables *)

Lemma chord_bounds (x x0 x1 f0 f1 lo hi : Q) :
  x0 < x -> x <= x1 -> lo <= f0 <= hi -> lo <= f1 <= hi ->
  lo <= (x - x0) * (f1 - f0) / (x1 - x0) + f0 <= hi.
Proof.
  intros H0 H1 [Hl0 Hh0] [Hl1 Hh1].
  assert (Hd : 0 < x1 - x0) by lra.
  set (t := (x - x0) / (x1 - x0)).
  assert (Ht0 : 0 <= t) by (unfold t; apply Qle_shift_div_l; lra).
  assert (Ht1 : t <= 1) by (unfold t; apply Qle_shift_div_r; lra).
  assert (E : (x - x0) * (f1 - f0) / (x1 - x0) + f0 == f0 + t * (f1 - f0))
    by (unfold t; field; lra).
  rewrite E. split; nra.
Qed.

Lemma interp_from_bounds (x lo hi : Q) (xp : list Q) :
  forall (x0 f0 : Q) (fp : list Q),
    x0 < x -> lo <= f0 <= hi -> Forall (fun f => lo <= f <= hi) fp ->
    lo <= interp_from x x0 f0 xp fp <= hi.
Proof.
  induction xp as [|x1 xp IH]; intros x0 f0 fp Hx H0 Hfp; simpl; [exact H0|].
  destruct fp as [|f1 fp]; [exact H0|].
  inversion Hfp as [|? ? H1 Hfp']; subst.
  destruct (Qle_bool x x1) eqn:E.
  - apply Qle_bool_iff in E. now apply chord_bounds.
  - apply IH; [|exact H1|exact Hfp'].
    apply Qnot_le_lt. rewrite <- Qle_bool_iff. congruence.
Qed.

Lemma interp_bounds (x lo hi : Q) (xp fp : list Q) :
  xp <> [] -> fp <> [] -> Forall (fun f => lo <= f <= hi) fp ->
  lo <= interp x xp fp <= hi.
Proof.
  destruct xp as [|x0 xp]; [congruence|]. destruct fp as [|f0 fp]; [congruence|].
  intros _ _ Hfp. inversion Hfp as [|? ? H0 Hfp']; subst. simpl.
  destruct (Qle_bool x x0) eqn:E; [exact H0|].
  apply interp_from_bounds; [|exact H0|exact Hfp'].
  apply Qnot_le_lt. rewrite <- Qle_bool_iff. congruence.
Qed.

(** ** [KalmanParams] and [RadarD.__init__] *)

Lemma kalman_init_cases (dt : Q) :
  (0.01 < dt /\ dt < 0.2
   /\ KalmanParams.init dt
      = Ok {| KalmanParams.A := ((1, dt), (0, 1)); KalmanParams.C := (1, 0);
              KalmanParams.K := (interp dt KalmanParams.dts KalmanParams.K0,
                                 interp dt KalmanParams.dts KalmanParams.K1) |})
  \/ ((dt <= 0.01 \/ 0.2 <= dt) /\ KalmanParams.init dt = Raise AssertionError).
Proof.
  unfold KalmanParams.init.
  destruct (Qltb 0.01 dt) eqn:E1; [destruct (Qltb dt 0.2) eqn:E2|]; cbn [andb].
  - left. apply Qltb_lt in E1, E2. auto.
  - right. apply Qltb_ge in E2. auto.
  - right. apply Qltb_ge in E1. auto.
Qed.

(** X1.  [KalmanParams(dt)] raises its assertion exactly when [dt] is not
    strictly between 0.01 and 0.2.  Otherwise it returns the
    constant-velocity matrices [A = [[1, dt], [0, 1]]], [C = [1, 0]] and a
    gain whose two components lie within the range of their lookup tables:
    [K0] in [0.12287673, 0.36200124] and [K1] in [0.26278425, 0.29666309].
    [RadarD(radar_ts, delay)] raises in the same cases and otherwise starts
    with no Track, no radar state, not ready, and a speed history [[0]] of
    capacity [delay + 1]. *)
Theorem kalman_params_range (dt : Q) (delay : nat) :
  (KalmanParams.init dt = Raise AssertionError <-> dt <= 0.01 \/ 0.2 <= dt)
  /\ (RadarD.init dt delay = Raise AssertionError <-> dt <= 0.01 \/ 0.2 <= dt)
  /\ (0.01 < dt /\ dt < 0.2 ->
      exists kp rd,
        KalmanParams.init dt = Ok kp
        /\ KalmanParams.A kp = ((1, dt), (0, 1))
        /\ KalmanParams.C kp = (1, 0)
        /\ 0.12287673 <= fst (KalmanParams.K kp) <= 0.36200124
        /\ 0.26278425 <= snd (KalmanParams.K kp) <= 0.29666309
        /\ RadarD.init dt delay = Ok rd
        /\ RadarD.kalman_params rd = kp
        /\ RadarD.tracks rd = [] /\ RadarD.radar_state rd = None
        /\ RadarD.ready rd = false
        /\ RadarD.v_ego_hist rd = [0] /\ RadarD.maxlen rd = (delay + 1)%nat
        /\ RadarD.radar_ts rd = dt).
Proof.
  unfold RadarD.init.
  destruct (kalman_init_cases dt) as [[H1 [H2 E]]|[H E]]; rewrite E; cbn [bind].
  - split; [split; [discriminate | lra]|].
    split; [split; [discriminate | lra]|].
    intros _. eexists. eexists. split; [reflexivity|].
    cbn [KalmanParams.A KalmanParams.C KalmanParams.K fst snd RadarD.kalman_params
         RadarD.tracks RadarD.radar_state RadarD.ready RadarD.v_ego_hist RadarD.maxlen
         RadarD.radar_ts].
    split; [reflexivity|]. split; [reflexivity|].
    split.
    { apply interp_bounds; [discriminate | discriminate |].
      unfold KalmanParams.K0. repeat constructor; cbn; discriminate. }
    split.
    { apply interp_bounds; [discriminate | discriminate |].
      unfold KalmanParams.K1. repeat constructor; cbn; discriminate. }
    repeat split.
  - split; [tauto|]. split; [tauto|]. intros [H1 H2]. lra.
Qed.

(** ** [Track.update], every call *)

(** X2.  Whatever the Track held, [update] stores the measurement verbatim
    in the raw fields, keeps the identity, the sample interval and the
    Kalman parameters, and publishes as filtered values the states of its
    two filters.  [cnt] counts the updates since the last discontinuity: it
    becomes 1 on a discontinuity and grows by one otherwise.  [aLeadTau]
    becomes the configured value when the filtered acceleration is below
    [aLeadTauStart] in size and shrinks by a tenth otherwise. *)
Theorem track_update_bookkeeping
    (self : Track.t) (d_rel y_rel v_rel v_lead : Q) (measured : bool)
    (a_rel aLeadTau aLeadTauStart a_ego : Q) :
  let self' := Track.update self d_rel y_rel v_rel v_lead measured a_rel
                            aLeadTau aLeadTauStart a_ego in
  (Track.dRel self' = d_rel /\ Track.yRel self' = y_rel /\ Track.vRel self' = v_rel
   /\ Track.aRel self' = a_rel /\ Track.vLead self' = v_lead
   /\ Track.measured self' = measured)
  /\ (Track.identifier self' = Track.identifier self
      /\ Track.radar_ts self' = Track.radar_ts self
      /\ Track.K_A self' = Track.K_A self /\ Track.K_C self' = Track.K_C self
      /\ Track.K_K self' = Track.K_K self)
  /\ (Track.vLeadK self' = KF1D.x0_0 (Track.kf self')
      /\ Track.aLeadK self' = KF1D.x1_0 (Track.kf self')
      /\ Track.vLat self' = KF1D.x1_0 (Track.kf_y self'))
  /\ Track.cnt self'
     = (if Track.discontinuity self d_rel v_rel then 1%nat else S (Track.cnt self))
  /\ (1 <= Track.cnt self')%nat
  /\ (Qabs (Track.aLeadK self') < aLeadTauStart -> Track.aLeadTau self' = aLeadTau)
  /\ (aLeadTauStart <= Qabs (Track.aLeadK self') ->
      Track.aLeadTau self' = Track.aLeadTau self * 0.9).
Proof.
  cbv zeta. unfold Track.update, Track.reseed.
  destruct (Track.discontinuity self d_rel v_rel);
    cbn [Track.derive Track.measure Track.cnt Track.kf Track.kf_y Track.vLeadK
         Track.aLeadK Track.vLat Track.K_A Track.K_C Track.K_K Track.dRel Track.yRel
         Track.vRel Track.aRel Track.vLead Track.measured Track.identifier
         Track.radar_ts Track.aLeadTau];
    (repeat split; try lia;
     [ intro H; apply Qltb_lt in H; now rewrite H
     | intro H; apply Qltb_ge in H; now rewrite H ]).
Qed.

(** ** The Track map across a cycle: order and content *)

Section DictLookupFacts.
Context {K V : Type} (eqb : K -> K -> bool).
Hypothesis eqb_eq : forall a b, eqb a b = true <-> a = b.

Lemma eqb_refl_true (k : K) : eqb k k = true.
Proof. now apply eqb_eq. Qed.

Lemma eqb_neq_false (k k' : K) : k <> k' -> eqb k k' = false.
Proof.
  intro H. destruct (eqb k k') eqn:E; [|reflexivity]. apply eqb_eq in E. contradiction.
Qed.

Lemma dict_get_set_same (k : K) (v : V) (d : list (K * V)) :
  dict_get eqb k (dict_set eqb k v d) = Some v.
Proof.
  induction d as [|[k0 v0] d IH]; simpl.
  - now rewrite eqb_refl_true.
  - destruct (eqb k k0) eqn:E; simpl; rewrite E; [reflexivity | exact IH].
Qed.

Lemma dict_get_set_other (k k' : K) (v : V) (d : list (K * V)) :
  k' <> k -> dict_get eqb k' (dict_set eqb k v d) = dict_get eqb k' d.
Proof.
  intro Hne. induction d as [|[k0 v0] d IH]; simpl.
  - now rewrite (eqb_neq_false k' k Hne).
  - destruct (eqb k k0) eqn:E; simpl.
    + apply eqb_eq in E. subst k0. now rewrite (eqb_neq_false k' k Hne).
    + now rewrite IH.
Qed.

Lemma dict_set_keys_list (k : K) (v : V) (d : list (K * V)) :
  keys (dict_set eqb k v d) = if dict_mem eqb k d then keys d else keys d ++ [k].
Proof.
  unfold dict_mem. induction d as [|[k0 v0] d IH]; simpl; [reflexivity|].
  destruct (eqb k k0); simpl; [reflexivity|].
  rewrite IH. now destruct (existsb _ d).
Qed.

Lemma dict_get_filter (f : K -> bool) (k : K) (d : list (K * V)) :
  dict_get eqb k (filter (fun kv => f (fst kv)) d) = if f k then dict_get eqb k d else None.
Proof.
  induction d as [|[k0 v0] d IH]; simpl; [now destruct (f k)|].
  destruct (eqb k k0) eqn:E.
  - apply eqb_eq in E. subst k0. destruct (f k) eqn:F; simpl.
    + now rewrite eqb_refl_true.
    + rewrite IH. now try rewrite F.
  - destruct (f k0); simpl; [rewrite E|]; exact IH.
Qed.

Lemma keys_filter (f : K -> bool) (d : list (K * V)) :
  keys (filter (fun kv => f (fst kv)) d) = filter f (keys d).
Proof.
  induction d as [|[k0 v0] d IH]; simpl; [reflexivity|].
  destruct (f k0); simpl; now rewrite IH.
Qed.

Lemma dict_mem_filter (f : K -> bool) (k : K) (d : list (K * V)) :
  dict_mem eqb k (filter (fun kv => f (fst kv)) d) = f k && dict_mem eqb k d.
Proof.
  unfold dict_mem. induction d as [|[k0 v0] d IH]; simpl; [now rewrite andb_false_r|].
  destruct (eqb k k0) eqn:E.
  - apply eqb_eq in E. subst k0. destruct (f k) eqn:F; simpl.
    + now rewrite eqb_refl_true.
    + rewrite IH. now try rewrite F.
  - destruct (f k0); simpl; [rewrite E|]; exact IH.
Qed.
End DictLookupFacts.

Lemma filter_all {A : Type} (f : A -> bool) (l : list A) :
  (forall x, In x l -> f x = true) -> filter f l = l.
Proof.
  induction l as [|x l IH]; simpl; intro H; [reflexivity|].
  rewrite (H x (or_introl eq_refl)). f_equal. apply IH. auto.
Qed.

Lemma filter_twice {A : Type} (f g : A -> bool) (l : list A) :
  filter g (filter f l) = filter (fun x => f x && g x) l.
Proof.
  induction l as [|x l IH]; simpl; [reflexivity|].
  destruct (f x); simpl; [destruct (g x)|]; now rewrite IH.
Qed.

Lemma remove_fold_filter (ar_pts : list (Z * RadarPoint.t)) (ks : list Z) :
  forall tracks : Tracks,
    fold_left (fun tracks ids => if dict_mem Z.eqb ids ar_pts then tracks
                                 else dict_pop Z.eqb ids tracks)
              ks tracks
    = filter (fun kv => forallb (fun k => dict_mem Z.eqb k ar_pts || negb (k =? fst kv)%Z) ks)
             tracks.
Proof.
  induction ks as [|k ks IH]; intro tracks; simpl.
  - symmetry. now apply filter_all.
  - rewrite IH. destruct (dict_mem Z.eqb k ar_pts); cbn [orb andb]; [reflexivity|].
    unfold dict_pop. apply filter_twice.
Qed.

Lemma remove_missing_filter (ar_pts : list (Z * RadarPoint.t)) (tracks : Tracks) :
  RadarD.remove_missing ar_pts tracks
  = filter (fun kv => dict_mem Z.eqb (fst kv) ar_pts) tracks.
Proof.
  unfold RadarD.remove_missing. rewrite remove_fold_filter.
  apply filter_ext_in. intros [k0 c] Hin. cbn [fst].
  destruct (dict_mem Z.eqb k0 ar_pts) eqn:M.
  - apply forallb_forall. intros k _.
    destruct (Z.eqb_spec k k0) as [->|Hne]; [now rewrite M | now rewrite orb_true_r].
  - apply not_true_is_false. rewrite forallb_forall. intro H.
    assert (Hk : In k0 (keys tracks)) by (apply (in_map fst) in Hin; exact Hin).
    specialize (H k0 Hk). rewrite M, Z.eqb_refl in H. discriminate.
Qed.

Lemma compute_fold_keys_list (self : RadarD.t) (ar_pts : list (Z * RadarPoint.t)) :
  NoDup (keys ar_pts) ->
  forall tracks : Tracks,
    keys (fold_left (RadarD.compute_track self) ar_pts tracks)
    = keys tracks ++ filter (fun k => negb (dict_mem Z.eqb k tracks)) (keys ar_pts).
Proof.
  induction ar_pts as [|[k pt] ar_pts IH]; intros Hnd tracks.
  - simpl. now rewrite app_nil_r.
  - inversion Hnd as [|? ? Hk Hnd']; subst.
    cbn [fold_left]. rewrite (IH Hnd').
    assert (E : filter (fun k' => negb (dict_mem Z.eqb k'
                  (RadarD.compute_track self tracks (k, pt)))) (keys ar_pts)
                = filter (fun k' => negb (dict_mem Z.eqb k' tracks)) (keys ar_pts)).
    { apply filter_ext_in. intros k' Hk'. f_equal.
      apply eq_true_iff_eq. rewrite !(dict_mem_In Z.eqb Z_eqb_eq), compute_track_keys.
      cbn [fst]. split; [intros [->|H]; [contradiction | exact H] | auto]. }
    rewrite E.
    assert (Ek : keys (RadarD.compute_track self tracks (k, pt))
                 = if dict_mem Z.eqb k tracks then keys tracks else keys tracks ++ [k]).
    { unfold RadarD.compute_track. apply (dict_set_keys_list Z.eqb). }
    rewrite Ek.
    change (keys ((k, pt) :: ar_pts)) with (k :: keys ar_pts). cbn [filter].
    destruct (dict_mem Z.eqb k tracks); cbn [negb]; [reflexivity|].
    now rewrite <- app_assoc.
Qed.

Lemma ar_pts_of_NoDup (pts : list RadarPoint.t) : NoDup (keys (RadarD.ar_pts_of pts)).
Proof. unfold RadarD.ar_pts_of. apply ar_pts_fold_NoDup. constructor. Qed.

Lemma ar_pts_fold_distinct (pts : list RadarPoint.t) :
  forall acc : list (Z * RadarPoint.t),
    NoDup (keys acc ++ map RadarPoint.trackId pts) ->
    fold_left (fun ar_pts pt => dict_set Z.eqb (RadarPoint.trackId pt) pt ar_pts) pts acc
    = acc ++ map (fun pt => (RadarPoint.trackId pt, pt)) pts.
Proof.
  induction pts as [|pt pts IH]; intros acc H; simpl.
  - now rewrite app_nil_r.
  - assert (Hnew : dict_set Z.eqb (RadarPoint.trackId pt) pt acc
                   = acc ++ [(RadarPoint.trackId pt, pt)]).
    { apply NoDup_remove_2 in H.
      assert (Hk : ~ In (RadarPoint.trackId pt) (keys acc)).
      { intro Hin. apply H, in_or_app. now left. }
      clear - Hk. induction acc as [|[k0 v0] acc IH]; simpl; [reflexivity|].
      destruct (Z.eqb_spec (RadarPoint.trackId pt) k0) as [E|E].
      - exfalso. apply Hk. left. now symmetry.
      - f_equal. apply IH. intro Hin. apply Hk. now right. }
    rewrite Hnew, IH.
    + now rewrite <- app_assoc.
    + unfold keys. rewrite map_app. cbn [map fst]. rewrite <- app_assoc. exact H.
Qed.

(** X3.  The order of the Track map after a cycle, which is the order in
    which every selection loop meets the Tracks: the surviving Tracks in
    their previous order, then the Tracks of new ids in the order these ids
    entered [ar_pts].  [ar_pts] has each reported id once, and when the
    radar points carry distinct ids it is the point list itself. *)
Theorem update_tracks_order (self : RadarD.t) (rr : option RadarData) :
  let ar_pts := RadarD.ar_pts_of (RadarD.radar_points rr) in
  keys (RadarD.update_tracks self rr)
  = filter (fun k => dict_mem Z.eqb k ar_pts) (keys (RadarD.tracks self))
    ++ filter (fun k => negb (dict_mem Z.eqb k (RadarD.tracks self))) (keys ar_pts)
  /\ NoDup (keys ar_pts)
  /\ (forall id, In id (keys ar_pts)
                 <-> In id (map RadarPoint.trackId (RadarD.radar_points rr)))
  /\ (NoDup (map RadarPoint.trackId (RadarD.radar_points rr)) ->
      keys ar_pts = map RadarPoint.trackId (RadarD.radar_points rr)).
Proof.
  cbv zeta. split; [|split; [apply ar_pts_of_NoDup|split; [apply ar_pts_of_keys|]]].
  - unfold RadarD.update_tracks.
    rewrite (compute_fold_keys_list self _ (ar_pts_of_NoDup _)), remove_missing_filter.
    rewrite (keys_filter (fun k => dict_mem Z.eqb k _)). f_equal.
    apply filter_ext_in. intros k Hk. f_equal.
    rewrite (dict_mem_filter Z.eqb Z_eqb_eq (fun k => dict_mem Z.eqb k _)).
    apply (dict_mem_In Z.eqb Z_eqb_eq) in Hk. now rewrite Hk.
  - intro Hnd. unfold RadarD.ar_pts_of.
    rewrite (ar_pts_fold_distinct _ [] Hnd). cbn [app].
    unfold keys. rewrite map_map. reflexivity.
Qed.

Lemma find_snoc {A : Type} (f : A -> bool) (l : list A) (x : A) :
  find f (l ++ [x])
  = match find f l with
    | Some y => Some y
    | None => if f x then Some x else None
    end.
Proof.
  induction l as [|y l IH]; simpl; [reflexivity|].
  destruct (f y); [reflexivity | exact IH].
Qed.

Lemma dict_get_notin {K V : Type} (eqb : K -> K -> bool) (k : K) (d : list (K * V)) :
  (forall a b, eqb a b = true <-> a = b) -> ~ In k (keys d) -> dict_get eqb k d = None.
Proof.
  intros eqb_eq. induction d as [|[k0 v0] d IH]; simpl; intro H; [reflexivity|].
  destruct (eqb k k0) eqn:E.
  - apply eqb_eq in E. exfalso. apply H. left. now symmetry.
  - apply IH. tauto.
Qed.

Lemma ar_pts_fold_get (id : Z) (pts : list RadarPoint.t) :
  forall acc : list (Z * RadarPoint.t),
    dict_get Z.eqb id
      (fold_left (fun ar_pts pt => dict_set Z.eqb (RadarPoint.trackId pt) pt ar_pts) pts acc)
    = match find (fun pt => (RadarPoint.trackId pt =? id)%Z) (rev pts) with
      | Some pt => Some pt
      | None => dict_get Z.eqb id acc
      end.
Proof.
  induction pts as [|pt pts IH]; intro acc; simpl; [reflexivity|].
  rewrite IH, find_snoc.
  destruct (find _ (rev pts)); [reflexivity|].
  destruct (Z.eqb_spec (RadarPoint.trackId pt) id) as [E|E].
  - subst id. apply (dict_get_set_same Z.eqb Z_eqb_eq).
  - apply (dict_get_set_other Z.eqb Z_eqb_eq). congruence.
Qed.

Lemma ar_pts_of_get (id : Z) (pts : list RadarPoint.t) :
  dict_get Z.eqb id (RadarD.ar_pts_of pts)
  = find (fun pt => (RadarPoint.trackId pt =? id)%Z) (rev pts).
Proof.
  unfold RadarD.ar_pts_of. rewrite ar_pts_fold_get. now destruct (find _ _).
Qed.

Lemma compute_track_set (self : RadarD.t) (tracks : Tracks) (ids : Z) (rpt : RadarPoint.t) :
  RadarD.compute_track self tracks (ids, rpt)
  = dict_set Z.eqb ids (cycle_track self tracks ids rpt) tracks.
Proof. reflexivity. Qed.

Lemma compute_fold_get (self : RadarD.t) (id : Z) (ar_pts : list (Z * RadarPoint.t)) :
  NoDup (keys ar_pts) ->
  forall tracks : Tracks,
    dict_get Z.eqb id (fold_left (RadarD.compute_track self) ar_pts tracks)
    = match dict_get Z.eqb id ar_pts with
      | Some rpt => Some (cycle_track self tracks id rpt)
      | None => dict_get Z.eqb id tracks
      end.
Proof.
  induction ar_pts as [|[k rpt] ar_pts IH]; intros Hnd tracks; [reflexivity|].
  inversion Hnd as [|? ? Hk Hnd']; subst.
  cbn [fold_left dict_get]. rewrite (IH Hnd'), compute_track_set.
  destruct (Z.eqb_spec id k) as [->|Hne].
  - rewrite (dict_get_notin Z.eqb k ar_pts Z_eqb_eq Hk).
    apply (dict_get_set_same Z.eqb Z_eqb_eq).
  - unfold cycle_track.
    rewrite (dict_get_set_other Z.eqb Z_eqb_eq k id _ tracks Hne). reflexivity.
Qed.

Lemma fresh_track_filtered (ids : Z) (v_lead y_rel : Q) (kp : KalmanParams.t) (ts : Q)
    (d_rel v_rel : Q) (measured : bool) (a_rel aLeadTau aLeadTauStart a_ego : Q) :
  let c := Track.update (Track.init ids v_lead y_rel kp ts) d_rel y_rel v_rel v_lead
                        measured a_rel aLeadTau aLeadTauStart a_ego in
  Track.vLeadK c = v_lead /\ Track.aLeadK c = 0 /\ Track.vLat c = 0
  /\ Track.cnt c = 1%nat /\ Track.identifier c = ids.
Proof.
  cbv zeta. unfold Track.update, Track.reseed.
  destruct (KF1D_init_x v_lead 0 (KalmanParams.A kp) (KalmanParams.C kp) (KalmanParams.K kp))
    as [Hv0 Hv1].
  destruct (KF1D_init_x y_rel 0 (KalmanParams.A kp) (KalmanParams.C kp) (KalmanParams.K kp))
    as [Hy0 Hy1].
  destruct (Track.discontinuity _ d_rel v_rel); cbn; repeat split; assumption.
Qed.

(** X4.  What the Track map holds for an id after a cycle.  An id that no
    radar point carries has no Track.  For an id that is reported, the last
    point of that id counts: the Track is the previous Track of the id (a
    new one when there was none) updated once by that point, with lead speed
    [vRel + v_ego_hist[0]]; so its raw fields are the point's.  A Track
    created in the cycle starts unfiltered: [vLeadK] is that lead speed,
    [aLeadK] and [vLat] are 0, [cnt] is 1. *)
Theorem update_tracks_lookup (self : RadarD.t) (rr : option RadarData) (id : Z) :
  let last_point :=
    find (fun pt => (RadarPoint.trackId pt =? id)%Z) (rev (RadarD.radar_points rr)) in
  (last_point = None -> dict_get Z.eqb id (RadarD.update_tracks self rr) = None)
  /\ (forall rpt, last_point = Some rpt ->
        let c := cycle_track self (RadarD.tracks self) id rpt in
        let v_lead := RadarPoint.vRel rpt + hd 0 (RadarD.v_ego_hist self) in
        dict_get Z.eqb id (RadarD.update_tracks self rr) = Some c
        /\ Track.dRel c = RadarPoint.dRel rpt /\ Track.yRel c = RadarPoint.yRel rpt
        /\ Track.vRel c = RadarPoint.vRel rpt /\ Track.aRel c = RadarPoint.aRel rpt
        /\ Track.measured c = RadarPoint.measured rpt
        /\ Track.vLead c = v_lead
        /\ (1 <= Track.cnt c)%nat
        /\ (dict_get Z.eqb id (RadarD.tracks self) = None ->
            Track.vLeadK c = v_lead /\ Track.aLeadK c = 0 /\ Track.vLat c = 0
            /\ Track.cnt c = 1%nat /\ Track.identifier c = id)).
Proof.
  cbv zeta.
  assert (G : dict_get Z.eqb id (RadarD.update_tracks self rr)
              = match dict_get Z.eqb id (RadarD.ar_pts_of (RadarD.radar_points rr)) with
                | Some rpt => Some (cycle_track self (RadarD.tracks self) id rpt)
                | None => None
                end).
  { unfold RadarD.update_tracks.
    rewrite (compute_fold_get self id _ (ar_pts_of_NoDup _)), remove_missing_filter.
    rewrite (dict_get_filter Z.eqb Z_eqb_eq (fun k => dict_mem Z.eqb k _)).
    destruct (dict_get Z.eqb id (RadarD.ar_pts_of (RadarD.radar_points rr))) as [rpt|] eqn:A.
    - assert (M : dict_mem Z.eqb id (RadarD.ar_pts_of (RadarD.radar_points rr)) = true).
      { apply (dict_mem_In Z.eqb Z_eqb_eq).
        destruct (in_dec Z.eq_dec id (keys (RadarD.ar_pts_of (RadarD.radar_points rr))))
          as [H|H]; [exact H|].
        rewrite (dict_get_notin Z.eqb id _ Z_eqb_eq H) in A. discriminate. }
      unfold cycle_track.
      rewrite (dict_get_filter Z.eqb Z_eqb_eq (fun k => dict_mem Z.eqb k _)), M.
      reflexivity.
    - destruct (dict_mem Z.eqb id _) eqn:M; [|reflexivity].
      apply (dict_mem_In Z.eqb Z_eqb_eq), (keys_In (V := RadarPoint.t)) in M.
      destruct M as [v M]. exfalso.
      assert (H : dict_mem Z.eqb id (RadarD.ar_pts_of (RadarD.radar_points rr)) = true).
      { apply (dict_mem_In Z.eqb Z_eqb_eq), keys_In. now exists v. }
      clear M. revert A H. generalize (RadarD.ar_pts_of (RadarD.radar_points rr)).
      intro d. unfold dict_mem. induction d as [|[k0 v0] d IH]; simpl; [discriminate|].
      destruct (id =? k0)%Z; [discriminate | exact IH]. }
  rewrite ar_pts_of_get in G. split.
  - intro H. now rewrite G, H.
  - intros rpt H. rewrite G, H. split; [reflexivity|].
    assert (B : forall c0 : Track.t,
              let c := Track.update c0 (RadarPoint.dRel rpt) (RadarPoint.yRel rpt)
                         (RadarPoint.vRel rpt)
                         (RadarPoint.vRel rpt + hd 0 (RadarD.v_ego_hist self))
                         (RadarPoint.measured rpt) (RadarPoint.aRel rpt)
                         (RadarD.aLeadTau self) (RadarD.aLeadTauStart self)
                         (RadarD.a_ego self) in
              Track.dRel c = RadarPoint.dRel rpt /\ Track.yRel c = RadarPoint.yRel rpt
              /\ Track.vRel c = RadarPoint.vRel rpt /\ Track.aRel c = RadarPoint.aRel rpt
              /\ Track.measured c = RadarPoint.measured rpt
              /\ Track.vLead c = RadarPoint.vRel rpt + hd 0 (RadarD.v_ego_hist self)
              /\ (1 <= Track.cnt c)%nat).
    { intro c0. cbv zeta. unfold Track.update, Track.reseed.
      destruct (Track.discontinuity c0 _ _); cbn; repeat split; lia. }
    destruct (B match dict_get Z.eqb id (RadarD.tracks self) with
                | Some track => track
                | None => Track.init id (RadarPoint.vRel rpt + hd 0 (RadarD.v_ego_hist self))
                                     (RadarPoint.yRel rpt) (RadarD.kalman_params self)
                                     (RadarD.radar_ts self)
                end) as [B1 [B2 [B3 [B4 [B5 [B6 B7]]]]]].
    fold (cycle_track self (RadarD.tracks self) id rpt) in B1, B2, B3, B4, B5, B6, B7.
    repeat (split; [assumption|]).
    intro Hnone. unfold cycle_track. rewrite Hnone. apply fresh_track_filtered.
Qed.

Lemma update_tracks_lookup_witness :
  let rr := Some {| points := [sample_point 5 20 0 0; sample_point 5 21 0.1 (-1)];
                    errors := [] |} in
  exists c, dict_get Z.eqb 5%Z (RadarD.update_tracks sample_radard rr) = Some c
            /\ Track.dRel c = 21 /\ Track.vLeadK c = -1 + 0 /\ Track.cnt c = 1%nat.
Proof.
  cbv zeta.
  pose proof (proj2 (update_tracks_lookup sample_radard
                       (Some {| points := [sample_point 5 20 0 0;
                                           sample_point 5 21 0.1 (-1)];
                                errors := [] |}) 5%Z)
                    (sample_point 5 21 0.1 (-1)) eq_refl) as H.
  cbv zeta in H. destruct H as [H1 [H2 [_ [_ [_ [_ [_ [_ H3]]]]]]]].
  destruct (H3 eq_refl) as [H4 [_ [_ [H5 _]]]].
  eexists. split; [exact H1|]. repeat split; assumption.
Defined.

(** ** What a cycle keeps *)

Lemma deque_append_cases (maxlen : nat) (hist : list Q) (x : Q) :
  ((length hist < maxlen)%nat -> RadarD.deque_append maxlen hist x = hist ++ [x])
  /\ (length hist = maxlen -> (1 <= maxlen)%nat ->
      RadarD.deque_append maxlen hist x = tl hist ++ [x]).
Proof.
  unfold RadarD.deque_append. rewrite length_app. cbn [length]. split.
  - intro H. replace (length hist + 1 - maxlen)%nat with 0%nat by lia. reflexivity.
  - intros H H1. replace (length hist + 1 - maxlen)%nat with 1%nat by lia.
    destruct hist as [|h hist]; [simpl in H; lia | reflexivity].
Qed.

Lemma update_fields (exp : Q -> Q) (TRAJECTORY_SIZE : nat) (self : RadarD.t)
    (params : Params) (sm : SubMaster) (rr : option RadarData) (g : Q)
    (self' : RadarD.t) (g' : Q) :
  RadarD.update exp TRAJECTORY_SIZE self params sm rr g = Ok (self', g') ->
  RadarD.v_ego self' = (if updated_carState sm then carState_vEgo sm else RadarD.v_ego self)
  /\ RadarD.a_ego self' = (if updated_carState sm then carState_aEgo sm else RadarD.a_ego self)
  /\ RadarD.v_ego_hist self'
     = (if updated_carState sm
        then RadarD.deque_append (RadarD.maxlen self) (RadarD.v_ego_hist self)
                                 (carState_vEgo sm)
        else RadarD.v_ego_hist self)
  /\ RadarD.maxlen self' = RadarD.maxlen self
  /\ RadarD.ready self' = (updated_modelV2 sm || RadarD.ready self)
  /\ RadarD.mixRadarInfo self' = MixRadarInfo params
  /\ RadarD.aLeadTau self' = inject_Z (ALeadTau params) / 100
  /\ RadarD.aLeadTauStart self' = inject_Z (ALeadTauStart params) / 100
  /\ RadarD.radar_state_valid self'
     = all_checks sm
       && (length (match rr with Some rr => errors rr | None => [] end) =? 0)%nat
  /\ RadarD.kalman_params self' = RadarD.kalman_params self
  /\ RadarD.radar_ts self' = RadarD.radar_ts self
  /\ exists rs, RadarD.radar_state self' = Some rs
                /\ RadarState.radarErrors rs
                   = match rr with Some rr => errors rr | None => [] end
                /\ RadarState.mdMonoTime rs = logMonoTime_modelV2 sm
                /\ RadarState.carStateMonoTime rs = logMonoTime_carState sm.
Proof.
  unfold RadarD.update. cbv zeta.
  match goal with
  | |- context [RadarD.select_leads exp TRAJECTORY_SIZE ?s sm ?rs g] =>
      destruct (RadarD.select_leads exp TRAJECTORY_SIZE s sm rs g) as [[rs1 g1]|e] eqn:S
  end; cbn [bind]; [|discriminate].
  intros [= <- <-].
  cbn [RadarD.v_ego RadarD.a_ego RadarD.v_ego_hist RadarD.maxlen RadarD.ready
       RadarD.mixRadarInfo RadarD.aLeadTau RadarD.aLeadTauStart RadarD.radar_state_valid
       RadarD.kalman_params RadarD.radar_ts RadarD.radar_state].
  repeat (split; [reflexivity|]).
  exists rs1. split; [reflexivity|].
  unfold RadarD.select_leads in S.
  destruct (ModelV2.leadsV3 (modelV2 sm)) as [|lead0 [|lead1 rest]];
    try (injection S as <- _; repeat split).
  destruct (if (RadarD.mixRadarInfo _ =? 2)%Z then _ else _) as [[one g2]|e1];
    cbn [bind] in S; [|discriminate].
  destruct (if (RadarD.mixRadarInfo _ =? 2)%Z then _ else _) as [[two g3]|e2];
    cbn [bind] in S; [|discriminate].
  destruct (get_lead_side _ _ _ _ _ _ _) as [[sides g4]|e3]; cbn [bind] in S;
    [|discriminate].
  injection S as <- _. repeat split.
Qed.

(** X5.  What [RadarD.update] keeps from cycle to cycle.  The speed history
    never becomes empty and never outgrows its capacity; on a fresh
    [carState] the ego speed is appended as its newest entry, the oldest one
    leaving once the history is full, and otherwise the history is
    untouched.  [ready] is set by the first [modelV2] message and never
    cleared.  The tunables are the stored integers divided by 100, the
    validity flag is "all checks pass and the radar reported no error", the
    Kalman parameters and the sample interval never change, and a radar
    state is there to publish. *)
Theorem update_keeps
    (exp : Q -> Q) (TRAJECTORY_SIZE : nat) (self : RadarD.t) (params : Params)
    (sm : SubMaster) (rr : option RadarData) (g : Q) :
  (1 <= RadarD.maxlen self)%nat ->
  RadarD.v_ego_hist self <> [] ->
  (length (RadarD.v_ego_hist self) <= RadarD.maxlen self)%nat ->
  exists (self' : RadarD.t) (g' : Q),
    RadarD.update exp TRAJECTORY_SIZE self params sm rr g = Ok (self', g')
    /\ (RadarD.v_ego_hist self' <> []
        /\ (length (RadarD.v_ego_hist self') <= RadarD.maxlen self')%nat
        /\ RadarD.maxlen self' = RadarD.maxlen self)
    /\ (updated_carState sm = true ->
        RadarD.v_ego self' = carState_vEgo sm
        /\ last (RadarD.v_ego_hist self') 0 = carState_vEgo sm
        /\ ((length (RadarD.v_ego_hist self) < RadarD.maxlen self)%nat ->
            RadarD.v_ego_hist self' = RadarD.v_ego_hist self ++ [carState_vEgo sm])
        /\ (length (RadarD.v_ego_hist self) = RadarD.maxlen self ->
            RadarD.v_ego_hist self' = tl (RadarD.v_ego_hist self) ++ [carState_vEgo sm]))
    /\ (updated_carState sm = false ->
        RadarD.v_ego self' = RadarD.v_ego self
        /\ RadarD.v_ego_hist self' = RadarD.v_ego_hist self)
    /\ (RadarD.ready self' = true <-> updated_modelV2 sm = true \/ RadarD.ready self = true)
    /\ RadarD.aLeadTau self' = inject_Z (ALeadTau params) / 100
    /\ RadarD.aLeadTauStart self' = inject_Z (ALeadTauStart params) / 100
    /\ (RadarD.radar_state_valid self' = true
        <-> all_checks sm = true
            /\ match rr with Some rr => errors rr | None => [] end = [])
    /\ RadarD.kalman_params self' = RadarD.kalman_params self
    /\ RadarD.radar_ts self' = RadarD.radar_ts self
    /\ RadarD.radar_state self' <> None.
Proof.
  intros Hmax Hne Hlen.
  destruct (update_Ok exp TRAJECTORY_SIZE self params sm rr g)
    as [self' [rs' [w3 [self1 [_ [E _]]]]]].
  destruct (update_fields _ _ _ _ _ _ _ _ _ E)
    as [F1 [F2 [F3 [F4 [F5 [F6 [F7 [F8 [F9 [F10 [F11 [rs [F12 _]]]]]]]]]]]]].
  destruct (deque_append_cases (RadarD.maxlen self) (RadarD.v_ego_hist self)
                               (carState_vEgo sm)) as [D1 D2].
  eexists self', _. split; [exact E|].
  rewrite F1, F3, F4, F5, F7, F8, F9, F10, F11, F12.
  split.
  { destruct (updated_carState sm); [|auto].
    destruct (Nat.eq_dec (length (RadarD.v_ego_hist self)) (RadarD.maxlen self)) as [Hf|Hf].
    - rewrite (D2 Hf Hmax). split; [now destruct (tl _)|].
      split; [|reflexivity]. rewrite length_app. cbn [length].
      destruct (RadarD.v_ego_hist self) as [|h hist]; [congruence|].
      cbn [tl length] in *. lia.
    - rewrite D1 by lia. split; [now destruct (RadarD.v_ego_hist self)|].
      split; [|reflexivity]. rewrite length_app. cbn [length]. lia. }
  split.
  { intros ->. split; [reflexivity|]. split.
    - destruct (Nat.eq_dec (length (RadarD.v_ego_hist self)) (RadarD.maxlen self)) as [Hf|Hf].
      + rewrite (D2 Hf Hmax). apply last_last.
      + rewrite D1 by lia. apply last_last.
    - split; [exact D1 | intro Hf; exact (D2 Hf Hmax)]. }
  split; [intros ->; now split|].
  split; [rewrite orb_true_iff; tauto|].
  split; [reflexivity|]. split; [reflexivity|].
  split.
  { rewrite andb_true_iff, Nat.eqb_eq. split; intros [H1 H2]; (split; [exact H1|]).
    - now apply length_zero_iff_nil.
    - now rewrite H2. }
  split; [reflexivity|]. split; [reflexivity | discriminate].
Qed.

Lemma update_keeps_witness :
  exists self' g',
    RadarD.update sample_exp 33 sample_radard (sample_params 0)
                  (sample_sm (sample_lead 30 0 10 0.6) (sample_lead 60 0 10 0.6) 10)
                  (Some {| points := [sample_point 5 20 0 0]; errors := [] |}) 1.5
    = Ok (self', g')
    /\ RadarD.v_ego_hist self' = [10] /\ RadarD.ready self' = true.
Proof.
  destruct (update_keeps sample_exp 33 sample_radard (sample_params 0)
              (sample_sm (sample_lead 30 0 10 0.6) (sample_lead 60 0 10 0.6) 10)
              (Some {| points := [sample_point 5 20 0 0]; errors := [] |}) 1.5)
    as [self' [g' [E [_ [H1 [_ [H2 _]]]]]]].
  - cbn. lia.
  - discriminate.
  - cbn. lia.
  - exists self', g'. split; [exact E|]. split.
    + destruct (H1 eq_refl) as [_ [_ [_ Hfull]]]. exact (Hfull eq_refl).
    + apply H2. now left.
Defined.

(** ** The shared decay state stays in range *)

Lemma decay_range (g : Q) : 0.27 < g <= 1.5 -> 0.27 < decay g <= 1.5.
Proof.
  intros [H1 H2]. unfold decay. destruct (Qltb 0.3 g) eqn:E.
  - apply Qltb_lt in E. split; lra.
  - split; assumption.
Qed.

Lemma written_range (w : write) (g : Q) : 0.27 < g <= 1.5 -> 0.27 < written w g <= 1.5.
Proof.
  intro H. destruct w; cbn [written].
  - exact H.
  - unfold _LEAD_ACCEL_TAU. split; lra.
  - now apply decay_range.
Qed.

(** X6.  From a value in (0.27, 1.5] (the module starts it at 1.5) the
    shared decay state never leaves that range, whatever a cycle does to it:
    a decay step stops below 0.3 but above 0.27, a reset returns to 1.5.  A
    vision-only record built from such a state has [aLeadTau] in
    (0.27, 1.35]. *)
Theorem decay_state_range
    (exp : Q -> Q) (TRAJECTORY_SIZE : nat) (self : RadarD.t) (params : Params)
    (sm : SubMaster) (rr : option RadarData) (g : Q) :
  0.27 < g <= 1.5 ->
  (exists self' g',
     RadarD.update exp TRAJECTORY_SIZE self params sm rr g = Ok (self', g')
     /\ 0.27 < g' <= 1.5)
  /\ (forall lead_msg v_ego model_v_ego,
        let vision := get_RadarState_from_vision lead_msg v_ego model_v_ego g in
        0.27 < Lead.aLeadTau (fst vision) <= 1.35
        /\ snd vision = Lead.aLeadTau (fst vision))
  /\ (decay g <= g /\ (0.3 < g -> decay g < g) /\ (decay g < 0.3 -> decay (decay g) = decay g)).
Proof.
  intro H. split; [|split].
  - destruct (update_Ok exp TRAJECTORY_SIZE self params sm rr g)
      as [self' [rs' [w3 [self1 [_ [E _]]]]]].
    eexists self', _. split; [exact E|].
    now do 3 apply written_range.
  - intros lead_msg v_ego model_v_ego. cbv zeta. cbn [get_RadarState_from_vision fst snd
      Lead.aLeadTau]. split; [|reflexivity].
    destruct H as [H1 H2]. unfold decay. destruct (Qltb 0.3 g) eqn:E.
    + apply Qltb_lt in E. split; lra.
    + apply Qltb_ge in E. split; lra.
  - split; [|split].
    + unfold decay. destruct (Qltb 0.3 g) eqn:E; [|lra].
      apply Qltb_lt in E. lra.
    + intro Hg. unfold decay. apply Qltb_lt in Hg. rewrite Hg.
      apply Qltb_lt in Hg. lra.
    + intro Hlt. unfold decay at 1.
      assert (E : Qltb 0.3 (decay g) = false) by (apply Qltb_ge; lra).
      now rewrite E.
Qed.

Lemma decay_state_range_witness :
  exists self' g',
    RadarD.update sample_exp 33 sample_radard (sample_params 0)
                  (sample_sm (sample_lead 30 0 10 0.6) (sample_lead 60 0 10 0.6) 10)
                  (Some {| points := []; errors := [] |}) 0.31
    = Ok (self', g')
    /\ 0.27 < g' <= 1.5.
Proof.
  refine (proj1 (decay_state_range sample_exp 33 sample_radard (sample_params 0)
                   (sample_sm (sample_lead 30 0 10 0.6) (sample_lead 60 0 10 0.6) 10)
                   (Some {| points := []; errors := [] |}) 0.31 _)).
  split; [reflexivity | discriminate].
Defined.

(** ** When selection raises *)

(** X7.  [match_vision_to_track] raises (the [max] of an empty dict) exactly
    on an empty Track map, and [get_lead] never calls it on one: [get_lead]
    returns for all inputs.  [get_lead_side] raises (element 0 of an empty
    list) exactly when the model carries no lead candidate; with a candidate
    but a planned path of another length than [TRAJECTORY_SIZE] it returns
    empty lists and no side lead and does not touch the decay state, even
    under a confident vision lead. *)
Theorem selection_raises
    (exp : Q -> Q) (TRAJECTORY_SIZE : nat) (v_ego : Q) (ready : bool) (tracks : Tracks)
    (lead_msg : LeadMsg.t) (model_v_ego : Q) (low_speed_override : bool)
    (md : ModelV2.t) (lane_width g : Q) :
  (match_vision_to_track exp v_ego lead_msg tracks = Raise ValueError <-> tracks = [])
  /\ (exists ld g',
        get_lead exp v_ego ready tracks lead_msg model_v_ego low_speed_override g
        = Ok (ld, g'))
  /\ (get_lead_side TRAJECTORY_SIZE v_ego tracks md lane_width model_v_ego g
      = Raise IndexError
      <-> ModelV2.leadsV3 md = [])
  /\ (ModelV2.leadsV3 md <> [] ->
      length (ModelV2.position_x md) <> TRAJECTORY_SIZE ->
      get_lead_side TRAJECTORY_SIZE v_ego tracks md lane_width model_v_ego g
      = Ok ({| ll := []; lc := []; lr := [];
               leadLeft := Lead.none; leadRight := Lead.none |}, g)).
Proof.
  split.
  { split.
    - intro H. destruct tracks as [|item tracks]; [reflexivity|].
      destruct (match_vision_to_track_Ok exp v_ego lead_msg (item :: tracks))
        as [t [E _]]; [discriminate|]. congruence.
    - intros ->. reflexivity. }
  split.
  { destruct (get_lead_track_Ok exp v_ego ready tracks lead_msg) as [track [H _]].
    rewrite (get_lead_unfold _ _ _ _ _ model_v_ego low_speed_override g _ H).
    cbv zeta. eauto. }
  split.
  { split.
    - intro H. destruct (ModelV2.leadsV3 md) as [|lead0 rest] eqn:E; [reflexivity|].
      destruct (get_lead_side_writes TRAJECTORY_SIZE v_ego tracks md lane_width
                  model_v_ego g lead0 rest E) as [sides [w [_ E']]]. congruence.
    - intro E. unfold get_lead_side. now rewrite E. }
  intros Hl Hlen. unfold get_lead_side.
  destruct (ModelV2.leadsV3 md) as [|lead0 rest]; [congruence|].
  apply Nat.eqb_neq in Hlen. now rewrite Hlen.
Qed.

(** ** Flags of the published leads *)

Lemma lead_flags_radar (c : Track.t) (lead_msg : LeadMsg.t) :
  lead_flags (LeadMsg.prob lead_msg)
             (Track.get_RadarState2 c (LeadMsg.prob lead_msg) lead_msg).
Proof.
  unfold lead_flags. cbn. unfold Track.is_potential_fcw. rewrite Qltb_lt.
  intuition discriminate.
Qed.

Lemma lead_flags_vision (lead_msg : LeadMsg.t) (v_ego model_v_ego g : Q) :
  lead_flags (LeadMsg.prob lead_msg)
             (fst (get_RadarState_from_vision lead_msg v_ego model_v_ego g)).
Proof.
  unfold lead_flags. cbn. intuition discriminate.
Qed.

Lemma lead_flags_none (prob : Q) : lead_flags prob Lead.none.
Proof.
  unfold lead_flags. cbn. intuition discriminate.
Qed.

(** X8.  Every record that [get_lead] (override on or off) and
    [get_lead_apilot] return obeys the same flags: [fcw] is raised exactly
    for a radar Track under a vision confidence above 0.9, never for a
    vision-only lead; a lead carries the vision confidence as [modelProb]; a
    vision-only lead has [radarTrackId] -1; and a record without [status] is
    the empty record.  The side candidates of [get_lead_side] are radar
    Tracks projected with confidence 0, so neither they nor [leadLeft] and
    [leadRight] ever raise [fcw]. *)
Theorem published_lead_flags
    (exp : Q -> Q) (TRAJECTORY_SIZE : nat) (v_ego : Q) (ready : bool) (tracks : Tracks)
    (lead_msg : LeadMsg.t) (model_v_ego : Q) (low_speed_override : bool)
    (md : ModelV2.t) (lane_width g : Q) :
  (exists ld g',
     get_lead exp v_ego ready tracks lead_msg model_v_ego low_speed_override g = Ok (ld, g')
     /\ lead_flags (LeadMsg.prob lead_msg) ld)
  /\ lead_flags (LeadMsg.prob lead_msg)
                (fst (get_lead_apilot TRAJECTORY_SIZE v_ego ready tracks lead_msg model_v_ego
                                      md lane_width g))
  /\ (forall sides g',
        get_lead_side TRAJECTORY_SIZE v_ego tracks md lane_width model_v_ego g
        = Ok (sides, g') ->
        (forall ld, In ld (ll sides) \/ In ld (lr sides) ->
           Lead.fcw ld = false /\ Lead.radar ld = true /\ Lead.status ld = true
           /\ Lead.modelProb ld = 0.0)
        /\ Lead.fcw (leadLeft sides) = false /\ Lead.fcw (leadRight sides) = false).
Proof.
  split; [|split].
  - destruct (get_lead_track_Ok exp v_ego ready tracks lead_msg) as [track [H _]].
    rewrite (get_lead_unfold _ _ _ _ _ model_v_ego low_speed_override g _ H). cbv zeta.
    eexists _, _. split; [reflexivity|].
    assert (Hpre : lead_flags (LeadMsg.prob lead_msg)
                     (fst match track with
                          | Some track =>
                              (Track.get_RadarState2 track (LeadMsg.prob lead_msg) lead_msg,
                               _LEAD_ACCEL_TAU)
                          | None =>
                              if ready && Qltb 0.5 (LeadMsg.prob lead_msg)
                              then get_RadarState_from_vision lead_msg v_ego model_v_ego g
                              else (Lead.none, g)
                          end)).
    { destruct track as [c|]; [apply lead_flags_radar|].
      destruct (ready && Qltb 0.5 (LeadMsg.prob lead_msg));
        [apply lead_flags_vision | apply lead_flags_none]. }
    destruct low_speed_override; [|exact Hpre].
    destruct (low_speed_lead_radar v_ego tracks lead_msg
                (fst match track with
                     | Some track =>
                         (Track.get_RadarState2 track (LeadMsg.prob lead_msg) lead_msg,
                          _LEAD_ACCEL_TAU)
                     | None =>
                         if ready && Qltb 0.5 (LeadMsg.prob lead_msg)
                         then get_RadarState_from_vision lead_msg v_ego model_v_ego g
                         else (Lead.none, g)
                     end)) as [L|[c [_ L]]]; rewrite L;
      [exact Hpre | apply lead_flags_radar].
  - unfold get_lead_apilot.
    destruct (if (0 <? length tracks)%nat && ready then _ else None) as [c|];
      [apply lead_flags_radar|].
    destruct (Qltb 0.5 (LeadMsg.prob lead_msg));
      [apply lead_flags_vision | apply lead_flags_none].
  - intros sides g' E.
    assert (Hlists : forall ld, In ld (ll sides) \/ In ld (lr sides) ->
                       exists c, ld = Track.get_RadarState c 0.0).
    { destruct (ModelV2.leadsV3 md) as [|lead0 rest] eqn:EL.
      { unfold get_lead_side in E. rewrite EL in E. discriminate. }
      destruct (Nat.eq_dec (length (ModelV2.position_x md)) TRAJECTORY_SIZE) as [Hlen|Hlen].
      - destruct (get_lead_side_valid TRAJECTORY_SIZE v_ego tracks md lane_width model_v_ego
                    g lead0 rest EL Hlen)
          as [cen [lft [rgt [sides0 [g0 [Hfold [E0 [Hll [Hlr _]]]]]]]]].
        rewrite E0 in E. injection E as <- <-.
        pose proof (side_inv_loop md lane_width lead0 (values tracks)) as Inv.
        rewrite Hfold in Inv. destruct Inv as [_ [Il [Ir _]]].
        rewrite Hll, Hlr. intros ld [H|H]; apply values_In in H; destruct H as [k H].
        + destruct (Il k ld H) as [c [_ [_ [_ Hc]]]]. now exists c.
        + destruct (Ir k ld H) as [c [_ [_ [_ Hc]]]]. now exists c.
      - unfold get_lead_side in E. rewrite EL in E.
        apply Nat.eqb_neq in Hlen. rewrite Hlen in E. injection E as <- <-.
        intros ld [[]|[]]. }
    assert (Hnear : forall leads,
              nearest_beyond_5 leads = Lead.none
              \/ In (nearest_beyond_5 leads) (values leads)).
    { intro leads. unfold nearest_beyond_5.
      destruct (min_by _ _) as [r|] eqn:M; [|now left].
      right. apply min_by_Some in M. destruct M as [M _]. now apply filter_In in M. }
    assert (Hfcw : forall ld, (exists c, ld = Track.get_RadarState c 0.0) ->
                     Lead.fcw ld = false /\ Lead.radar ld = true /\ Lead.status ld = true
                     /\ Lead.modelProb ld = 0.0).
    { intros ld [c ->]. repeat split. }
    split; [intros ld H; apply Hfcw, Hlists, H|].
    destruct (ModelV2.leadsV3 md) as [|lead0 rest] eqn:EL.
    { unfold get_lead_side in E. rewrite EL in E. discriminate. }
    destruct (Nat.eq_dec (length (ModelV2.position_x md)) TRAJECTORY_SIZE) as [Hlen|Hlen].
    + destruct (get_lead_side_valid TRAJECTORY_SIZE v_ego tracks md lane_width model_v_ego
                  g lead0 rest EL Hlen)
        as [cen [lft [rgt [sides0 [g0 [Hfold [E0 [Hll [Hlr [HL [HR _]]]]]]]]]]].
      rewrite E0 in E. injection E as <- <-. rewrite HL, HR.
      split.
      * destruct (Hnear lft) as [->|H]; [reflexivity|].
        apply Hfcw, Hlists. left. now rewrite Hll.
      * destruct (Hnear rgt) as [->|H]; [reflexivity|].
        apply Hfcw, Hlists. right. now rewrite Hlr.
    + unfold get_lead_side in E. rewrite EL in E.
      apply Nat.eqb_neq in Hlen. rewrite Hlen in E. injection E as <- <-.
      split; reflexivity.
Qed.

(** ** The Track [get_lead] answers from *)

(** X9.  Which Track [get_lead] projects.  Without a confident vision lead
    (confidence at most 0.5) it is the SCC Track, id 0, when the map has
    one, and none otherwise.  Under a confident vision lead it is either the
    best-scoring Track, which then has passed the sanity gate with the model
    ready, or the SCC Track, which then is not more than 5 m beyond the
    vision distance; and when no Track is chosen although the map has an SCC
    Track, vision is more than 5 m closer than it. *)
Theorem get_lead_track_cases
    (exp : Q -> Q) (v_ego : Q) (ready : bool) (tracks : Tracks) (lead_msg : LeadMsg.t) :
  let offset_vision_dist := LeadMsg.x lead_msg - RADAR_TO_CAMERA in
  let track_scc := dict_get Z.eqb 0%Z tracks in
  (LeadMsg.prob lead_msg <= 0.5 ->
   get_lead_track exp v_ego ready tracks lead_msg = Ok track_scc)
  /\ (0.5 < LeadMsg.prob lead_msg ->
      forall c, get_lead_track exp v_ego ready tracks lead_msg = Ok (Some c) ->
      (ready = true /\ In c (values tracks) /\ gate v_ego lead_msg c
       /\ forall item, In item tracks ->
            vision_score exp v_ego lead_msg (snd item) <= vision_score exp v_ego lead_msg c)
      \/ (track_scc = Some c /\ Track.dRel c - 5.0 <= offset_vision_dist))
  /\ (0.5 < LeadMsg.prob lead_msg ->
      get_lead_track exp v_ego ready tracks lead_msg = Ok None ->
      forall c0, track_scc = Some c0 -> offset_vision_dist < Track.dRel c0 - 5.0).
Proof.
  cbv zeta. unfold get_lead_track.
  assert (Hscc : forall track,
            0.5 < LeadMsg.prob lead_msg ->
            (forall c, scc_fallback lead_msg (dict_get Z.eqb 0%Z tracks) track = Some c ->
                       track = Some c
                       \/ (dict_get Z.eqb 0%Z tracks = Some c
                           /\ Track.dRel c - 5.0 <= LeadMsg.x lead_msg - RADAR_TO_CAMERA))
            /\ (scc_fallback lead_msg (dict_get Z.eqb 0%Z tracks) track = None ->
                forall c0, dict_get Z.eqb 0%Z tracks = Some c0 ->
                           LeadMsg.x lead_msg - RADAR_TO_CAMERA < Track.dRel c0 - 5.0)).
  { intros track Hp. apply Qltb_lt in Hp. unfold scc_fallback.
    destruct (dict_get Z.eqb 0%Z tracks) as [scc|]; destruct track as [t|];
      try rewrite Hp; cbn [andb].
    - split; [auto | discriminate].
    - destruct (Qltb (LeadMsg.x lead_msg - RADAR_TO_CAMERA) (Track.dRel scc - 5.0)) eqn:E.
      + split; [discriminate|]. intros _ c0 [= <-]. now apply Qltb_lt.
      + split; [|discriminate]. intros c [= <-]. right. split; [reflexivity|].
        now apply Qltb_ge.
    - split; [auto | discriminate].
    - split; [discriminate | intros _ c0 H; discriminate H]. }
  split.
  { intro Hp. apply Qltb_ge in Hp. rewrite Hp, andb_false_r. cbn [bind].
    unfold scc_fallback. rewrite Hp. cbn [andb].
    now destruct (dict_get Z.eqb 0%Z tracks). }
  destruct ((0 <? length tracks)%nat && ready && Qltb 0.5 (LeadMsg.prob lead_msg)) eqn:G.
  - apply andb_true_iff in G. destruct G as [G _].
    apply andb_true_iff in G. destruct G as [G1 ->].
    assert (Hne : tracks <> []) by (destruct tracks; [discriminate | congruence]).
    destruct (max_by_nonempty (fun item => vision_score exp v_ego lead_msg (snd item))
                              tracks Hne) as [[key best] Hmax].
    rewrite (match_vision_to_track_eq _ _ _ _ _ _ Hmax).
    destruct (max_by_Some _ _ _ Hmax) as [Hin Hle].
    destruct (dist_sane lead_msg best && vel_sane v_ego lead_msg best
              && y_sane lead_msg best) eqn:Gt; cbn [bind].
    + split.
      * intros Hp c [= E]. destruct (proj1 (Hscc (Some best) Hp) c E) as [[= <-]|H].
        -- left. split; [reflexivity|]. split; [apply (in_map snd) in Hin; exact Hin|].
           split; [now apply gate_iff | exact Hle].
        -- now right.
      * intros Hp [= E]. exact (proj2 (Hscc (Some best) Hp) E).
    + split.
      * intros Hp c [= E]. destruct (proj1 (Hscc None Hp) c E) as [H|H];
          [discriminate | now right].
      * intros Hp [= E]. exact (proj2 (Hscc None Hp) E).
  - cbn [bind]. split.
    + intros Hp c [= E]. destruct (proj1 (Hscc None Hp) c E) as [H|H];
        [discriminate | now right].
    + intros Hp [= E]. exact (proj2 (Hscc None Hp) E).
Qed.

(** ** The low-speed override never loses a lead *)

(** X10.  Switching the low-speed override on never makes [get_lead]'s answer
    worse: the decay state it leaves is the same, a lead that association
    produced is kept or replaced by a nearer one, and the record changes
    only into the projection of the closest low-speed candidate.  At 4 m/s
    and above the switch changes nothing; and when the answer has no
    [status] with the switch on, no Track is a low-speed candidate. *)
Theorem override_never_worse
    (exp : Q -> Q) (v_ego : Q) (ready : bool) (tracks : Tracks) (lead_msg : LeadMsg.t)
    (model_v_ego g : Q) :
  exists (off on : Lead.t) (g' : Q),
    get_lead exp v_ego ready tracks lead_msg model_v_ego false g = Ok (off, g')
    /\ get_lead exp v_ego ready tracks lead_msg model_v_ego true g = Ok (on, g')
    /\ (Lead.status off = true ->
        Lead.status on = true /\ Lead.dRel on <= Lead.dRel off)
    /\ (on = off
        \/ exists c, In c (values tracks) /\ low_speed_candidate v_ego c
                     /\ (forall c', In c' (values tracks) -> low_speed_candidate v_ego c' ->
                                    Track.dRel c <= Track.dRel c')
                     /\ on = Track.get_RadarState2 c (LeadMsg.prob lead_msg) lead_msg)
    /\ (4 <= v_ego -> on = off)
    /\ (Lead.status on = false ->
        forall c, In c (values tracks) -> ~ low_speed_candidate v_ego c).
Proof.
  destruct (get_lead_track_Ok exp v_ego ready tracks lead_msg) as [track [Ht _]].
  rewrite !(get_lead_unfold _ _ _ _ _ model_v_ego _ g _ Ht). cbv zeta.
  set (pre := match track with
              | Some track =>
                  (Track.get_RadarState2 track (LeadMsg.prob lead_msg) lead_msg,
                   _LEAD_ACCEL_TAU)
              | None =>
                  if ready && Qltb 0.5 (LeadMsg.prob lead_msg)
                  then get_RadarState_from_vision lead_msg v_ego model_v_ego g
                  else (Lead.none, g)
              end).
  exists (fst pre), (low_speed_lead v_ego tracks lead_msg (fst pre)), (snd pre).
  split; [reflexivity|]. split; [reflexivity|].
  unfold low_speed_lead.
  set (low := filter (fun c => Track.potential_low_speed_lead c v_ego) (values tracks)).
  assert (Hlow : forall c, In c low <-> In c (values tracks) /\ low_speed_candidate v_ego c).
  { intro c. unfold low. now rewrite filter_In, potential_low_speed_lead_iff. }
  destruct (min_by Track.dRel low) as [closest|] eqn:M.
  - destruct (min_by_Some _ _ _ M) as [Hc Hle]. apply Hlow in Hc.
    destruct (negb (Lead.status (fst pre))
              || Qltb (Track.dRel closest) (Lead.dRel (fst pre))) eqn:T.
    + split.
      { intro Hs. rewrite Hs in T. cbn [negb orb] in T. apply Qltb_lt in T.
        split; [reflexivity|]. cbn [Track.get_RadarState2 Lead.dRel].
        now apply Qlt_le_weak. }
      split.
      { right. exists closest. split; [tauto|]. split; [tauto|].
        split; [|reflexivity]. intros c' H1 H2. apply Hle, Hlow. now split. }
      split.
      { intro Hv. exfalso. destruct Hc as [_ [_ [Hv' _]]]. lra. }
      discriminate.
    + split; [intro Hs; split; [exact Hs | apply Qle_refl]|].
      split; [now left|]. split; [reflexivity|].
      intro Hs. rewrite Hs in T. discriminate.
  - apply min_by_None in M.
    split; [intro Hs; split; [exact Hs | apply Qle_refl]|].
    split; [now left|]. split; [reflexivity|].
    intros _ c Hin Hq. assert (H : In c low) by (apply Hlow; now split).
    rewrite M in H. exact H.
Qed.

(** ** What the corridor strategy chooses *)

Lemma dist_sane_iff (lead : LeadMsg.t) (c : Track.t) :
  dist_sane lead c = true <-> dist_gate lead c.
Proof. unfold dist_sane, dist_gate. apply Qltb_lt. Qed.

Lemma nearest_spec (tracks : Tracks) :
  match nearest tracks with
  | Some c => In c (values tracks)
              /\ forall c', In c' (values tracks) -> Track.dRel c <= Track.dRel c'
  | None => tracks = []
  end.
Proof.
  unfold nearest. destruct (min_by _ tracks) as [item|] eqn:M; cbn [option_map].
  - destruct (min_by_Some _ _ _ M) as [Hin Hle]. split.
    + apply (in_map snd) in Hin. exact Hin.
    + intros c' Hc'. unfold values in Hc'. apply in_map_iff in Hc'.
      destruct Hc' as [item' [<- Hi]]. exact (Hle item' Hi).
  - now apply min_by_None in M.
Qed.

Lemma fastest_spec (tracks : Tracks) :
  match fastest tracks with
  | Some c => In c (values tracks)
              /\ forall c', In c' (values tracks) -> Track.vRel c' <= Track.vRel c
  | None => tracks = []
  end.
Proof.
  unfold fastest. destruct (max_by _ tracks) as [item|] eqn:M; cbn [option_map].
  - destruct (max_by_Some _ _ _ M) as [Hin Hle]. split.
    + apply (in_map snd) in Hin. exact Hin.
    + intros c' Hc'. unfold values in Hc'. apply in_map_iff in Hc'.
      destruct Hc' as [item' [<- Hi]]. exact (Hle item' Hi).
  - destruct tracks; [reflexivity | discriminate].
Qed.

Lemma values_filter_iff (f : Z * Track.t -> bool) (g : Track.t -> bool) (tracks : Tracks) :
  (forall item, f item = g (snd item)) ->
  forall c, In c (values (filter f tracks)) <-> In c (values tracks) /\ g c = true.
Proof.
  intros Hfg c. unfold values. rewrite !in_map_iff. split.
  - intros [item [<- H]]. apply filter_In in H. rewrite Hfg in H.
    split; [exists item|]; tauto.
  - intros [[item [<- H]] Hg]. exists item. split; [reflexivity|].
    apply filter_In. rewrite Hfg. tauto.
Qed.

(** X11.  What [match_vision_track_apilot] returns.  With a planned path of
    another length than [TRAJECTORY_SIZE], or with no Track, it is the SCC
    Track (id 0) or nothing.  Otherwise only center Tracks and the SCC Track
    can be returned.  Under a confident vision lead: when some center Track
    is within the distance gate and within 10 m/s of the vision speed, the
    nearest such Track is returned; failing that, among the center Tracks
    within the distance gate that are not receding (combined speed above
    -0.5 m/s) the one with the greatest [vRel]; failing that, the SCC Track
    unless its [dRel] less 5 m is below the vision distance (the test of
    line 417).  Without a confident vision lead: the nearest center Track moving faster than
    3 m/s, else the SCC Track. *)
Theorem corridor_choice
    (TRAJECTORY_SIZE : nat) (v_ego : Q) (lead_msg : LeadMsg.t) (tracks : Tracks)
    (md : ModelV2.t) (lane_width : Q) :
  let offset_vision_dist := LeadMsg.x lead_msg - RADAR_TO_CAMERA in
  let track_scc := dict_get Z.eqb 0%Z tracks in
  let center := values (tracks_center md lane_width tracks) in
  let chosen := match_vision_track_apilot TRAJECTORY_SIZE v_ego lead_msg tracks md
                                          lane_width in
  (tracks = [] \/ length (ModelV2.position_x md) <> TRAJECTORY_SIZE -> chosen = track_scc)
  /\ (length (ModelV2.position_x md) = TRAJECTORY_SIZE -> 0.5 < LeadMsg.prob lead_msg ->
      (forall c0, In c0 center -> speed_match v_ego lead_msg c0 ->
         exists c, chosen = Some c /\ In c center /\ speed_match v_ego lead_msg c
                   /\ forall c', In c' center -> speed_match v_ego lead_msg c' ->
                                  Track.dRel c <= Track.dRel c')
      /\ ((forall c0, In c0 center -> ~ speed_match v_ego lead_msg c0) ->
          forall c0, In c0 center -> not_receding v_ego lead_msg c0 ->
          exists c, chosen = Some c /\ In c center /\ not_receding v_ego lead_msg c
                    /\ forall c', In c' center -> not_receding v_ego lead_msg c' ->
                                   Track.vRel c' <= Track.vRel c)
      /\ ((forall c0, In c0 center -> ~ speed_match v_ego lead_msg c0) ->
          (forall c0, In c0 center -> ~ not_receding v_ego lead_msg c0) ->
          chosen = match track_scc with
                   | Some scc => if Qltb (Track.dRel scc - 5.0) offset_vision_dist
                                 then None else Some scc
                   | None => None
                   end))
  /\ (length (ModelV2.position_x md) = TRAJECTORY_SIZE -> LeadMsg.prob lead_msg <= 0.5 ->
      (forall c0, In c0 center -> moving v_ego c0 ->
         exists c, chosen = Some c /\ In c center /\ moving v_ego c
                   /\ forall c', In c' center -> moving v_ego c' ->
                                  Track.dRel c <= Track.dRel c')
      /\ ((forall c0, In c0 center -> ~ moving v_ego c0) -> chosen = track_scc))
  /\ (forall c, chosen = Some c -> In c center \/ track_scc = Some c).
Proof.
  cbv zeta. unfold match_vision_track_apilot.
  destruct tracks as [|item0 tracks0] eqn:Etr.
  { cbn. repeat split; try reflexivity; try contradiction; try discriminate.
    all: intros; try contradiction; try reflexivity. }
  rewrite <- Etr. assert (Hlen : (0 <? length tracks)%nat = true) by now rewrite Etr.
  rewrite Hlen. clear Hlen.
  set (center := tracks_center md lane_width tracks).
  set (p1 := fun item : Z * Track.t =>
               dist_sane lead_msg (snd item)
               && Qltb (Qabs (Track.vRel (snd item) + v_ego - LeadMsg.v lead_msg)) 10).
  set (p2 := fun item : Z * Track.t =>
               dist_sane lead_msg (snd item)
               && Qltb (-0.5) (Track.vRel (snd item) + v_ego)).
  set (p3 := fun item : Z * Track.t => Qltb 3.0 (Track.vRel (snd item) + v_ego)).
  assert (H1 : forall c, In c (values (filter p1 center))
                         <-> In c (values center) /\ speed_match v_ego lead_msg c).
  { intro c. rewrite (values_filter_iff p1
      (fun c => dist_sane lead_msg c
                && Qltb (Qabs (Track.vRel c + v_ego - LeadMsg.v lead_msg)) 10))
      by reflexivity.
    unfold speed_match. now rewrite andb_true_iff, dist_sane_iff, Qltb_lt. }
  assert (H2 : forall c, In c (values (filter p2 center))
                         <-> In c (values center) /\ not_receding v_ego lead_msg c).
  { intro c. rewrite (values_filter_iff p2
      (fun c => dist_sane lead_msg c && Qltb (-0.5) (Track.vRel c + v_ego)))
      by reflexivity.
    unfold not_receding. now rewrite andb_true_iff, dist_sane_iff, Qltb_lt. }
  assert (H3 : forall c, In c (values (filter p3 center))
                         <-> In c (values center) /\ moving v_ego c).
  { intro c. rewrite (values_filter_iff p3 (fun c => Qltb 3.0 (Track.vRel c + v_ego)))
      by reflexivity.
    unfold moving. now rewrite Qltb_lt. }
  pose proof (nearest_spec (filter p1 center)) as N1.
  pose proof (fastest_spec (filter p2 center)) as N2.
  pose proof (nearest_spec (filter p3 center)) as N3.
  assert (Hempty : forall (p : Z * Track.t -> bool) (P : Track.t -> Prop),
            (forall c, In c (values (filter p center)) <-> In c (values center) /\ P c) ->
            filter p center = [] -> forall c0, In c0 (values center) -> ~ P c0).
  { intros p P HP E c0 Hc0 HPc. assert (H : In c0 (values (filter p center)))
      by (apply HP; now split). rewrite E in H. exact H. }
  split.
  { intros [H|H]; [congruence|]. apply Nat.eqb_neq in H. now rewrite H. }
  split.
  { intros Hl Hp. apply Nat.eqb_eq in Hl. apply Qltb_lt in Hp. rewrite Hl, Hp.
    split; [|split].
    - intros c0 Hc0 Hm. destruct (nearest (filter p1 center)) as [c|].
      + destruct N1 as [Hin Hle]. exists c. split; [reflexivity|].
        apply H1 in Hin. split; [tauto|]. split; [tauto|].
        intros c' Hc' Hm'. apply Hle, H1. now split.
      + exfalso. exact (Hempty p1 _ H1 N1 c0 Hc0 Hm).
    - intros Hno c0 Hc0 Hm. destruct (nearest (filter p1 center)) as [c|].
      + exfalso. destruct N1 as [Hin _]. apply H1 in Hin. exact (Hno c (proj1 Hin) (proj2 Hin)).
      + destruct (fastest (filter p2 center)) as [c|].
        * destruct N2 as [Hin Hle]. exists c. split; [reflexivity|].
          apply H2 in Hin. split; [tauto|]. split; [tauto|].
          intros c' Hc' Hm'. apply Hle, H2. now split.
        * exfalso. exact (Hempty p2 _ H2 N2 c0 Hc0 Hm).
    - intros Hno1 Hno2. destruct (nearest (filter p1 center)) as [c|].
      + exfalso. destruct N1 as [Hin _]. apply H1 in Hin.
        exact (Hno1 c (proj1 Hin) (proj2 Hin)).
      + destruct (fastest (filter p2 center)) as [c|]; [|reflexivity].
        exfalso. destruct N2 as [Hin _]. apply H2 in Hin.
        exact (Hno2 c (proj1 Hin) (proj2 Hin)). }
  split.
  { intros Hl Hp. apply Nat.eqb_eq in Hl. apply Qltb_ge in Hp. rewrite Hl, Hp.
    split.
    - intros c0 Hc0 Hm. destruct (nearest (filter p3 center)) as [c|].
      + destruct N3 as [Hin Hle]. exists c. split; [reflexivity|].
        apply H3 in Hin. split; [tauto|]. split; [tauto|].
        intros c' Hc' Hm'. apply Hle, H3. now split.
      + exfalso. exact (Hempty p3 _ H3 N3 c0 Hc0 Hm).
    - intro Hno. destruct (nearest (filter p3 center)) as [c|]; [|reflexivity].
      exfalso. destruct N3 as [Hin _]. apply H3 in Hin.
      exact (Hno c (proj1 Hin) (proj2 Hin)). }
  intro c.
  destruct (length (ModelV2.position_x md) =? TRAJECTORY_SIZE)%nat; [|now right].
  destruct (Qltb 0.5 (LeadMsg.prob lead_msg)).
  - destruct (nearest (filter p1 center)) as [c1|].
    + intros [= <-]. left. destruct N1 as [Hin _]. now apply H1 in Hin.
    + destruct (fastest (filter p2 center)) as [c2|].
      * intros [= <-]. left. destruct N2 as [Hin _]. now apply H2 in Hin.
      * destruct (dict_get Z.eqb 0%Z tracks) as [scc|]; [|discriminate].
        destruct (Qltb _ _); [discriminate|]. now right.
  - destruct (nearest (filter p3 center)) as [c3|].
    + intros [= <-]. left. destruct N3 as [Hin _]. now apply H3 in Hin.
    + now right.
Qed.

(** ** Publishing *)

Lemma insert_sorted_perm (k : Z) (l : list Z) : Permutation (insert_sorted k l) (k :: l).
Proof.
  induction l as [|x l IH]; simpl; [reflexivity|].
  destruct (k <? x)%Z; [reflexivity|].
  rewrite IH. apply perm_swap.
Qed.

Lemma insert_sorted_Sorted (k : Z) (l : list Z) :
  Sorted Z.le l -> Sorted Z.le (insert_sorted k l).
Proof.
  induction l as [|x l IH]; simpl; intro H.
  - repeat constructor.
  - destruct (Z.ltb_spec k x) as [Hlt|Hge].
    + constructor; [exact H|]. constructor. lia.
    + inversion H as [|? ? Hs Hh]; subst. constructor; [now apply IH|].
      destruct l as [|y l]; simpl.
      * constructor. exact Hge.
      * destruct (k <? y)%Z; constructor; [exact Hge|].
        inversion Hh; subst. assumption.
Qed.

Lemma sorted_perm (l : list Z) : Permutation (sorted l) l.
Proof.
  induction l as [|k l IH]; simpl; [reflexivity|].
  rewrite insert_sorted_perm. now constructor.
Qed.

Lemma sorted_Sorted (l : list Z) : Sorted Z.le (sorted l).
Proof.
  induction l as [|k l IH]; simpl; [constructor | now apply insert_sorted_Sorted].
Qed.

Lemma dict_get_in_keys (tracks : Tracks) (k : Z) :
  In k (keys tracks) -> exists c, dict_get Z.eqb k tracks = Some c.
Proof.
  induction tracks as [|[k0 c0] tracks IH]; simpl; [contradiction|].
  destruct (Z.eqb_spec k k0) as [E|E]; [eauto|].
  intros [H|H]; [congruence | now apply IH].
Qed.

Lemma live_tracks_ids (tracks : Tracks) (ks : list Z) :
  (forall k, In k ks -> In k (keys tracks)) ->
  map LiveTrack.trackId (flat_map (live_track tracks) ks) = ks.
Proof.
  induction ks as [|k ks IH]; intro H; simpl; [reflexivity|].
  destruct (dict_get_in_keys tracks k (H k (or_introl eq_refl))) as [c Hc].
  unfold live_track at 1. rewrite Hc. cbn [app map LiveTrack.trackId].
  f_equal. apply IH. intros k' Hk'. apply H. now right.
Qed.

Lemma live_tracks_rows (tracks : Tracks) (ks : list Z) (row : LiveTrack.t) :
  In row (flat_map (live_track tracks) ks) ->
  exists c, dict_get Z.eqb (LiveTrack.trackId row) tracks = Some c
            /\ LiveTrack.dRel row = Track.dRel c /\ LiveTrack.yRel row = Track.yRel c
            /\ LiveTrack.vRel row = Track.vRel c /\ LiveTrack.aRel row = Track.aRel c
            /\ LiveTrack.vLat row = Track.vLat c.
Proof.
  rewrite in_flat_map. intros [k [_ H]]. unfold live_track in H.
  destruct (dict_get Z.eqb k tracks) as [c|] eqn:G; [|contradiction].
  destruct H as [<-|[]]. exists c. cbn. repeat split. exact G.
Qed.

Lemma publish_rows (self : RadarD.t) (lag_ms : Q) :
  (publish self lag_ms = Raise AssertionError <-> RadarD.radar_state self = None)
  /\ (forall rs, RadarD.radar_state self = Some rs ->
        exists rows,
          publish self lag_ms
          = Ok ({| radarState_valid := RadarD.radar_state_valid self;
                   radarState := rs; cumLagMs := lag_ms |},
                {| liveTracks_valid := RadarD.radar_state_valid self;
                   liveTracks := rows |})
          /\ map LiveTrack.trackId rows = sorted (keys (RadarD.tracks self))
          /\ Sorted Z.le (map LiveTrack.trackId rows)
          /\ rows = flat_map (live_track (RadarD.tracks self))
                             (sorted (keys (RadarD.tracks self)))).
Proof.
  unfold publish. split.
  - destruct (RadarD.radar_state self); split; congruence.
  - intros rs ->. eexists. split; [reflexivity|].
    assert (Hids : map LiveTrack.trackId
                     (flat_map (live_track (RadarD.tracks self))
                               (sorted (keys (RadarD.tracks self))))
                   = sorted (keys (RadarD.tracks self))).
    { apply live_tracks_ids. intros k Hk.
      eapply Permutation_in; [apply sorted_perm | exact Hk]. }
    split; [exact Hids|]. rewrite Hids.
    split; [apply sorted_Sorted | reflexivity].
Qed.

(** X12.  [publish] raises its assertion exactly when no cycle has run yet
    (no radar state).  Otherwise it sends the radar state of the last cycle
    with the given lag and the cycle's validity flag, and a [liveTracks]
    message with the same flag and one entry per Track of the map, in
    ascending order of track id, each entry carrying the raw [dRel], [yRel],
    [vRel], [aRel] and the filtered [vLat] of the Track of its id. *)
Theorem publish_messages (self : RadarD.t) (lag_ms : Q) :
  (publish self lag_ms = Raise AssertionError <-> RadarD.radar_state self = None)
  /\ (forall rs, RadarD.radar_state self = Some rs ->
        exists rows,
          publish self lag_ms
          = Ok ({| radarState_valid := RadarD.radar_state_valid self;
                   radarState := rs; cumLagMs := lag_ms |},
                {| liveTracks_valid := RadarD.radar_state_valid self;
                   liveTracks := rows |})
          /\ map LiveTrack.trackId rows = sorted (keys (RadarD.tracks self))
          /\ Sorted Z.le (map LiveTrack.trackId rows)
          /\ Permutation (map LiveTrack.trackId rows) (keys (RadarD.tracks self))
          /\ length rows = length (RadarD.tracks self)
          /\ forall row, In row rows ->
               exists c, dict_get Z.eqb (LiveTrack.trackId row) (RadarD.tracks self) = Some c
                         /\ LiveTrack.dRel row = Track.dRel c
                         /\ LiveTrack.yRel row = Track.yRel c
                         /\ LiveTrack.vRel row = Track.vRel c
                         /\ LiveTrack.aRel row = Track.aRel c
                         /\ LiveTrack.vLat row = Track.vLat c).
Proof.
  destruct (publish_rows self lag_ms) as [Hraise Hok]. split; [exact Hraise|].
  intros rs Hrs. destruct (Hok rs Hrs) as [rows [P [Hids [Hs Hrows]]]].
  exists rows. split; [exact P|]. split; [exact Hids|]. split; [exact Hs|].
  rewrite Hids. split; [apply sorted_perm|].
  split; [|subst rows; apply live_tracks_rows].
  rewrite <- (length_map LiveTrack.trackId), Hids.
  rewrite (Permutation_length (sorted_perm _)). unfold keys. apply length_map.
Qed.

(** X13.  One turn of the thread loop.  When the radar interface has nothing
    ([rr] is [None]) the turn is skipped: nothing is published, and the
    Tracks and the decay state are exactly as before.  With radar data the
    turn never raises; it publishes the radar state of the cycle with lag
    [-remaining * 1000] and the validity flag "all checks pass and no radar
    error", and a [liveTracks] message whose entries are, in ascending order,
    the ids of the turn's radar points. *)
Theorem radard_turn_publishes
    (exp : Q -> Q) (TRAJECTORY_SIZE : nat) (RD : RadarD.t) (g : Q)
    (params : Params) (sm : SubMaster) (remaining : Q) :
  radard_turn exp TRAJECTORY_SIZE RD g None params sm remaining = Ok (RD, g, None)
  /\ forall r : RadarData,
       exists RD' g' rs rows,
         radard_turn exp TRAJECTORY_SIZE RD g (Some r) params sm remaining
         = Ok (RD', g',
               Some ({| radarState_valid := RadarD.radar_state_valid RD';
                        radarState := rs; cumLagMs := - remaining * 1000.0 |},
                     {| liveTracks_valid := RadarD.radar_state_valid RD';
                        liveTracks := rows |}))
         /\ RadarD.update exp TRAJECTORY_SIZE RD params sm (Some r) g = Ok (RD', g')
         /\ RadarD.radar_state RD' = Some rs
         /\ RadarState.radarErrors rs = errors r
         /\ (RadarD.radar_state_valid RD' = true <-> all_checks sm = true /\ errors r = [])
         /\ Sorted Z.le (map LiveTrack.trackId rows)
         /\ (forall id, In id (map LiveTrack.trackId rows)
                        <-> In id (map RadarPoint.trackId (points r))).
Proof.
  split; [reflexivity|]. intro r.
  destruct (update_Ok exp TRAJECTORY_SIZE RD params sm (Some r) g)
    as [RD' [rs' [w3 [self1 [_ [E [_ [_ Htr]]]]]]]].
  destruct (update_fields _ _ _ _ _ _ _ _ _ E)
    as [_ [_ [_ [_ [_ [_ [_ [_ [Fv [_ [_ [rs [Frs [Ferr _]]]]]]]]]]]]]].
  destruct (proj2 (publish_rows RD' (- remaining * 1000.0)) rs Frs)
    as [rows [P [Hids [Hs Hp]]]].
  eexists RD', _, rs, rows.
  unfold radard_turn. rewrite E. cbn [bind]. rewrite P. cbn [bind].
  split; [reflexivity|]. split; [reflexivity|]. split; [exact Frs|].
  split; [exact Ferr|]. split.
  { rewrite Fv, andb_true_iff, Nat.eqb_eq. split; intros [H1 H2]; (split; [exact H1|]).
    - now apply length_zero_iff_nil.
    - now rewrite H2. }
  split; [exact Hs|].
  intro id. rewrite Hids. split.
  - intro H. apply (Permutation_in _ (sorted_perm _)) in H.
    rewrite Htr in H. now apply update_tracks_keys in H.
  - intro H. apply (Permutation_in _ (Permutation_sym (sorted_perm _))).
    rewrite Htr. now apply update_tracks_keys.
Qed.

(** ** The center list of [get_lead_side] *)

Lemma side_of_Center (lane_width d_y : Q) :
  side_of lane_width d_y = Center <-> Qabs d_y < lane_width / 2.
Proof.
  unfold side_of. rewrite <- Qltb_lt.
  destruct (Qltb (Qabs d_y) (lane_width / 2)); [tauto|].
  destruct (_ && _); [split; discriminate|].
  destruct (_ && _); split; discriminate.
Qed.

Lemma center_inv_set (md : ModelV2.t) (lane_width : Q) (done : list Track.t)
    (cen : LeadsByDist) (ld : Lead.t) :
  center_inv md lane_width done cen ->
  (forall k ld0, In (k, ld0) (dict_set Qeq_bool (Lead.dRel ld) ld cen) -> k == Lead.dRel ld0)
  /\ (forall c, In c done -> Qabs (side_d_y md c) < lane_width / 2 ->
        exists k, In k (keys (dict_set Qeq_bool (Lead.dRel ld) ld cen))
                  /\ k == Track.dRel c)
  /\ exists k, In k (keys (dict_set Qeq_bool (Lead.dRel ld) ld cen)) /\ k == Lead.dRel ld.
Proof.
  intros [Hk Hc]. split; [|split].
  - intros k ld0 H. apply dict_set_In_inv in H. destruct H as [H|[-> H]].
    + now apply Hk.
    + now apply set_key_Qeq.
  - intros c H1 H2. destruct (Hc c H1 H2) as [k [H3 H4]]. exists k.
    split; [now apply dict_set_key_kept | exact H4].
  - destruct (dict_set_has Qeq_bool (Lead.dRel ld) ld cen) as [k [H1 H2]].
    exists k. split; [exact H1 | now apply set_key_Qeq].
Qed.

Lemma center_inv_fold (md : ModelV2.t) (lane_width : Q) (lead_msg : LeadMsg.t)
    (cs : list Track.t) :
  forall (done : list Track.t) (acc : LeadsByDist * LeadsByDist * LeadsByDist),
    center_inv md lane_width done (fst (fst acc)) ->
    center_inv md lane_width (done ++ cs)
               (fst (fst (fold_left (side_step md lane_width lead_msg) cs acc))).
Proof.
  induction cs as [|c cs IH]; intros done acc H; simpl.
  - now rewrite app_nil_r.
  - replace (done ++ c :: cs) with ((done ++ [c]) ++ cs)
      by (rewrite <- app_assoc; reflexivity).
    apply IH. destruct acc as [[cen lft] rgt]. cbn [fst] in H.
    assert (Hout : side_of lane_width (side_d_y md c) <> Center ->
                   center_inv md lane_width (done ++ [c]) cen).
    { intro Hs. destruct H as [Hk Hc]. split; [exact Hk|].
      intros c' Hin Hcen. apply in_app_or in Hin. destruct Hin as [Hin|[<-|[]]].
      - now apply Hc.
      - apply side_of_Center in Hcen. contradiction. }
    unfold side_step.
    destruct (side_of lane_width (side_d_y md c)) eqn:S; cbn [fst];
      try (apply Hout; discriminate).
    pose proof (center_inv_set md lane_width done cen
                  (Track.get_RadarState2 c (LeadMsg.prob lead_msg) lead_msg) H)
      as [Hk [Hc Hnew]].
    cbn [Track.get_RadarState2 Lead.dRel] in Hk, Hc, Hnew.
    split; [exact Hk|].
    intros c' Hin Hcen. apply in_app_or in Hin. destruct Hin as [Hin|[<-|[]]].
    + now apply Hc.
    + exact Hnew.
Qed.

Lemma dict_get_Qeq_In (k : Q) (d : LeadsByDist) (ld : Lead.t) :
  dict_get Qeq_bool k d = Some ld -> exists k', In (k', ld) d /\ k == k'.
Proof.
  induction d as [|[k0 v0] d IH]; simpl; [discriminate|].
  destruct (Qeq_bool k k0) eqn:E.
  - intros [= <-]. exists k0. split; [now left | now apply Qeq_bool_iff].
  - intro H. destruct (IH H) as [k' [H1 H2]]. exists k'. split; [now right | exact H2].
Qed.

Lemma dict_get_Qeq_keys (k : Q) (d : LeadsByDist) :
  In k (keys d) -> exists ld, dict_get Qeq_bool k d = Some ld.
Proof.
  induction d as [|[k0 v0] d IH]; simpl; [contradiction|].
  destruct (Qeq_bool k k0) eqn:E; [eauto|].
  intros [H|H]; [|now apply IH].
  subst k0. rewrite Qeq_bool_refl in E. discriminate.
Qed.

(** X14.  The center list of [get_lead_side], with a model path of
    [TRAJECTORY_SIZE] points.  It has at most one record, and that record is
    the nearest of the center: no Track within half a lane of the path is
    nearer, nor is the vision lead when its confidence is above 0.5.  The
    list is empty only when no Track is within half a lane of the path and
    vision is not confident. *)
Theorem center_list_nearest
    (TRAJECTORY_SIZE : nat) (v_ego : Q) (tracks : Tracks) (md : ModelV2.t)
    (lane_width model_v_ego g : Q) (lead_msg : LeadMsg.t) (rest : list LeadMsg.t) :
  ModelV2.leadsV3 md = lead_msg :: rest ->
  length (ModelV2.position_x md) = TRAJECTORY_SIZE ->
  exists (sides : SideLeads) (g' : Q),
    get_lead_side TRAJECTORY_SIZE v_ego tracks md lane_width model_v_ego g
    = Ok (sides, g')
    /\ (length (lc sides) <= 1)%nat
    /\ (forall ld, In ld (lc sides) ->
          (forall c, In c (values tracks) -> Qabs (side_d_y md c) < lane_width / 2 ->
                     Lead.dRel ld <= Track.dRel c)
          /\ (0.5 < LeadMsg.prob lead_msg ->
              Lead.dRel ld <= LeadMsg.x lead_msg - RADAR_TO_CAMERA))
    /\ (lc sides = [] ->
        LeadMsg.prob lead_msg <= 0.5
        /\ forall c, In c (values tracks) -> ~ Qabs (side_d_y md c) < lane_width / 2).
Proof.
  intros E Hlen. unfold get_lead_side. rewrite E.
  apply Nat.eqb_eq in Hlen. rewrite Hlen.
  pose proof (center_inv_fold md lane_width lead_msg (values tracks) [] ([], [], [])) as Inv.
  cbn [app fst] in Inv.
  destruct (fold_left (side_step md lane_width lead_msg) (values tracks) ([], [], []))
    as [[cen lft] rgt].
  cbn [fst] in Inv.
  assert (Inv0 : center_inv md lane_width (values tracks) cen).
  { apply Inv. split; intros; contradiction. }
  clear Inv.
  set (vision := fst (get_RadarState_from_vision lead_msg v_ego model_v_ego g)).
  assert (Hcen' : exists cen' g',
    (if Qltb 0.5 (LeadMsg.prob lead_msg)
     then let '(ld, g0) := get_RadarState_from_vision lead_msg v_ego model_v_ego g in
          (dict_set Qeq_bool (Lead.dRel ld) ld cen, g0)
     else (cen, g)) = (cen', g')
    /\ (forall k ld, In (k, ld) cen' -> k == Lead.dRel ld)
    /\ (forall c, In c (values tracks) -> Qabs (side_d_y md c) < lane_width / 2 ->
          exists k, In k (keys cen') /\ k == Track.dRel c)
    /\ (0.5 < LeadMsg.prob lead_msg ->
        exists k, In k (keys cen') /\ k == LeadMsg.x lead_msg - RADAR_TO_CAMERA)
    /\ (cen' = [] -> LeadMsg.prob lead_msg <= 0.5)).
  { destruct (Qltb 0.5 (LeadMsg.prob lead_msg)) eqn:P.
    - exists (dict_set Qeq_bool (Lead.dRel vision) vision cen), (decay g).
      split; [reflexivity|].
      pose proof (center_inv_set md lane_width (values tracks) cen vision Inv0)
        as [Hk [Hc Hnew]].
      split; [exact Hk|]. split; [exact Hc|]. split; [intros _; exact Hnew|].
      intro Hnil. exfalso. destruct Hnew as [k [Hin _]].
      rewrite Hnil in Hin. exact Hin.
    - exists cen, g. split; [reflexivity|]. destruct Inv0 as [Hk Hc].
      split; [exact Hk|]. split; [exact Hc|].
      apply Qltb_ge in P. split; [intro H; lra | intros _; exact P]. }
  destruct Hcen' as [cen' [g' [-> [Hk [Hc [Hv Hnil]]]]]].
  eexists _, g'. split; [reflexivity|]. cbn [lc].
  destruct (min_by (fun k => k) (keys cen')) as [kmin|] eqn:M.
  - destruct (min_by_Some _ _ _ M) as [Hin Hle].
    destruct (dict_get_Qeq_keys kmin cen' Hin) as [ld G]. rewrite G.
    destruct (dict_get_Qeq_In kmin cen' ld G) as [k' [Hk' Hq]].
    assert (Hd : Lead.dRel ld == kmin) by (rewrite Hq; symmetry; now apply (Hk k')).
    split; [cbn; lia|]. split.
    + intros ld0 [<-|[]]. split.
      * intros c H1 H2. destruct (Hc c H1 H2) as [k [H3 H4]].
        rewrite Hd, <- H4. now apply Hle.
      * intro Hp. destruct (Hv Hp) as [k [H3 H4]]. rewrite Hd, <- H4. now apply Hle.
    + discriminate.
  - apply min_by_None in M. split; [cbn; lia|]. split; [intros ld []|].
    intros _.
    assert (Hempty : cen' = []) by (destruct cen'; [reflexivity | discriminate]).
    split; [now apply Hnil|].
    intros c H1 H2. destruct (Hc c H1 H2) as [k [H3 _]]. now rewrite M in H3.
Qed.

Lemma center_list_nearest_witness :
  let md := sample_md (sample_lead 40 0 10 0.9) (sample_lead 40 0 10 0.9) in
  let tracks := [(5%Z, sample_track 5 30 0.5 0 10); (6%Z, sample_track 6 20 (-0.5) 0 10)] in
  exists sides g',
    get_lead_side 33 10 tracks md 3.6 10 1.5 = Ok (sides, g')
    /\ (length (lc sides) <= 1)%nat
    /\ lc sides = [Track.get_RadarState2 (sample_track 6 20 (-0.5) 0 10) 0.9
                                         (sample_lead 40 0 10 0.9)].
Proof.
  cbv zeta.
  destruct (center_list_nearest 33 10
              [(5%Z, sample_track 5 30 0.5 0 10); (6%Z, sample_track 6 20 (-0.5) 0 10)]
              (sample_md (sample_lead 40 0 10 0.9) (sample_lead 40 0 10 0.9))
              3.6 10 1.5 (sample_lead 40 0 10 0.9) [sample_lead 40 0 10 0.9]
              eq_refl eq_refl)
    as [sides [g' [E [Hlen _]]]].
  exists sides, g'. split; [exact E|]. split; [exact Hlen|].
  vm_compute in E. injection E as <- _. reflexivity.
Defined.

(** ** Fewer than two vision candidates *)

(** X15.  [RadarD.update] selects leads only when the model carries at least
    two lead candidates.  With fewer, the cycle still refreshes the Track
    map from the radar points, but the radar state it leaves has no lead at
    all (primary, secondary, left, right, and the three lists are empty)
    and the decay state is untouched. *)
Theorem update_needs_two_candidates
    (exp : Q -> Q) (TRAJECTORY_SIZE : nat) (self : RadarD.t) (params : Params)
    (sm : SubMaster) (rr : option RadarData) (g : Q) :
  (length (ModelV2.leadsV3 (modelV2 sm)) <= 1)%nat ->
  exists (self' : RadarD.t) (rs : RadarState.t),
    RadarD.update exp TRAJECTORY_SIZE self params sm rr g = Ok (self', g)
    /\ RadarD.radar_state self' = Some rs
    /\ RadarState.leadOne rs = Lead.none /\ RadarState.leadTwo rs = Lead.none
    /\ RadarState.leadLeft rs = Lead.none /\ RadarState.leadRight rs = Lead.none
    /\ RadarState.leadsLeft rs = [] /\ RadarState.leadsCenter rs = []
    /\ RadarState.leadsRight rs = []
    /\ (forall id, In id (keys (RadarD.tracks self'))
                   <-> In id (map RadarPoint.trackId (RadarD.radar_points rr))).
Proof.
  intro Hlen.
  destruct (update_Ok exp TRAJECTORY_SIZE self params sm rr g)
    as [self0 [rs0 [w3 [self1 [_ [E0 [_ [_ Htr]]]]]]]].
  assert (E : exists self' rs,
            RadarD.update exp TRAJECTORY_SIZE self params sm rr g = Ok (self', g)
            /\ RadarD.radar_state self' = Some rs
            /\ RadarState.leadOne rs = Lead.none /\ RadarState.leadTwo rs = Lead.none
            /\ RadarState.leadLeft rs = Lead.none /\ RadarState.leadRight rs = Lead.none
            /\ RadarState.leadsLeft rs = [] /\ RadarState.leadsCenter rs = []
            /\ RadarState.leadsRight rs = []).
  { unfold RadarD.update, RadarD.select_leads. cbv zeta.
    destruct (ModelV2.leadsV3 (modelV2 sm)) as [|lead0 [|lead1 rest]];
      [| |cbn [length] in Hlen; lia];
      cbn [bind]; eexists _, _; (split; [reflexivity|]); (split; [reflexivity|]);
      repeat split. }
  destruct E as [self' [rs [E [H1 H2]]]].
  exists self', rs. split; [exact E|]. split; [exact H1|].
  destruct H2 as [H2 [H3 [H4 [H5 [H6 [H7 H8]]]]]].
  repeat (split; [assumption|]).
  rewrite E in E0. injection E0 as <- _.
  intro id. rewrite Htr. apply update_tracks_keys.
Qed.

Lemma update_needs_two_candidates_witness :
  exists self' rs,
    RadarD.update sample_exp 33 sample_radard (sample_params 0)
      {| updated_carState := true; updated_modelV2 := true;
         carState_vEgo := 10; carState_aEgo := 0;
         modelV2 := {| ModelV2.position_x := straight_path_x;
                       ModelV2.position_y := straight_path_y;
                       ModelV2.leadsV3 := [sample_lead 30 0 10 0.9];
                       ModelV2.temporalPose_trans := [] |};
         lateralPlan_laneWidth := 3.2;
         logMonoTime_modelV2 := 0; logMonoTime_carState := 0;
         logMonoTime_lateralPlan := 0; all_checks := true |}
      (Some {| points := [sample_point 5 30 0 0]; errors := [] |}) 1.5
    = Ok (self', 1.5)
    /\ RadarD.radar_state self' = Some rs
    /\ RadarState.leadOne rs = Lead.none
    /\ keys (RadarD.tracks self') = [5%Z].
Proof.
  destruct (update_needs_two_candidates sample_exp 33 sample_radard (sample_params 0)
      {| updated_carState := true; updated_modelV2 := true;
         carState_vEgo := 10; carState_aEgo := 0;
         modelV2 := {| ModelV2.position_x := straight_path_x;
                       ModelV2.position_y := straight_path_y;
                       ModelV2.leadsV3 := [sample_lead 30 0 10 0.9];
                       ModelV2.temporalPose_trans := [] |};
         lateralPlan_laneWidth := 3.2;
         logMonoTime_modelV2 := 0; logMonoTime_carState := 0;
         logMonoTime_lateralPlan := 0; all_checks := true |}
      (Some {| points := [sample_point 5 30 0 0]; errors := [] |}) 1.5)
    as [self' [rs [E [H1 [H2 _]]]]].
  - cbn. lia.
  - exists self', rs. split; [exact E|]. split; [exact H1|]. split; [exact H2|].
    vm_compute in E. injection E as <-. reflexivity.
Defined.
